(** * Rock-paper-automata: the automaton engine of [index.js]

    A shallow embedding of the level store and pixel buffers of [Canvas],
    of the two rules [randomAlgorithm] ("Classic") and [wavesAlgorithm]
    ("Waves"), of the generation pass [update] of [RockPaperAutomata], of
    the methods of [Canvas] that seed the first generation and transpose
    free-hand drawing, of [loadInitialCanvas] and of the class [Timing],
    followed by the properties of the engine.

    Conventions of the embedding.
    - JS numbers that the engine handles are integers (coordinates, indices,
      levels, colour bytes); they are [Z].  A level can be as large as the
      initial-level input allows, so [neighborLevel + 1] of the Classic rule
      is the addition of doubles, [jsAdd]: exact up to 2^53 and rounded to
      the nearest double, ties to even, beyond.  The decrement [myLevel - 1]
      of the Waves rule is the subtraction of [Z], which it is for every
      level above -2^53.
    - A [Uint8ClampedArray] is a [list Z]; a store outside its bounds is
      ignored, as in JS.  The level array is a plain JS array, a [list Z].
    - Reading a cell outside an array gives [undefined] in JS.  The embedding
      does not follow such executions: they end in [OutOfBounds], and a pass
      over a well-formed simulation is shown never to get there.  (The blank
      test of [paintRandomPoints] is the exception: there [undefined] only
      makes the test fail.)
    - A JS exception is the completion [Throw], carrying the mutable state as
      it stood when the exception was raised.
    - The two rules are methods that read [this.initialLevel],
      [this.edibleLevel] and [this.youngBanquetMode]: their receiver is an
      argument of the embedding, [Some] simulation or [None] for
      [undefined], and a property read on [undefined] throws [TypeError].
      [update] calls the rule without a receiver; [updateWith] is the pass
      for any receiver.
    - [Math.trunc(Math.random() * 3)] is an oracle [nat -> draw3], read at the
      position [drawn] of the world and advanced by one per draw. *)

From Stdlib Require Import ZArith Lia Bool.
From stdpp Require Import base list strings gmap.

Local Open Scope Z_scope.

(** ** Arrays *)

(** [array[i]] for a JS number [i]. *)
Definition nth_cell {T : Type} (array : list T) (i : Z) : option T :=
  if i <? 0 then None else array !! Z.to_nat i.

(** The conversion a [Uint8ClampedArray] applies to a stored integer. *)
Definition clampByte (v : Z) : Z := Z.max 0 (Z.min 255 v).

(** [buffer[i] = v] on a [Uint8ClampedArray]. *)
Definition storeByte (buffer : list Z) (i v : Z) : list Z :=
  if i <? 0 then buffer else <[Z.to_nat i := clampByte v]> buffer.

(** ** Numbers *)

(** The double nearest to the integer [z], ties to even, for [z] below
    2^1024 in magnitude: up to 2^53 every integer is a double; beyond, the
    doubles are the multiples of [2 ^ e] with a 53-bit factor. *)
Definition roundDouble (z : Z) : Z :=
  let a := Z.abs z in
  if a <? 2 ^ 53 then z
  else
    let e := Z.log2 a - 52 in
    let q := a / 2 ^ e in
    let r := a mod 2 ^ e in
    let half := 2 ^ (e - 1) in
    let q' :=
      if r <? half then q
      else if half <? r then q + 1
      else if Z.even q then q else q + 1 in
    Z.sgn z * (q' * 2 ^ e).

(** [a + b] on JS numbers that hold integers. *)
Definition jsAdd (a b : Z) : Z := roundDouble (a + b).

(** ** class Canvas *)

(** [context] is the RGBA pixel data held by the 2D context of the canvas,
    what [getImageData(0, 0, width, height).data] copies out and
    [putImageData] copies back. *)
Record Canvas := mkCanvas {
  width : Z;
  height : Z;
  levelByAutomatonIndex : list Z;
  context : list Z
}.

Definition getUnderlyingBufferCopy (this : Canvas) : list Z := context this.

Definition putImageData (this : Canvas) (data : list Z) : Canvas :=
  mkCanvas (width this) (height this) (levelByAutomatonIndex this) data.

Definition canvasCoordToDataIndex (this : Canvas) (x y : Z) : Z :=
  4 * (y * width this + x).

Definition canvasCoordToLevelIndex (this : Canvas) (x y : Z) : Z :=
  y * width this + x.

(** [None] when the index is outside the level array (JS would grow it). *)
Definition setLevelAtCoord (this : Canvas) (x y level : Z) : option Canvas :=
  let i := canvasCoordToLevelIndex this x y in
  if (0 <=? i) && (i <? Z.of_nat (length (levelByAutomatonIndex this))) then
    Some (mkCanvas (width this) (height this)
            (<[Z.to_nat i := level]> (levelByAutomatonIndex this))
            (context this))
  else None.

Definition getLevelAtCoord (this : Canvas) (x y : Z) : option Z :=
  nth_cell (levelByAutomatonIndex this) (canvasCoordToLevelIndex this x y).

Definition getRGB (this : Canvas) (buffer : list Z) (x y : Z)
  : option (Z * Z * Z) :=
  r ← nth_cell buffer (canvasCoordToDataIndex this x y + 0);
  g ← nth_cell buffer (canvasCoordToDataIndex this x y + 1);
  b ← nth_cell buffer (canvasCoordToDataIndex this x y + 2);
  Some (r, g, b).

Definition setRGB (this : Canvas) (buffer : list Z) (x y r g b : Z) : list Z :=
  let buffer := storeByte buffer (canvasCoordToDataIndex this x y + 0) r in
  let buffer := storeByte buffer (canvasCoordToDataIndex this x y + 1) g in
  storeByte buffer (canvasCoordToDataIndex this x y + 2) b.

Definition isPixelBlank (this : Canvas) (buffer : list Z) (x y : Z)
  : option bool :=
  '(r, g, b) ← getRGB this buffer x y;
  Some (r + g + b =? 0).

(** [function *range(begin, end)], as the list of the values it yields. *)
Definition range (begin end_ : Z) : list Z :=
  if begin <? end_ then seqZ begin (end_ - begin)
  else (fun i => begin - i) <$> seqZ 0 (begin - end_).

(** A canvas as the constructor of [Canvas] and [reset] leave it: every level
    0, every pixel black and opaque. *)
Definition newCanvas (width height : Z) : Canvas :=
  let cells := Z.to_nat (width * height) in
  mkCanvas width height (replicate cells 0)
    (concat (replicate cells [0; 0; 0; 255])).

(** What [paintRandomPoints] does to the cell [(x, y)] it draws: channel
    [rgOrB] raised to 255 and the level set to [level] (in the source, the
    [initialLevel] of the simulation at that moment). *)
Definition paintPoint (x y rgOrB level : Z) (canvas : Canvas) : Canvas :=
  let data :=
    storeByte (context canvas) (canvasCoordToDataIndex canvas x y + rgOrB) 255 in
  match setLevelAtCoord canvas x y level with
  | Some canvas' => putImageData canvas' data
  | None => canvas
  end.

(** ** class RockPaperAutomata *)

Definition NEIGHBOR_PICKING_MODE_RANDOM : Z := 0.
Definition NEIGHBOR_PICKING_MODE_FIXED : Z := 1.
Definition NEIGHBOR_PICKING_MODE_PRE_RANDOM : Z := 2.
Definition INITIAL_LEVEL : Z := 30.
Definition EDIBLE_LEVEL : Z := 1.

Record RockPaperAutomata := mkRockPaperAutomata {
  algorithm : string;
  initialLevel : Z;
  edibleLevel : Z;
  neighborPickingMode : Z;
  fixedNeighborPicks : list (Z * Z);
  fixedNeighborMask : Z;
  fixedNeighborPicksIndex : Z;
  randomNeighborPicks : list (Z * Z);
  randomNeighborMask : Z;
  randomNeighborPicksIndex : Z;
  youngBanquetMode : bool;
  isPaused : bool;
  uiCanvas : Canvas
}.

Definition set_algorithm (a : string) (s : RockPaperAutomata) :=
  mkRockPaperAutomata a (initialLevel s) (edibleLevel s)
    (neighborPickingMode s) (fixedNeighborPicks s) (fixedNeighborMask s)
    (fixedNeighborPicksIndex s) (randomNeighborPicks s) (randomNeighborMask s)
    (randomNeighborPicksIndex s) (youngBanquetMode s) (isPaused s) (uiCanvas s).

Definition set_neighborPickingMode (m : Z) (s : RockPaperAutomata) :=
  mkRockPaperAutomata (algorithm s) (initialLevel s) (edibleLevel s)
    m (fixedNeighborPicks s) (fixedNeighborMask s)
    (fixedNeighborPicksIndex s) (randomNeighborPicks s) (randomNeighborMask s)
    (randomNeighborPicksIndex s) (youngBanquetMode s) (isPaused s) (uiCanvas s).

Definition set_fixedNeighborPicksIndex (i : Z) (s : RockPaperAutomata) :=
  mkRockPaperAutomata (algorithm s) (initialLevel s) (edibleLevel s)
    (neighborPickingMode s) (fixedNeighborPicks s) (fixedNeighborMask s)
    i (randomNeighborPicks s) (randomNeighborMask s)
    (randomNeighborPicksIndex s) (youngBanquetMode s) (isPaused s) (uiCanvas s).

Definition set_randomNeighborPicksIndex (i : Z) (s : RockPaperAutomata) :=
  mkRockPaperAutomata (algorithm s) (initialLevel s) (edibleLevel s)
    (neighborPickingMode s) (fixedNeighborPicks s) (fixedNeighborMask s)
    (fixedNeighborPicksIndex s) (randomNeighborPicks s) (randomNeighborMask s)
    i (youngBanquetMode s) (isPaused s) (uiCanvas s).

Definition set_uiCanvas (c : Canvas) (s : RockPaperAutomata) :=
  mkRockPaperAutomata (algorithm s) (initialLevel s) (edibleLevel s)
    (neighborPickingMode s) (fixedNeighborPicks s) (fixedNeighborMask s)
    (fixedNeighborPicksIndex s) (randomNeighborPicks s) (randomNeighborMask s)
    (randomNeighborPicksIndex s) (youngBanquetMode s) (isPaused s) c.

(** *** Completions *)

Inductive exn :=
| Error (message : string)
| TypeError.

Inductive completion (S : Type) : Type :=
| Normal (s : S)
| Throw (e : exn) (s : S)
| OutOfBounds.
Arguments Normal {S} s.
Arguments Throw {S} e s.
Arguments OutOfBounds {S}.

(** [canvas.setLevelAtCoord(x, y, level); k] *)
Definition setLevelThen {S : Type} (canvas : Canvas) (x y level : Z)
    (k : Canvas -> completion S) : completion S :=
  match setLevelAtCoord canvas x y level with
  | Some canvas' => k canvas'
  | None => OutOfBounds
  end.

(** *** The Classic rule

    The receiver [this] of a rule is [Some] simulation, or [None] for
    [undefined]: reading a property of [undefined] throws a [TypeError]. *)

(** One of the three "eats" branches of [randomAlgorithm]; [rgb] is the
    colour the branch paints.  The receiver is read last, as the argument of
    the final [setLevelAtCoord]. *)
Definition randomEats (this : option RockPaperAutomata) (x y nx ny : Z)
    (canvas : Canvas) (workingBuffer : list Z) (neighborLevel : Z)
    (rgb : Z * Z * Z) : completion (Canvas * list Z) :=
  let '(pr, pg, pb) := rgb in
  let workingBuffer := setRGB canvas workingBuffer x y pr pg pb in
  setLevelThen canvas nx ny (jsAdd neighborLevel 1) (fun canvas =>
  match this with
  | None => Throw TypeError (canvas, workingBuffer)
  | Some this =>
      setLevelThen canvas x y (initialLevel this) (fun canvas =>
      Normal (canvas, workingBuffer))
  end).

Definition randomAlgorithm (this : option RockPaperAutomata) (x y nx ny : Z)
    (canvas : Canvas) (originalBuffer workingBuffer : list Z)
  : completion (Canvas * list Z) :=
  match getLevelAtCoord canvas nx ny with
  | None => OutOfBounds
  | Some neighborLevel =>
    if neighborLevel =? 0 then Normal (canvas, workingBuffer)
    else
      match getRGB canvas originalBuffer x y,
            getRGB canvas originalBuffer nx ny with
      | Some (r, g, b), Some (nr, ng, nb) =>
        if r + g + b =? 0 then
          let workingBuffer := setRGB canvas workingBuffer x y nr ng nb in
          setLevelThen canvas x y neighborLevel (fun canvas =>
          Normal (canvas, workingBuffer))
        else if (0 <? r) && (0 <? ng) then
          randomEats this x y nx ny canvas workingBuffer neighborLevel (0, ng, 0)
        else if (0 <? g) && (0 <? nb) then
          randomEats this x y nx ny canvas workingBuffer neighborLevel (0, 0, nb)
        else if (0 <? b) && (0 <? nr) then
          randomEats this x y nx ny canvas workingBuffer neighborLevel (nr, 0, 0)
        else Normal (canvas, workingBuffer)
      | _, _ => OutOfBounds
      end
  end.

(** *** The Waves rule *)

(** One of the three "eats" branches of [wavesAlgorithm]. *)
Definition wavesEats (this : RockPaperAutomata) (x y nx ny : Z)
    (canvas : Canvas) (workingBuffer : list Z) (rgb : Z * Z * Z)
  : completion (Canvas * list Z) :=
  let '(pr, pg, pb) := rgb in
  let workingBuffer := setRGB canvas workingBuffer x y pr pg pb in
  setLevelThen canvas nx ny (initialLevel this) (fun canvas =>
  setLevelThen canvas x y (initialLevel this) (fun canvas =>
  Normal (canvas, workingBuffer))).

Definition wavesAlgorithm (this : option RockPaperAutomata) (x y nx ny : Z)
    (canvas : Canvas) (originalBuffer workingBuffer : list Z)
  : completion (Canvas * list Z) :=
  match getLevelAtCoord canvas nx ny with
  | None => OutOfBounds
  | Some neighborLevel =>
    if neighborLevel =? 0 then Normal (canvas, workingBuffer)
    else
      match getLevelAtCoord canvas x y with
      | None => OutOfBounds
      | Some myLevel =>
        match this with
        | None => Throw TypeError (canvas, workingBuffer)
        | Some this =>
          if edibleLevel this <? myLevel then
            setLevelThen canvas x y (myLevel - 1) (fun canvas =>
            Normal (canvas, workingBuffer))
          else
            match getRGB canvas originalBuffer x y,
                  getRGB canvas originalBuffer nx ny with
            | Some (r, g, b), Some (nr, ng, nb) =>
              let banquet :=
                negb (youngBanquetMode this) || (myLevel <? neighborLevel) in
              if r + g + b =? 0 then
                let workingBuffer := setRGB canvas workingBuffer x y nr ng nb in
                setLevelThen canvas x y neighborLevel (fun canvas =>
                Normal (canvas, workingBuffer))
              else if (0 <? r) && (0 <? ng) && banquet then
                wavesEats this x y nx ny canvas workingBuffer (0, ng, 0)
              else if (0 <? g) && (0 <? nb) && banquet then
                wavesEats this x y nx ny canvas workingBuffer (0, 0, nb)
              else if (0 <? b) && (0 <? nr) && banquet then
                wavesEats this x y nx ny canvas workingBuffer (nr, 0, 0)
              else
                setLevelThen canvas x y (myLevel - 1) (fun canvas =>
                Normal (canvas, workingBuffer))
            | _, _ => OutOfBounds
            end
        end
      end
  end.

(** *** The generation pass *)

(** The three values of [Math.trunc(Math.random() * 3)]. *)
Inductive draw3 := Draw0 | Draw1 | Draw2.

Definition draw3_Z (d : draw3) : Z :=
  match d with Draw0 => 0 | Draw1 => 1 | Draw2 => 2 end.

(** The simulation object together with the number of random draws made so
    far. *)
Record World := mkWorld {
  self : RockPaperAutomata;
  drawn : nat
}.

Definition fixedRing : list (Z * Z) :=
  [(1, 1); (1, 0); (1, -1); (0, -1); (-1, -1); (-1, 0); (-1, 1); (0, 1)].

Inductive pick :=
| Pick (dx dy : Z) (w : World)
| PickThrow (e : exn)
| PickOutOfBounds.

(** The [switch (self.neighborPickingMode)] of [update]: the offset of the
    neighbour of the next cell, and the advanced cursor. *)
Definition pickNeighbor (random : nat -> draw3) (w : World) : pick :=
  let s := self w in
  if neighborPickingMode s =? NEIGHBOR_PICKING_MODE_RANDOM then
    let dx := draw3_Z (random (drawn w)) - 1 in
    let dy := draw3_Z (random (S (drawn w))) - 1 in
    Pick dx dy (mkWorld s (S (S (drawn w))))
  else if neighborPickingMode s =? NEIGHBOR_PICKING_MODE_FIXED then
    match nth_cell (fixedNeighborPicks s) (fixedNeighborPicksIndex s) with
    | Some (dx, dy) =>
        Pick dx dy
          (mkWorld
             (set_fixedNeighborPicksIndex
                (Z.land (fixedNeighborPicksIndex s + 1) (fixedNeighborMask s)) s)
             (drawn w))
    | None => PickOutOfBounds
    end
  else if neighborPickingMode s =? NEIGHBOR_PICKING_MODE_PRE_RANDOM then
    match nth_cell (randomNeighborPicks s) (randomNeighborPicksIndex s) with
    | Some (dx, dy) =>
        Pick dx dy
          (mkWorld
             (set_randomNeighborPicksIndex
                (Z.land (randomNeighborPicksIndex s + 1) (randomNeighborMask s)) s)
             (drawn w))
    | None => PickOutOfBounds
    end
  else PickThrow (Error "Unknown neighbor picking mode!").

Definition rule : Type :=
  option RockPaperAutomata -> Z -> Z -> Z -> Z -> Canvas -> list Z -> list Z ->
  completion (Canvas * list Z).

(** [self.algorithm === "waves" ? self.wavesAlgorithm : self.randomAlgorithm] *)
Definition selectAlgorithm (s : RockPaperAutomata) : rule :=
  if String.eqb (algorithm s) "waves" then wavesAlgorithm else randomAlgorithm.

(** [for (const i of items) body], stopping at the first exception. *)
Fixpoint forOf {T S : Type} (items : list T) (body : T -> S -> completion S)
    (s : S) : completion S :=
  match items with
  | [] => Normal s
  | i :: rest =>
      match body i s with
      | Normal s' => forOf rest body s'
      | Throw e s' => Throw e s'
      | OutOfBounds => OutOfBounds
      end
  end.

(** The body of the two loops of [update] for the cell [(x, y)]: pick a
    neighbour, then apply the rule.  The canvas the rule works on is
    [self.uiCanvas]; [thisArg] is the receiver the rule is called with. *)
Definition cellStep (random : nat -> draw3) (thisArg : option RockPaperAutomata)
    (algorithm : rule) (originalBuffer : list Z) (y x : Z)
    (st : World * list Z) : completion (World * list Z) :=
  let '(w, workingBuffer) := st in
  match pickNeighbor random w with
  | PickOutOfBounds => OutOfBounds
  | PickThrow e => Throw e (w, workingBuffer)
  | Pick dx dy w =>
      let put canvas := mkWorld (set_uiCanvas canvas (self w)) (drawn w) in
      match algorithm thisArg x y (x + dx) (y + dy) (uiCanvas (self w))
              originalBuffer workingBuffer with
      | Normal (canvas, workingBuffer) => Normal (put canvas, workingBuffer)
      | Throw e (canvas, workingBuffer) => Throw e (put canvas, workingBuffer)
      | OutOfBounds => OutOfBounds
      end
  end.

(** The callback that [update] hands to [doWork]. *)
Definition work (random : nat -> draw3) (thisArg : option RockPaperAutomata)
    (originalBuffer workingBuffer : list Z) (w : World)
  : completion (World * list Z) :=
  let algorithm := selectAlgorithm (self w) in
  let this := uiCanvas (self w) in
  forOf (range 1 (height this - 1)) (fun y =>
    forOf (range 1 (width this - 1)) (fun x =>
      cellStep random thisArg algorithm originalBuffer y x))
    (w, workingBuffer).

(** [Canvas.doWork]: two copies of the pixel data, the callback, and then
    the working copy is put back.  An exception in the callback leaves the
    pixel data as it was. *)
Definition doWork
    (callback : list Z -> list Z -> World -> completion (World * list Z))
    (w : World) : completion World :=
  let originalBuffer := getUnderlyingBufferCopy (uiCanvas (self w)) in
  let workingBuffer := getUnderlyingBufferCopy (uiCanvas (self w)) in
  match callback originalBuffer workingBuffer w with
  | Normal (w', workingBuffer) =>
      Normal (mkWorld
                (set_uiCanvas (putImageData (uiCanvas (self w')) workingBuffer)
                   (self w'))
                (drawn w'))
  | Throw e (w', _) => Throw e w'
  | OutOfBounds => OutOfBounds
  end.

(** [update], with the receiver that the rule is called with as a
    parameter. *)
Definition updateWith (random : nat -> draw3)
    (thisArg : option RockPaperAutomata) (w : World) : completion World :=
  if isPaused (self w) then Normal w
  else doWork (work random thisArg) w.

(** [RockPaperAutomata.update].  The rule is called as a plain function,
    [algorithm(x, y, ...)], not as a method of [self]; a class body is strict
    code, so inside the rule [this] is [undefined]. *)
Definition update (random : nat -> draw3) (w : World) : completion World :=
  updateWith random None w.

(** One animation frame.  [update] asks for the next frame before it does
    any work, so the frame after an exception runs on the state the exception
    left. *)
Definition frameWith (random : nat -> draw3)
    (thisArg : World -> option RockPaperAutomata) (w : World) : option World :=
  match updateWith random (thisArg w) w with
  | Normal w' => Some w'
  | Throw _ w' => Some w'
  | OutOfBounds => None
  end.

Fixpoint framesWith (random : nat -> draw3)
    (thisArg : World -> option RockPaperAutomata) (n : nat) (w : World)
  : option World :=
  match n with
  | O => Some w
  | S n => w' ← frameWith random thisArg w; framesWith random thisArg n w'
  end.

(** A bound receiver: the rule called with the simulation as [this]. *)
Definition boundThis (w : World) : option RockPaperAutomata := Some (self w).

(** *** Construction and the configuration handlers *)

Definition randomPicksLength : nat := 128.

(** [Array.from(Array(n), () => [trunc(random * 3) - 1, trunc(random * 3) - 1])]
    with the draws starting at position [from]. *)
Definition drawPicks (random : nat -> draw3) (from n : nat) : list (Z * Z) :=
  (fun k => (draw3_Z (random (from + 2 * k)%nat) - 1,
             draw3_Z (random (from + 2 * k + 1)%nat) - 1)) <$> seq 0 n.

(** The fields that the constructor sets; the canvas that
    [loadInitialCanvas] paints is a parameter. *)
Definition construct (random : nat -> draw3) (from : nat) (canvas : Canvas)
  : World :=
  let picks := drawPicks random from randomPicksLength in
  mkWorld
    (mkRockPaperAutomata "waves" INITIAL_LEVEL EDIBLE_LEVEL
       NEIGHBOR_PICKING_MODE_RANDOM
       fixedRing (Z.of_nat (length fixedRing) - 1) 0
       picks (Z.of_nat (length picks) - 1) 0
       true false canvas)
    (from + 2 * randomPicksLength).

(** The [change] handler of the neighbour-selection radio buttons. *)
Definition neighborSelectionChange (value : string) (s : RockPaperAutomata)
  : RockPaperAutomata :=
  if String.eqb value "random" then
    set_neighborPickingMode NEIGHBOR_PICKING_MODE_RANDOM s
  else if String.eqb value "fixed" then
    set_neighborPickingMode NEIGHBOR_PICKING_MODE_FIXED s
  else if String.eqb value "pre-random" then
    set_neighborPickingMode NEIGHBOR_PICKING_MODE_PRE_RANDOM s
  else s.

(** The [click] handlers of the two algorithm buttons. *)
Definition algorithmRandomClick (s : RockPaperAutomata) : RockPaperAutomata :=
  set_algorithm "random" s.

Definition algorithmWavesClick (s : RockPaperAutomata) : RockPaperAutomata :=
  set_algorithm "waves" s.

(** The [change] handlers of the two level inputs; [value] is the integer
    that [parseInt] read. *)
Definition initialLevelChange (value : Z) (s : RockPaperAutomata)
  : RockPaperAutomata :=
  mkRockPaperAutomata (algorithm s) value (edibleLevel s)
    (neighborPickingMode s) (fixedNeighborPicks s) (fixedNeighborMask s)
    (fixedNeighborPicksIndex s) (randomNeighborPicks s) (randomNeighborMask s)
    (randomNeighborPicksIndex s) (youngBanquetMode s) (isPaused s) (uiCanvas s).

Definition edibleLevelChange (value : Z) (s : RockPaperAutomata)
  : RockPaperAutomata :=
  mkRockPaperAutomata (algorithm s) (initialLevel s) value
    (neighborPickingMode s) (fixedNeighborPicks s) (fixedNeighborMask s)
    (fixedNeighborPicksIndex s) (randomNeighborPicks s) (randomNeighborMask s)
    (randomNeighborPicksIndex s) (youngBanquetMode s) (isPaused s) (uiCanvas s).

(** The simulation as constructed, after the selection control was set to
    [value]. *)
Definition constructWith (value : string) (random : nat -> draw3) (from : nat)
    (canvas : Canvas) : World :=
  let w := construct random from canvas in
  mkWorld (neighborSelectionChange value (self w)) (drawn w).

(** ** Species

    The engine stores colours; a species is what a pure colour stands for.
    [A] is red, [B] is green and [C] is blue, after the comments of the rules:
    "green eats red", "blue eats green", "red eats blue". *)

Inductive species := Empty | A | B | C.

Definition speciesOf (rgb : Z * Z * Z) : option species :=
  let '(r, g, b) := rgb in
  if (r =? 0) && (g =? 0) && (b =? 0) then Some Empty
  else if (0 <? r) && (g =? 0) && (b =? 0) then Some A
  else if (r =? 0) && (0 <? g) && (b =? 0) then Some B
  else if (r =? 0) && (g =? 0) && (0 <? b) then Some C
  else None.

(** [eatenBy prey predator]: A is eaten by B, B by C, C by A. *)
Definition eatenBy (prey predator : species) : bool :=
  match prey, predator with
  | A, B | B, C | C, A => true
  | _, _ => false
  end.

(** The species of the cell [(x, y)] in a pixel buffer. *)
Definition speciesAt (canvas : Canvas) (buffer : list Z) (x y : Z)
  : option species :=
  rgb ← getRGB canvas buffer x y; speciesOf rgb.

(** ** Well-formed canvases and simulations *)

Record wfCanvas (c : Canvas) : Prop := mkWfCanvas {
  wf_width : 2 <= width c;
  wf_height : 2 <= height c;
  wf_levels : Z.of_nat (length (levelByAutomatonIndex c)) = width c * height c;
  wf_context : Z.of_nat (length (context c)) = 4 * (width c * height c)
}.

Definition unitOffset (d : Z * Z) : Prop :=
  -1 <= d.1 <= 1 /\ -1 <= d.2 <= 1.

(** The selector fields as the constructor sets them up, the cursors
    anywhere on their rings. *)
Record wfSim (s : RockPaperAutomata) : Prop := mkWfSim {
  wf_canvas : wfCanvas (uiCanvas s);
  wf_fixedPicks : fixedNeighborPicks s = fixedRing;
  wf_fixedMask : fixedNeighborMask s = 7;
  wf_fixedIndex : 0 <= fixedNeighborPicksIndex s < 8;
  wf_randomPicks : Forall unitOffset (randomNeighborPicks s);
  wf_randomLength : length (randomNeighborPicks s) = randomPicksLength;
  wf_randomMask : randomNeighborMask s = 127;
  wf_randomIndex : 0 <= randomNeighborPicksIndex s < 128
}.

(** A cell of the grid, and a cell on its border. *)
Definition inGrid (c : Canvas) (x y : Z) : Prop :=
  0 <= x < width c /\ 0 <= y < height c.

Definition onBorder (c : Canvas) (x y : Z) : Prop :=
  inGrid c x y /\ (x = 0 \/ x = width c - 1 \/ y = 0 \/ y = height c - 1).

(** The interior cells, those that a pass takes as the self cell. *)
Definition interior (c : Canvas) (x y : Z) : Prop :=
  1 <= x <= width c - 2 /\ 1 <= y <= height c - 2.

(** The fields that a pass leaves alone: everything but the two cursors and
    the canvas. *)
Definition sameConfig (s s' : RockPaperAutomata) : Prop :=
  algorithm s' = algorithm s /\ initialLevel s' = initialLevel s /\
  edibleLevel s' = edibleLevel s /\
  neighborPickingMode s' = neighborPickingMode s /\
  fixedNeighborPicks s' = fixedNeighborPicks s /\
  fixedNeighborMask s' = fixedNeighborMask s /\
  randomNeighborPicks s' = randomNeighborPicks s /\
  randomNeighborMask s' = randomNeighborMask s /\
  youngBanquetMode s' = youngBanquetMode s /\ isPaused s' = isPaused s.

(** From [w] to [w'] the selection mode is the same and each cursor has
    moved only if its own mode is the one selected: the cursor of the
    pre-drawn random ring only in the pre-random mode, that of the fixed ring
    only in the fixed mode. *)
Definition otherCursorKept (w w' : World) : Prop :=
  neighborPickingMode (self w') = neighborPickingMode (self w) /\
  (neighborPickingMode (self w) <> NEIGHBOR_PICKING_MODE_PRE_RANDOM ->
   randomNeighborPicksIndex (self w') = randomNeighborPicksIndex (self w)) /\
  (neighborPickingMode (self w) <> NEIGHBOR_PICKING_MODE_FIXED ->
   fixedNeighborPicksIndex (self w') = fixedNeighborPicksIndex (self w)).

(** Every level is non-negative, and every cell at level 0 is blank. *)
Definition levelZeroIsBlank (c : Canvas) : Prop :=
  Forall (fun l => 0 <= l) (levelByAutomatonIndex c) /\
  forall x y, inGrid c x y -> getLevelAtCoord c x y = Some 0 ->
              isPixelBlank c (context c) x y = Some true.

(** The cells of a canvas, row by row. *)
Definition cells (c : Canvas) : list (Z * Z) :=
  y ← seqZ 0 (height c); (fun x => (x, y)) <$> seqZ 0 (width c).

(** Every cell of the canvas is blank exactly when its level is 0. *)
Definition emptyIffLevelZero (c : Canvas) : bool :=
  forallb
    (fun xy =>
       match isPixelBlank c (context c) xy.1 xy.2,
             getLevelAtCoord c xy.1 xy.2 with
       | Some blank, Some level => Bool.eqb blank (level =? 0)
       | _, _ => false
       end)
    (cells c).

(** ** The selector on its own *)

(** [n] successive picks: the offsets in the order they come, and the world
    after the last one; [None] if a pick does not yield an offset. *)
Fixpoint picks (random : nat -> draw3) (n : nat) (w : World)
  : option (list (Z * Z) * World) :=
  match n with
  | O => Some ([], w)
  | S n =>
      match pickNeighbor random w with
      | Pick dx dy w' =>
          match picks random n w' with
          | Some (offsets, w'') => Some ((dx, dy) :: offsets, w'')
          | None => None
          end
      | PickThrow _ => None
      | PickOutOfBounds => None
      end
  end.

(** The entry of the fixed ring that the cursor [i] points at. *)
Definition ringAt (i : Z) : Z * Z := default (0, 0) (nth_cell fixedRing i).

(** ** The pass as the specification words it

    "A cell's update must never observe another cell's update from the same
    pass": every rule call of [snapshotWork] is made on the canvas as it was
    before the pass, levels included, and the levels that the call wrote are
    then carried over to the live canvas. *)

(** The levels of [live], with those that differ between [before] and
    [after] taken from [after]. *)
Definition mergeLevels (before after live : Canvas) : Canvas :=
  mkCanvas (width live) (height live)
    (zip_with (fun ba l => if ba.1 =? ba.2 then l else ba.2)
       (zip (levelByAutomatonIndex before) (levelByAutomatonIndex after))
       (levelByAutomatonIndex live))
    (context live).

Definition snapshotCellStep (random : nat -> draw3)
    (thisArg : option RockPaperAutomata) (algorithm : rule)
    (snapshot : Canvas) (originalBuffer : list Z) (y x : Z)
    (st : World * list Z) : completion (World * list Z) :=
  let '(w, workingBuffer) := st in
  match pickNeighbor random w with
  | PickOutOfBounds => OutOfBounds
  | PickThrow e => Throw e (w, workingBuffer)
  | Pick dx dy w =>
      let put canvas :=
        mkWorld
          (set_uiCanvas (mergeLevels snapshot canvas (uiCanvas (self w)))
             (self w))
          (drawn w) in
      match algorithm thisArg x y (x + dx) (y + dy) snapshot
              originalBuffer workingBuffer with
      | Normal (canvas, workingBuffer) => Normal (put canvas, workingBuffer)
      | Throw e (canvas, workingBuffer) => Throw e (put canvas, workingBuffer)
      | OutOfBounds => OutOfBounds
      end
  end.

Definition snapshotWork (random : nat -> draw3)
    (thisArg : option RockPaperAutomata)
    (originalBuffer workingBuffer : list Z) (w : World)
  : completion (World * list Z) :=
  let algorithm := selectAlgorithm (self w) in
  let this := uiCanvas (self w) in
  forOf (range 1 (height this - 1)) (fun y =>
    forOf (range 1 (width this - 1)) (fun x =>
      snapshotCellStep random thisArg algorithm this originalBuffer y x))
    (w, workingBuffer).

Definition snapshotUpdate (random : nat -> draw3) (w : World)
  : completion World :=
  if isPaused (self w) then Normal w
  else doWork (snapshotWork random None) w.

(** ** Completions and effects, for the proofs *)

(** The state a completion ends in satisfies [I], and the execution stayed
    inside the arrays. *)
Definition holds {S : Type} (I : S -> Prop) (c : completion S) : Prop :=
  match c with
  | Normal s => I s
  | Throw _ s => I s
  | OutOfBounds => False
  end.

(** The same, without the bounds. *)
Definition reaches {S : Type} (I : S -> Prop) (c : completion S) : Prop :=
  match c with
  | Normal s => I s
  | Throw _ s => I s
  | OutOfBounds => True
  end.

(** Two completions of the same kind whose states are related by [R]. *)
Definition alike {S : Type} (R : S -> S -> Prop) (c1 c2 : completion S)
  : Prop :=
  match c1, c2 with
  | Normal s1, Normal s2 => R s1 s2
  | Throw e1 s1, Throw e2 s2 => e1 = e2 /\ R s1 s2
  | OutOfBounds, OutOfBounds => True
  | _, _ => False
  end.

(** A rule paints at most the pixel of the self cell. *)
Definition paintWith (canvas : Canvas) (x y : Z) (paint : option (Z * Z * Z))
    (workingBuffer : list Z) : list Z :=
  match paint with
  | None => workingBuffer
  | Some (r, g, b) => setRGB canvas workingBuffer x y r g b
  end.

Definition painted (canvas : Canvas) (x y : Z)
    (res : completion (Canvas * option (Z * Z * Z))) (workingBuffer : list Z)
  : completion (Canvas * list Z) :=
  match res with
  | Normal (canvas', paint) =>
      Normal (canvas', paintWith canvas x y paint workingBuffer)
  | Throw e (canvas', paint) =>
      Throw e (canvas', paintWith canvas x y paint workingBuffer)
  | OutOfBounds => OutOfBounds
  end.

(** What a rule call on the self cell [(x, y)] with the neighbour [(nx, ny)]
    may do to the canvas: the level of the self cell may change, and that of
    the neighbour when it was not 0; nothing else does. *)
Definition levelsFrame (c : Canvas) (x y nx ny : Z) (c' : Canvas) : Prop :=
  width c' = width c /\ height c' = height c /\ context c' = context c /\
  length (levelByAutomatonIndex c') = length (levelByAutomatonIndex c) /\
  forall j,
    nth_cell (levelByAutomatonIndex c') j = nth_cell (levelByAutomatonIndex c) j
    \/ j = canvasCoordToLevelIndex c x y
    \/ (j = canvasCoordToLevelIndex c nx ny /\
        getLevelAtCoord c nx ny <> Some 0).

(** The shape of a rule call: its effect on the levels and the colour it
    paints are fixed before the working buffer is looked at. *)
Definition ruleShape (algorithm : rule) : Prop :=
  forall this x y nx ny c originalBuffer,
  exists res,
    (forall workingBuffer,
        algorithm this x y nx ny c originalBuffer workingBuffer =
        painted c x y res workingBuffer) /\
    reaches (fun r => levelsFrame c x y nx ny r.1) res /\
    (is_Some (getLevelAtCoord c x y) ->
     is_Some (getLevelAtCoord c nx ny) ->
     is_Some (getRGB c originalBuffer x y) ->
     is_Some (getRGB c originalBuffer nx ny) ->
     res <> OutOfBounds).

(** The state of a pass over the canvas [c0] with the original buffer
    [originalBuffer]: the simulation stays well formed, the canvas keeps its
    size and pixel data, the working buffer keeps its length, and [Q] holds
    of the canvas and the working buffer. *)
Definition passInv (Q : Canvas -> list Z -> Prop) (s0 : RockPaperAutomata)
    (originalBuffer : list Z) (st : World * list Z) : Prop :=
  wfSim (self st.1) /\ sameConfig s0 (self st.1) /\
  width (uiCanvas (self st.1)) = width (uiCanvas s0) /\
  height (uiCanvas (self st.1)) = height (uiCanvas s0) /\
  context (uiCanvas (self st.1)) = context (uiCanvas s0) /\
  length st.2 = length originalBuffer /\
  Q (uiCanvas (self st.1)) st.2.

(** Two runs that start from the working buffers [b1] and [b2] have painted
    alike when, at every position, their buffers [b1'] and [b2'] now agree
    or are both as they were. *)
Definition paintedAlike (b1 b2 b1' b2' : list Z) : Prop :=
  length b1' = length b2' /\
  forall k,
    nth_cell b1' k = nth_cell b2' k \/
    (nth_cell b1' k = nth_cell b1 k /\ nth_cell b2' k = nth_cell b2 k).

(** The same world, and working buffers painted alike from [b1] and [b2]. *)
Definition sameButBuffer (b1 b2 : list Z) (st1 st2 : World * list Z) : Prop :=
  st1.1 = st2.1 /\ paintedAlike b1 b2 st1.2 st2.2.

(** What a call of the Classic rule keeps, for the proof that cells at
    level 0 stay blank: levels stay non-negative, no level becomes 0, and a
    painted self cell is not at level 0. *)
Definition classicKeeps (c : Canvas) (x y : Z) (workingBuffer : list Z)
    (r : Canvas * list Z) : Prop :=
  Forall (fun l => 0 <= l) (levelByAutomatonIndex r.1) /\
  (forall j, nth_cell (levelByAutomatonIndex r.1) j = Some 0 ->
             nth_cell (levelByAutomatonIndex c) j = Some 0) /\
  (r.2 = workingBuffer \/
   (getLevelAtCoord r.1 x y <> Some 0 /\
    exists paint, r.2 = paintWith c x y paint workingBuffer)).

(** ** Concrete scenarios *)

Definition alwaysDraw (d : draw3) : nat -> draw3 := fun _ => d.

(** Draws that make every randomly picked neighbour the cell to the right:
    [dx = 2 - 1], [dy = 1 - 1]. *)
Definition drawRight (n : nat) : draw3 :=
  if Nat.even n then Draw2 else Draw1.

(** The simulation that the constructor builds around a canvas. *)
Definition defaultSim (canvas : Canvas) : RockPaperAutomata :=
  self (construct (alwaysDraw Draw0) 0 canvas).

(** A 3x3 canvas with two painted cells: the centre [(1, 1)] and the cell
    [(2, 1)] to its right. *)
Definition pairCanvas (channel level nchannel nlevel : Z) : Canvas :=
  paintPoint 2 1 nchannel nlevel (paintPoint 1 1 channel level (newCanvas 3 3)).

(** A 5x4 canvas with one red cell, [(2, 2)], at level 30; the Classic rule
    and the fixed selection, the cursor at its start.  The interior cells
    [(1,1)], [(2,1)], [(3,1)], [(1,2)], [(2,2)], [(3,2)] get the offsets
    (1,1), (1,0), (1,-1), (0,-1), (-1,-1), (-1,0): the cell [(1,1)] looks at
    [(2,2)] and is colonised, and later the cell [(1,2)] looks at [(1,1)]. *)
Definition chainWorld : World :=
  let w := constructWith "fixed" (alwaysDraw Draw0) 0
             (paintPoint 2 2 0 30 (newCanvas 5 4)) in
  mkWorld (algorithmRandomClick (self w)) (drawn w).

(** A 4x4 canvas with two red cells at level 30, [(1, 1)] and [(2, 2)], in
    the simulation as constructed (Waves, random selection); every draw is
    2, so every cell looks at its neighbour [(x + 1, y + 1)]. *)
Definition agingWorld : World :=
  construct (alwaysDraw Draw2) 0
    (paintPoint 2 2 0 30 (paintPoint 1 1 0 30 (newCanvas 4 4))).

(** A 4x3 canvas, whose interior cells are [(1, 1)] and [(2, 1)]: a blue cell
    at level 30 with a red cell at [level] to its right. *)
Definition preyCanvas (level : Z) : Canvas :=
  paintPoint 2 1 0 level (paintPoint 1 1 2 30 (newCanvas 4 3)).

(** The Classic rule chosen and [initialLevel] set to 40, on the blue cell
    beside a red cell at level 30. *)
Definition classicPreyWorld : World :=
  let w := construct drawRight 0 (preyCanvas 30) in
  mkWorld (initialLevelChange 40 (algorithmRandomClick (self w))) (drawn w).

(** The Waves rule (as constructed, [youngBanquetMode] on), [edibleLevel] set
    to 30 and [initialLevel] to 40, on the blue cell at level 30 beside a red
    cell at level 40. *)
Definition wavesPreyWorld : World :=
  let w := construct drawRight 0 (preyCanvas 40) in
  mkWorld (initialLevelChange 40 (edibleLevelChange 30 (self w))) (drawn w).


(** ** class Canvas: seeding and free-hand drawing

    The methods of [Canvas] that paint the first generation and transpose
    what the user draws.  They read [this.simulation.initialLevel]; it is
    the argument [initialLevel] here.  What the 2D context itself draws (the
    three arcs of [paintSectors], the stroke of [onMouseMove]) is an
    argument: the pixel data as the context holds it after drawing. *)

(** [buffer.fill(0)], then every fourth byte from index 3 set to 255. *)
Definition resetBuffer (buffer : list Z) : list Z :=
  imap (fun i _ => if (i mod 4 =? 3)%nat then 255 else 0) buffer.

Definition reset (this : Canvas) : Canvas :=
  putImageData this (resetBuffer (getUnderlyingBufferCopy this)).

Definition clearMargins (this : Canvas) : Canvas :=
  let buffer := getUnderlyingBufferCopy this in
  let buffer :=
    foldl (fun buffer x =>
             let buffer := setRGB this buffer x 0 0 0 0 in
             setRGB this buffer x (height this - 1) 0 0 0)
      buffer (seqZ 0 (width this)) in
  let buffer :=
    foldl (fun buffer y =>
             let buffer := setRGB this buffer 0 y 0 0 0 in
             setRGB this buffer (width this - 1) y 0 0 0)
      buffer (seqZ 0 (height this)) in
  putImageData this buffer.

(** The three tests that [resetLevelsAndSaturateChannels] and
    [transposeDrawingAndReset] share: the pure colour of the predominant
    channel, if one channel is greater than both others. *)
Definition predominant (r g b : Z) : option (Z * Z * Z) :=
  if (0 <? r) && (g <? r) && (b <? r) then Some (255, 0, 0)
  else if (0 <? g) && (r <? g) && (b <? g) then Some (0, 255, 0)
  else if (0 <? b) && (r <? b) && (g <? b) then Some (0, 0, 255)
  else None.

(** The body of the two loops of [resetLevelsAndSaturateChannels]. *)
Definition saturateCell (initialLevel : Z) (y x : Z) (st : Canvas * list Z)
  : completion (Canvas * list Z) :=
  let '(this, buffer) := st in
  match getRGB this buffer x y with
  | None => OutOfBounds
  | Some (r, g, b) =>
    if r + g + b =? 0 then Normal (this, buffer)
    else
      let buffer :=
        match predominant r g b with
        | Some (pr, pg, pb) => setRGB this buffer x y pr pg pb
        | None => buffer
        end in
      setLevelThen this x y initialLevel (fun this => Normal (this, buffer))
  end.

Definition resetLevelsAndSaturateChannels (initialLevel x0 y0 x1 y1 : Z)
    (this : Canvas) : completion Canvas :=
  let buffer := getUnderlyingBufferCopy this in
  match forOf (seqZ y0 (y1 - y0)) (fun y =>
          forOf (seqZ x0 (x1 - x0)) (fun x => saturateCell initialLevel y x))
          (this, buffer) with
  | Normal (this, buffer) => Normal (putImageData this buffer)
  | Throw e (this, _) => Throw e this
  | OutOfBounds => OutOfBounds
  end.

(** [paintSectors]; [sectors] is the pixel data after the three arcs were
    filled.  [resetLevelsAndSaturateChannels] is called with its default
    arguments. *)
Definition paintSectors (sectors : list Z) (initialLevel : Z) (this : Canvas)
  : completion Canvas :=
  let this := putImageData this sectors in
  let this := clearMargins this in
  resetLevelsAndSaturateChannels initialLevel 0 0 (width this) (height this)
    this.

(** The body of the two loops of [transposeDrawingAndReset]. *)
Definition transposeCell (initialLevel : Z) (inputBuffer : list Z) (y x : Z)
    (st : Canvas * list Z) : completion (Canvas * list Z) :=
  let '(this, outputBuffer) := st in
  match getRGB this inputBuffer x y with
  | None => OutOfBounds
  | Some (r, g, b) =>
    if r + g + b =? 0 then Normal (this, outputBuffer)
    else
      let outputBuffer :=
        if (200 <? r) && (200 <? g) && (200 <? b) then
          setRGB this outputBuffer x y 0 0 0
        else
          match predominant r g b with
          | Some (pr, pg, pb) => setRGB this outputBuffer x y pr pg pb
          | None => outputBuffer
          end in
      setLevelThen this x y initialLevel (fun this =>
      Normal (this, outputBuffer))
  end.

(** [transposeDrawingAndReset]; [drawing] is the pixel data of the drawing
    context, and the second component of the result is that data after the
    call. *)
Definition transposeDrawingAndReset (initialLevel x0 y0 x1 y1 : Z)
    (this : Canvas) (drawing : list Z) : completion (Canvas * list Z) :=
  let inputBuffer := drawing in
  let outputBuffer := getUnderlyingBufferCopy this in
  match forOf (range y0 y1) (fun y =>
          forOf (range x0 x1) (fun x =>
            transposeCell initialLevel inputBuffer y x))
          (this, outputBuffer) with
  | Normal (this, outputBuffer) =>
      Normal (putImageData this outputBuffer, replicate (length inputBuffer) 0)
  | Throw e (this, _) => Throw e (this, drawing)
  | OutOfBounds => OutOfBounds
  end.

(** The mouse state of a [Canvas]. *)
Record Mouse := mkMouse {
  lastMouseX : Z;
  lastMouseY : Z;
  isMouseDown : bool
}.

Definition onMouseDown (curX curY : Z) (m : Mouse) : Mouse :=
  mkMouse curX curY true.

Definition onMouseUp (m : Mouse) : Mouse :=
  mkMouse (lastMouseX m) (lastMouseY m) false.

Definition lineWidth : Z := 20.

(** [onMouseMove] at the canvas coordinates [(curX, curY)]; [stroked] is the
    pixel data of the drawing context after the stroke from the last mouse
    position was drawn on it. *)
Definition onMouseMove (initialLevel curX curY : Z) (stroked : list Z)
    (st : Canvas * list Z * Mouse) : completion (Canvas * list Z * Mouse) :=
  let '(this, drawing, m) := st in
  if isMouseDown m then
    let x0 := Z.max 1 (Z.min (lastMouseX m) curX - lineWidth) in
    let y0 := Z.max 1 (Z.min (lastMouseY m) curY - lineWidth) in
    let x1 := Z.min (width this - 1) (Z.max (lastMouseX m) curX + lineWidth) in
    let y1 := Z.min (height this - 1) (Z.max (lastMouseY m) curY + lineWidth) in
    match transposeDrawingAndReset initialLevel x0 y0 x1 y1 this stroked with
    | Normal (this, drawing) =>
        Normal (this, drawing, mkMouse curX curY (isMouseDown m))
    | Throw e (this, drawing) => Throw e (this, drawing, m)
    | OutOfBounds => OutOfBounds
    end
  else Normal (this, drawing, m).

(** [setPaintColor]: the colour that [paintColor] is set to. *)
Definition setPaintColor (color : string) : string :=
  if String.eqb color "black" then "white" else color.

(** One iteration of [paintRandomPoints].  [point] holds the values of
    [Math.trunc(Math.random() * (width - 2))],
    [Math.trunc(Math.random() * (height - 2))] and
    [Math.trunc(Math.random() * 3)] in this iteration; the third draw is made
    only for a blank pixel.  A pixel outside the buffer reads as [undefined],
    and [undefined + undefined + undefined === 0] is false: the iteration is
    skipped. *)
Definition paintRandomPoint (initialLevel : Z) (point : Z * Z * draw3)
    (st : Canvas * list Z) : completion (Canvas * list Z) :=
  let '(this, buffer) := st in
  let '(rx, ry, rgOrB) := point in
  let x := 1 + rx in
  let y := 1 + ry in
  match isPixelBlank this buffer x y with
  | Some true =>
      let buffer :=
        storeByte buffer (canvasCoordToDataIndex this x y + draw3_Z rgOrB)
          255 in
      setLevelThen this x y initialLevel (fun this => Normal (this, buffer))
  | _ => Normal (this, buffer)
  end.

Definition paintRandomPoints (initialLevel : Z) (points : nat -> Z * Z * draw3)
    (howMany : nat) (this : Canvas) : completion Canvas :=
  let buffer := getUnderlyingBufferCopy this in
  match forOf (seq 0 howMany) (fun i =>
          paintRandomPoint initialLevel (points i)) (this, buffer) with
  | Normal (this, buffer) => Normal (putImageData this buffer)
  | Throw e (this, _) => Throw e this
  | OutOfBounds => OutOfBounds
  end.

(** [RockPaperAutomata.loadInitialCanvas]: a new canvas of the size read
    from the style sheet, painted as [setup] says. *)
Definition loadInitialCanvas (setup : string) (canvasWidth canvasHeight : Z)
    (sectors : list Z) (points : nat -> Z * Z * draw3)
    (this : RockPaperAutomata) : completion RockPaperAutomata :=
  let canvas := newCanvas canvasWidth canvasHeight in
  let put canvas := set_uiCanvas canvas this in
  if String.eqb setup "clear" then Normal (put (reset canvas))
  else if String.eqb setup "sectors" then
    match paintSectors sectors (initialLevel this) canvas with
    | Normal canvas' => Normal (put canvas')
    | Throw e canvas' => Throw e (put canvas')
    | OutOfBounds => OutOfBounds
    end
  else if String.eqb setup "points" then
    match paintRandomPoints (initialLevel this) points 100 canvas with
    | Normal canvas' => Normal (put canvas')
    | Throw e canvas' => Throw e (put canvas')
    | OutOfBounds => OutOfBounds
    end
  else Normal (put canvas).

(** The cell [(x, y)] of [c'] has the pixel and the level it has in [c]. *)
Definition sameCell (c c' : Canvas) (x y : Z) : Prop :=
  getRGB c' (context c') x y = getRGB c (context c) x y /\
  getLevelAtCoord c' x y = getLevelAtCoord c x y.

(** A blank cell at level 0. *)
Definition emptyCell (c : Canvas) (x y : Z) : Prop :=
  getRGB c (context c) x y = Some (0, 0, 0) /\ getLevelAtCoord c x y = Some 0.

(** *** Loops over cells, for the proofs *)

(** The pixel and the level of the cell [(x, y)]. *)
Definition cellState (c : Canvas) (buffer : list Z) (x y : Z)
  : option (Z * Z * Z * Z) :=
  rgb ← getRGB c buffer x y; l ← getLevelAtCoord c x y; Some (rgb, l).

(** The state of a loop over the cells of the canvas [c0]: the canvas and
    the buffer it paints have the size of [c0]. *)
Definition sizedLike (c0 : Canvas) (st : Canvas * list Z) : Prop :=
  width st.1 = width c0 /\ height st.1 = height c0 /\
  Z.of_nat (length (levelByAutomatonIndex st.1)) = width c0 * height c0 /\
  Z.of_nat (length st.2) = 4 * (width c0 * height c0).

(** From [st] to [st'], the cells [(y, x)] of [L] went through [F x y] and
    nothing else changed. *)
Definition cellsMapped (c0 : Canvas) (L : list (Z * Z))
    (F : Z -> Z -> Z * Z * Z * Z -> Z * Z * Z * Z)
    (st st' : Canvas * list Z) : Prop :=
  sizedLike c0 st' /\ context st'.1 = context st.1 /\
  (forall x y, inGrid c0 x y ->
     ((y, x) ∈ L ->
      cellState st'.1 st'.2 x y = F x y <$> cellState st.1 st.2 x y) /\
     ((y, x) ∉ L -> cellState st'.1 st'.2 x y = cellState st.1 st.2 x y)) /\
  (forall j, nth_cell st'.2 (4 * j + 3) = nth_cell st.2 (4 * j + 3)).

(** A loop body that works on its own cell only. *)
Definition cellwise (c0 : Canvas)
    (F : Z -> Z -> Z * Z * Z * Z -> Z * Z * Z * Z)
    (step : Z -> Z -> Canvas * list Z -> completion (Canvas * list Z))
  : Prop :=
  forall st x y, sizedLike c0 st -> inGrid c0 x y ->
    exists st', step y x st = Normal st' /\ cellsMapped c0 [(y, x)] F st st'.

(** The cells that two nested loops visit, in the order they come. *)
Definition cellsOf (ys xs : list Z) : list (Z * Z) :=
  y ← ys; (fun x => (y, x)) <$> xs.

(** What [saturateCell] does to a cell. *)
Definition saturated (initialLevel : Z) (cell : Z * Z * Z * Z)
  : Z * Z * Z * Z :=
  let '(r, g, b, l) := cell in
  if r + g + b =? 0 then cell
  else (default (r, g, b) (predominant r g b), initialLevel).

(** What [transposeCell] does to a cell whose pixel in the drawing is
    [drawn]. *)
Definition transposed (initialLevel : Z) (drawn : option (Z * Z * Z))
    (cell : Z * Z * Z * Z) : Z * Z * Z * Z :=
  match drawn with
  | Some (r, g, b) =>
      if r + g + b =? 0 then cell
      else if (200 <? r) && (200 <? g) && (200 <? b) then
        (0, 0, 0, initialLevel)
      else (default cell.1 (predominant r g b), initialLevel)
  | None => cell
  end.

(** The colour of a blank pixel whose channel [rgOrB] was raised to 255. *)
Definition pureColour (rgOrB : draw3) : Z * Z * Z :=
  match rgOrB with
  | Draw0 => (255, 0, 0)
  | Draw1 => (0, 255, 0)
  | Draw2 => (0, 0, 255)
  end.

(** Pixel data as a [Uint8ClampedArray] holds it. *)
Definition bytes (buffer : list Z) : Prop :=
  Forall (fun v => 0 <= v <= 255) buffer.

(** The state of the loop of [paintRandomPoints] over the canvas [c]: each
    cell of the grid is as it was, or it was black, lies in the interior,
    and now has the pure colour drawn for it in some iteration and the level
    [initialLevel]. *)
Definition pointsInv (initialLevel : Z) (points : nat -> Z * Z * draw3)
    (howMany : nat) (c : Canvas) (st : Canvas * list Z) : Prop :=
  sizedLike c st /\ context st.1 = context c /\
  (forall j, nth_cell st.2 (4 * j + 3) = nth_cell (context c) (4 * j + 3)) /\
  forall x y, inGrid c x y ->
    cellState st.1 st.2 x y = cellState c (context c) x y \/
    (interior c x y /\
     getRGB c (context c) x y = Some (0, 0, 0) /\
     (exists i, (i < howMany)%nat /\
        x = 1 + (points i).1.1 /\ y = 1 + (points i).1.2 /\
        getRGB st.1 st.2 x y = Some (pureColour (points i).2)) /\
     getLevelAtCoord st.1 x y = Some initialLevel).

(** ** class Timing

    The durations that [performance.now()] yields are JS numbers that are
    not integers: their type [Num] and its arithmetic ([0], [+] and the
    division by a length) stay abstract.  A callback is a value of the type
    [Callback]; calling it is recorded, with its argument, at the end of a
    list of calls.  The function that [measure] times works on a state of
    type [S]. *)
Section Timing.
Context {Num Callback : Type}.
Variable zero : Num.
Variable add : Num -> Num -> Num.
Variable divide : Num -> nat -> Num.

Record Timing := mkTiming {
  callbackByLabel : gmap string Callback;
  measurementsByLabel : gmap string (list Num);
  samplesPerAverage : nat
}.

(** [new Timing()] *)
Definition newTiming : Timing := mkTiming ∅ ∅ 30.

Definition on (label : string) (callback : Callback) (this : Timing)
  : Timing :=
  mkTiming (<[label := callback]> (callbackByLabel this))
    (<[label := []]> (measurementsByLabel this))
    (samplesPerAverage this).

(** [measurements.reduce((acc, val) => acc + val, 0) / measurements.length] *)
Definition average (measurements : list Num) : Num :=
  divide (foldl add zero measurements) (length measurements).

(** [measure(label, fn)]; [elapsed] is the duration that the two calls of
    [performance.now()] give.  [push] on [undefined] and a call of
    [undefined] throw a [TypeError]. *)
Definition measure {S : Type} (elapsed : Num) (label : string)
    (fn : S -> completion S) (st : S * Timing * list (Callback * Num))
  : completion (S * Timing * list (Callback * Num)) :=
  let '(s, this, calls) := st in
  match fn s with
  | Normal s =>
      match measurementsByLabel this !! label with
      | None => Throw TypeError (s, this, calls)
      | Some measurements =>
          let measurements := measurements ++ [elapsed] in
          let this :=
            mkTiming (callbackByLabel this)
              (<[label := measurements]> (measurementsByLabel this))
              (samplesPerAverage this) in
          if (samplesPerAverage this <=? length measurements)%nat then
            let avg := average measurements in
            let this :=
              mkTiming (callbackByLabel this)
                (<[label := []]> (measurementsByLabel this))
                (samplesPerAverage this) in
            match callbackByLabel this !! label with
            | None => Throw TypeError (s, this, calls)
            | Some callback => Normal (s, this, calls ++ [(callback, avg)])
            end
          else Normal (s, this, calls)
      end
  | Throw e s => Throw e (s, this, calls)
  | OutOfBounds => OutOfBounds
  end.

End Timing.

(** *** What a pass paints, for the proofs *)

(** The colour bytes of the interior cells of [c]. *)
Definition interiorByte (c : Canvas) (k : Z) : Prop :=
  exists x y d, interior c x y /\ 0 <= d <= 2 /\
                k = canvasCoordToDataIndex c x y + d.

(** Outside the colour bytes of the interior cells of [c0], [buffer] is the
    pixel data of [c0]. *)
Definition paintedInside (c0 : Canvas) (buffer : list Z) : Prop :=
  forall k, ~ interiorByte c0 k -> nth_cell buffer k = nth_cell (context c0) k.
(** ** Numbers *)

Lemma roundDouble_exact z : Z.abs z <= 2 ^ 53 -> roundDouble z = z.
Proof.
  intros Hz. unfold roundDouble.
  destruct (Z.ltb_spec (Z.abs z) (2 ^ 53)); [done|].
  assert (Z.abs z = 2 ^ 53) as Ha by lia. rewrite Ha.
  destruct (Z.abs_eq_or_opp z) as [Hz'|Hz']; rewrite Hz' in Ha.
  - rewrite Ha. reflexivity.
  - assert (z = - 2 ^ 53) as -> by lia. reflexivity.
Qed.

Lemma roundDouble_pos z : 0 < z -> 0 < roundDouble z.
Proof.
  intros Hz. unfold roundDouble. rewrite (Z.abs_eq z) by lia.
  destruct (Z.ltb_spec z (2 ^ 53)); [done|].
  rewrite Z.sgn_pos by done.
  assert (53 <= Z.log2 z) as Hlog by (apply Z.log2_le_pow2; lia).
  set (e := Z.log2 z - 52).
  assert (0 < 2 ^ e) as Hpow by (apply Z.pow_pos_nonneg; lia).
  assert (0 < z / 2 ^ e) as Hq.
  { apply Z.div_str_pos. split; [done|].
    apply (Z.le_trans _ (2 ^ Z.log2 z)).
    - apply Z.pow_le_mono_r; lia.
    - apply Z.log2_spec. lia. }
  destruct (z mod 2 ^ e <? 2 ^ (e - 1)); [nia|].
  destruct (2 ^ (e - 1) <? z mod 2 ^ e); [nia|].
  destruct (Z.even (z / 2 ^ e)); nia.
Qed.

(** Beyond 2^53 the doubles are 2 apart, then 4 apart: 2^53 + 1 is a tie
    and goes to the even factor, 2^53; 2^53 + 3 goes to 2^53 + 4; adding 1
    to the largest double gives it back. *)
Example roundDouble_ties :
  roundDouble (2 ^ 53 + 1) = 2 ^ 53 /\
  roundDouble (2 ^ 53 + 2) = 2 ^ 53 + 2 /\
  roundDouble (2 ^ 53 + 3) = 2 ^ 53 + 4 /\
  roundDouble (- 2 ^ 53 - 1) = - 2 ^ 53 /\
  roundDouble (2 ^ 54 + 2) = 2 ^ 54 /\
  roundDouble (2 ^ 1024 - 2 ^ 971 + 1) = 2 ^ 1024 - 2 ^ 971.
Proof. repeat split; vm_compute; reflexivity. Qed.

Lemma jsAdd_exact a b : Z.abs (a + b) <= 2 ^ 53 -> jsAdd a b = a + b.
Proof. apply roundDouble_exact. Qed.

Lemma jsAdd_succ_pos n : 0 <= n -> 0 < jsAdd n 1.
Proof. intros Hn. apply roundDouble_pos. lia. Qed.

(** ** Arrays: lookups after stores *)

Lemma nth_cell_Some_range {T} (l : list T) i v :
  nth_cell l i = Some v -> 0 <= i < Z.of_nat (length l).
Proof.
  unfold nth_cell. destruct (Z.ltb_spec i 0); [done|].
  intros H1%lookup_lt_Some. lia.
Qed.

Lemma nth_cell_is_Some {T} (l : list T) i :
  0 <= i < Z.of_nat (length l) -> is_Some (nth_cell l i).
Proof.
  intros Hi. unfold nth_cell. destruct (Z.ltb_spec i 0); [lia|].
  apply lookup_lt_is_Some. lia.
Qed.

Lemma length_storeByte buffer i v :
  length (storeByte buffer i v) = length buffer.
Proof. unfold storeByte. destruct (i <? 0); [done|]. apply length_insert. Qed.

Lemma nth_cell_storeByte_eq buffer i v :
  0 <= i < Z.of_nat (length buffer) ->
  nth_cell (storeByte buffer i v) i = Some (clampByte v).
Proof.
  intros Hi. unfold nth_cell, storeByte.
  destruct (Z.ltb_spec i 0); [lia|].
  apply list_lookup_insert_eq. lia.
Qed.

Lemma nth_cell_storeByte_ne buffer i j v :
  i <> j -> nth_cell (storeByte buffer i v) j = nth_cell buffer j.
Proof.
  intros Hij. unfold nth_cell, storeByte.
  destruct (Z.ltb_spec j 0); [done|].
  destruct (Z.ltb_spec i 0); [done|].
  apply list_lookup_insert_ne. lia.
Qed.

Lemma length_setRGB c buffer x y r g b :
  length (setRGB c buffer x y r g b) = length buffer.
Proof. unfold setRGB. by rewrite !length_storeByte. Qed.

Lemma nth_cell_setRGB_ne c buffer x y r g b k :
  k <> canvasCoordToDataIndex c x y + 0 ->
  k <> canvasCoordToDataIndex c x y + 1 ->
  k <> canvasCoordToDataIndex c x y + 2 ->
  nth_cell (setRGB c buffer x y r g b) k = nth_cell buffer k.
Proof.
  intros H0 H1 H2. unfold setRGB.
  rewrite !nth_cell_storeByte_ne; auto.
Qed.

Lemma getRGB_in_range c buffer x y rgb :
  getRGB c buffer x y = Some rgb ->
  0 <= canvasCoordToDataIndex c x y /\
  canvasCoordToDataIndex c x y + 2 < Z.of_nat (length buffer).
Proof.
  unfold getRGB. intros H.
  destruct (nth_cell buffer (canvasCoordToDataIndex c x y + 0)) as [r|] eqn:Hr;
    [|done].
  destruct (nth_cell buffer (canvasCoordToDataIndex c x y + 1)) as [g|] eqn:Hg;
    [|done].
  destruct (nth_cell buffer (canvasCoordToDataIndex c x y + 2)) as [b|] eqn:Hb;
    [|done].
  apply nth_cell_Some_range in Hr, Hb. lia.
Qed.

Lemma getRGB_is_Some c buffer x y :
  0 <= canvasCoordToDataIndex c x y ->
  canvasCoordToDataIndex c x y + 2 < Z.of_nat (length buffer) ->
  is_Some (getRGB c buffer x y).
Proof.
  intros H0 H2. unfold getRGB.
  destruct (nth_cell_is_Some buffer (canvasCoordToDataIndex c x y + 0))
    as [r ->]; [lia|].
  destruct (nth_cell_is_Some buffer (canvasCoordToDataIndex c x y + 1))
    as [g ->]; [lia|].
  destruct (nth_cell_is_Some buffer (canvasCoordToDataIndex c x y + 2))
    as [b ->]; [lia|].
  by eexists.
Qed.

Lemma getRGB_setRGB_eq c buffer x y r g b :
  0 <= canvasCoordToDataIndex c x y ->
  canvasCoordToDataIndex c x y + 2 < Z.of_nat (length buffer) ->
  getRGB c (setRGB c buffer x y r g b) x y =
  Some (clampByte r, clampByte g, clampByte b).
Proof.
  intros H0 H2. unfold getRGB, setRGB.
  set (i := canvasCoordToDataIndex c x y) in *.
  assert (nth_cell (storeByte (storeByte (storeByte buffer (i + 0) r)
                      (i + 1) g) (i + 2) b) (i + 0) = Some (clampByte r)) as ->.
  { rewrite !nth_cell_storeByte_ne by lia.
    apply nth_cell_storeByte_eq. lia. }
  assert (nth_cell (storeByte (storeByte (storeByte buffer (i + 0) r)
                      (i + 1) g) (i + 2) b) (i + 1) = Some (clampByte g)) as ->.
  { rewrite nth_cell_storeByte_ne by lia.
    apply nth_cell_storeByte_eq. rewrite length_storeByte. lia. }
  assert (nth_cell (storeByte (storeByte (storeByte buffer (i + 0) r)
                      (i + 1) g) (i + 2) b) (i + 2) = Some (clampByte b)) as ->.
  { apply nth_cell_storeByte_eq. rewrite !length_storeByte. lia. }
  done.
Qed.

Lemma getRGB_setRGB_ne c buffer x y r g b x' y' :
  canvasCoordToLevelIndex c x' y' <> canvasCoordToLevelIndex c x y ->
  getRGB c (setRGB c buffer x y r g b) x' y' = getRGB c buffer x' y'.
Proof.
  unfold canvasCoordToLevelIndex. intros Hne. unfold getRGB.
  rewrite !nth_cell_setRGB_ne; unfold canvasCoordToDataIndex; (done || lia).
Qed.

(** ** The level store *)

Lemma setLevelAtCoord_Some c x y v c' :
  setLevelAtCoord c x y v = Some c' ->
  c' = mkCanvas (width c) (height c)
         (<[Z.to_nat (canvasCoordToLevelIndex c x y) := v]>
            (levelByAutomatonIndex c))
         (context c) /\
  0 <= canvasCoordToLevelIndex c x y < Z.of_nat (length (levelByAutomatonIndex c)).
Proof.
  unfold setLevelAtCoord. intros H.
  destruct (Z.leb_spec 0 (canvasCoordToLevelIndex c x y));
    destruct (Z.ltb_spec (canvasCoordToLevelIndex c x y)
                (Z.of_nat (length (levelByAutomatonIndex c))));
    simpl in H; try done.
  inversion H. split; [done | lia].
Qed.

Lemma setLevelAtCoord_is_Some c x y v :
  is_Some (getLevelAtCoord c x y) -> is_Some (setLevelAtCoord c x y v).
Proof.
  intros [l Hl]. apply nth_cell_Some_range in Hl.
  unfold setLevelAtCoord.
  destruct (Z.leb_spec 0 (canvasCoordToLevelIndex c x y)); [|lia].
  destruct (Z.ltb_spec (canvasCoordToLevelIndex c x y)
              (Z.of_nat (length (levelByAutomatonIndex c)))); [|lia].
  by eexists.
Qed.

Lemma setLevelAtCoord_width c x y v c' :
  setLevelAtCoord c x y v = Some c' -> width c' = width c.
Proof. by intros [-> _]%setLevelAtCoord_Some. Qed.

Lemma setLevelAtCoord_height c x y v c' :
  setLevelAtCoord c x y v = Some c' -> height c' = height c.
Proof. by intros [-> _]%setLevelAtCoord_Some. Qed.

Lemma setLevelAtCoord_context c x y v c' :
  setLevelAtCoord c x y v = Some c' -> context c' = context c.
Proof. by intros [-> _]%setLevelAtCoord_Some. Qed.

Lemma setLevelAtCoord_length c x y v c' :
  setLevelAtCoord c x y v = Some c' ->
  length (levelByAutomatonIndex c') = length (levelByAutomatonIndex c).
Proof. intros [-> _]%setLevelAtCoord_Some. apply length_insert. Qed.

Lemma getLevel_setLevel_eq c x y v c' :
  setLevelAtCoord c x y v = Some c' -> getLevelAtCoord c' x y = Some v.
Proof.
  intros [-> Hi]%setLevelAtCoord_Some.
  unfold getLevelAtCoord, canvasCoordToLevelIndex in *. simpl.
  unfold nth_cell. destruct (Z.ltb_spec (y * width c + x) 0); [lia|].
  apply list_lookup_insert_eq. lia.
Qed.

Lemma getLevel_setLevel_ne c x y v c' x' y' :
  setLevelAtCoord c x y v = Some c' ->
  canvasCoordToLevelIndex c x' y' <> canvasCoordToLevelIndex c x y ->
  getLevelAtCoord c' x' y' = getLevelAtCoord c x' y'.
Proof.
  intros [-> Hi]%setLevelAtCoord_Some Hne.
  unfold getLevelAtCoord, canvasCoordToLevelIndex in *. simpl.
  unfold nth_cell. destruct (Z.ltb_spec (y' * width c + x') 0); [done|].
  apply list_lookup_insert_ne. lia.
Qed.

(** Two views of the cell addressing: pixels and levels share the cell
    index. *)
Lemma getRGB_same_index c buffer x y x' y' :
  canvasCoordToLevelIndex c x' y' = canvasCoordToLevelIndex c x y ->
  getRGB c buffer x' y' = getRGB c buffer x y.
Proof.
  unfold getRGB, canvasCoordToDataIndex, canvasCoordToLevelIndex.
  by intros ->.
Qed.

Lemma getRGB_width c c' buffer x y :
  width c' = width c -> getRGB c' buffer x y = getRGB c buffer x y.
Proof. unfold getRGB, canvasCoordToDataIndex. by intros ->. Qed.

Lemma getLevel_is_Some_setLevel c x y v c' x' y' :
  setLevelAtCoord c x y v = Some c' ->
  is_Some (getLevelAtCoord c x' y') -> is_Some (getLevelAtCoord c' x' y').
Proof.
  intros Hset [l Hl]. apply nth_cell_Some_range in Hl.
  apply nth_cell_is_Some.
  rewrite (setLevelAtCoord_length _ _ _ _ _ Hset).
  unfold canvasCoordToLevelIndex in *.
  by rewrite (setLevelAtCoord_width _ _ _ _ _ Hset).
Qed.

Lemma setLevelThen_Some {S} c x y v (k : Canvas -> completion S) :
  is_Some (getLevelAtCoord c x y) ->
  exists c', setLevelAtCoord c x y v = Some c' /\ setLevelThen c x y v k = k c'.
Proof.
  intros H. destruct (setLevelAtCoord_is_Some c x y v H) as [c' Hc'].
  exists c'. split; [done|]. unfold setLevelThen. by rewrite Hc'.
Qed.

(** ** Species and colours *)

Lemma speciesOf_Some r g b s :
  speciesOf (r, g, b) = Some s ->
  match s with
  | Empty => r = 0 /\ g = 0 /\ b = 0
  | A => 0 < r /\ g = 0 /\ b = 0
  | B => r = 0 /\ 0 < g /\ b = 0
  | C => r = 0 /\ g = 0 /\ 0 < b
  end.
Proof.
  unfold speciesOf.
  destruct (Z.eqb_spec r 0), (Z.eqb_spec g 0), (Z.eqb_spec b 0),
    (Z.ltb_spec 0 r), (Z.ltb_spec 0 g), (Z.ltb_spec 0 b); simpl;
    intros Hsp; inversion Hsp; subst; lia.
Qed.

Lemma speciesOf_clamp_red r : 0 < r -> speciesOf (clampByte r, 0, 0) = Some A.
Proof.
  intros Hr. unfold speciesOf, clampByte. simpl.
  destruct (Z.eqb_spec (Z.max 0 (Z.min 255 r)) 0); [lia|].
  destruct (Z.ltb_spec 0 (Z.max 0 (Z.min 255 r))); [done | lia].
Qed.

Lemma speciesOf_clamp_green g : 0 < g -> speciesOf (0, clampByte g, 0) = Some B.
Proof.
  intros Hg. unfold speciesOf, clampByte. simpl.
  destruct (Z.eqb_spec (Z.max 0 (Z.min 255 g)) 0); [lia|].
  destruct (Z.ltb_spec 0 (Z.max 0 (Z.min 255 g))); [done | lia].
Qed.

Lemma speciesOf_clamp_blue b : 0 < b -> speciesOf (0, 0, clampByte b) = Some C.
Proof.
  intros Hb. unfold speciesOf, clampByte. simpl.
  destruct (Z.eqb_spec (Z.max 0 (Z.min 255 b)) 0); [lia|].
  destruct (Z.ltb_spec 0 (Z.max 0 (Z.min 255 b))); [done | lia].
Qed.

Lemma speciesAt_Some c buffer x y s :
  speciesAt c buffer x y = Some s ->
  exists r g b, getRGB c buffer x y = Some (r, g, b) /\
                speciesOf (r, g, b) = Some s.
Proof.
  unfold speciesAt. destruct (getRGB c buffer x y) as [[[r g] b]|]; [|done].
  simpl. intros H. by exists r, g, b.
Qed.

(** A cell that is eaten and the cell that eats it are different cells. *)
Lemma eatenBy_distinct c buffer x y nx ny s n :
  speciesAt c buffer x y = Some s ->
  speciesAt c buffer nx ny = Some n ->
  eatenBy s n = true ->
  canvasCoordToLevelIndex c nx ny <> canvasCoordToLevelIndex c x y.
Proof.
  unfold speciesAt. intros Hs Hn He Hi.
  rewrite (getRGB_same_index _ _ _ _ _ _ Hi) in Hn.
  rewrite Hs in Hn. inversion Hn; subst. by destruct n.
Qed.

(** ** The rules, branch by branch *)

(** C6. In both rules, when the level of the selected neighbour is 0 the call
    changes nothing: the levels (the self cell's among them) and the whole
    working buffer are returned as they were, so the neighbour has not acted
    as a predator.  This holds for any receiver, any coordinates and any
    buffers. *)
Theorem neighbor_level_zero_changes_nothing
    this x y nx ny canvas originalBuffer workingBuffer :
  getLevelAtCoord canvas nx ny = Some 0 ->
  randomAlgorithm this x y nx ny canvas originalBuffer workingBuffer =
    Normal (canvas, workingBuffer) /\
  wavesAlgorithm this x y nx ny canvas originalBuffer workingBuffer =
    Normal (canvas, workingBuffer).
Proof.
  intros Hn. unfold randomAlgorithm, wavesAlgorithm. by rewrite Hn.
Qed.

Lemma neighbor_level_zero_witness :
  let canvas := pairCanvas 2 30 0 0 in
  randomAlgorithm (Some (defaultSim canvas)) 1 1 2 1 canvas
    (context canvas) (context canvas) = Normal (canvas, context canvas) /\
  wavesAlgorithm (Some (defaultSim canvas)) 1 1 2 1 canvas
    (context canvas) (context canvas) = Normal (canvas, context canvas).
Proof.
  intros canvas.
  apply (neighbor_level_zero_changes_nothing
           (Some (defaultSim canvas)) 1 1 2 1 canvas).
  reflexivity.
Defined.

(** What the three "eats" branches of the Classic rule do, once the levels
    are in range. *)
Lemma randomEats_spec this x y nx ny canvas workingBuffer neighborLevel pr pg pb :
  is_Some (getLevelAtCoord canvas x y) ->
  is_Some (getLevelAtCoord canvas nx ny) ->
  canvasCoordToLevelIndex canvas nx ny <> canvasCoordToLevelIndex canvas x y ->
  exists canvas',
    randomEats (Some this) x y nx ny canvas workingBuffer neighborLevel
      (pr, pg, pb) =
      Normal (canvas', setRGB canvas workingBuffer x y pr pg pb) /\
    width canvas' = width canvas /\
    getLevelAtCoord canvas' x y = Some (initialLevel this) /\
    getLevelAtCoord canvas' nx ny = Some (jsAdd neighborLevel 1).
Proof.
  intros Hme Hnb Hne. unfold randomEats.
  destruct (setLevelThen_Some canvas nx ny (jsAdd neighborLevel 1)
              (fun canvas0 =>
                 setLevelThen canvas0 x y (initialLevel this)
                   (fun canvas1 =>
                      Normal (canvas1, setRGB canvas workingBuffer x y pr pg pb)))
              Hnb) as (c1 & Hc1 & ->).
  pose proof (getLevel_is_Some_setLevel _ _ _ _ _ x y Hc1 Hme) as Hme1.
  destruct (setLevelThen_Some c1 x y (initialLevel this)
              (fun canvas1 =>
                 Normal (canvas1, setRGB canvas workingBuffer x y pr pg pb))
              Hme1) as (c2 & Hc2 & ->).
  pose proof (setLevelAtCoord_width _ _ _ _ _ Hc1) as Hw1.
  pose proof (setLevelAtCoord_width _ _ _ _ _ Hc2) as Hw2.
  exists c2. split; [done|]. split; [congruence|]. split.
  - by apply (getLevel_setLevel_eq c1).
  - rewrite (getLevel_setLevel_ne c1 x y (initialLevel this) c2 nx ny Hc2).
    + by apply (getLevel_setLevel_eq canvas).
    + unfold canvasCoordToLevelIndex in *. rewrite Hw1. done.
Qed.

(** The Classic rule called on a simulation, when the neighbour eats the
    self cell. *)
Lemma classic_predation_spec
    this x y nx ny canvas originalBuffer workingBuffer myLevel neighborLevel s n :
  length workingBuffer = length originalBuffer ->
  getLevelAtCoord canvas x y = Some myLevel ->
  getLevelAtCoord canvas nx ny = Some neighborLevel ->
  neighborLevel <> 0 ->
  speciesAt canvas originalBuffer x y = Some s ->
  speciesAt canvas originalBuffer nx ny = Some n ->
  eatenBy s n = true ->
  exists canvas' workingBuffer',
    randomAlgorithm (Some this) x y nx ny canvas originalBuffer workingBuffer =
      Normal (canvas', workingBuffer') /\
    speciesAt canvas' workingBuffer' x y = Some n /\
    getLevelAtCoord canvas' x y = Some (initialLevel this) /\
    getLevelAtCoord canvas' nx ny = Some (jsAdd neighborLevel 1).
Proof.
  intros Hlen Hme Hnb Hnz Hs Hn Heat.
  pose proof (eatenBy_distinct _ _ _ _ _ _ _ _ Hs Hn Heat) as Hne.
  destruct (speciesAt_Some _ _ _ _ _ Hs) as (r & g & b & Hrgb & Hsp).
  destruct (speciesAt_Some _ _ _ _ _ Hn) as (nr & ng & nb & Hnrgb & Hnsp).
  apply speciesOf_Some in Hsp, Hnsp.
  destruct (getRGB_in_range _ _ _ _ _ Hrgb) as [Hlo Hhi].
  rewrite <- Hlen in Hhi.
  unfold randomAlgorithm. rewrite Hnb, Hrgb, Hnrgb.
  destruct (Z.eqb_spec neighborLevel 0) as [|_]; [done|].
  assert (Hspec : forall pr pg pb,
    speciesOf (clampByte pr, clampByte pg, clampByte pb) = Some n ->
    exists canvas' workingBuffer',
      randomEats (Some this) x y nx ny canvas workingBuffer neighborLevel
        (pr, pg, pb) = Normal (canvas', workingBuffer') /\
      speciesAt canvas' workingBuffer' x y = Some n /\
      getLevelAtCoord canvas' x y = Some (initialLevel this) /\
      getLevelAtCoord canvas' nx ny = Some (jsAdd neighborLevel 1)).
  { intros pr pg pb Hp.
    destruct (randomEats_spec this x y nx ny canvas workingBuffer neighborLevel
                pr pg pb) as (c' & Hrun & Hw & Hl1 & Hl2); [by eexists..|done|].
    exists c', (setRGB canvas workingBuffer x y pr pg pb).
    split; [done|]. split; [|done].
    unfold speciesAt. rewrite (getRGB_width canvas c') by done.
    rewrite getRGB_setRGB_eq by done. done. }
  destruct s, n; try done; simpl in Hsp, Hnsp;
    destruct Hsp as (? & ? & ?), Hnsp as (? & ? & ?); subst.
  - (* green eats red *)
    destruct (Z.eqb_spec (r + 0 + 0) 0); [lia|].
    destruct (Z.ltb_spec 0 r); [|lia]. destruct (Z.ltb_spec 0 ng); [|lia].
    simpl. apply Hspec. by apply speciesOf_clamp_green.
  - (* blue eats green *)
    destruct (Z.eqb_spec (0 + g + 0) 0); [lia|].
    destruct (Z.ltb_spec 0 g); [|lia]. destruct (Z.ltb_spec 0 nb); [|lia].
    simpl. apply Hspec. by apply speciesOf_clamp_blue.
  - (* red eats blue *)
    destruct (Z.eqb_spec (0 + 0 + b) 0); [lia|].
    destruct (Z.ltb_spec 0 b); [|lia]. destruct (Z.ltb_spec 0 nr); [|lia].
    simpl. apply Hspec. by apply speciesOf_clamp_red.
Qed.

(** X3. The Classic rule called on a simulation (the simulation is its
    [this]).
    When the self cell holds a species, the level of the neighbour is not 0
    and the species of the neighbour eats that of the self cell (A is eaten
    by B, B by C, C by A; so the self cell is not Empty): the self cell gets
    the species of the neighbour, its level becomes [initialLevel], and the
    level of the neighbour becomes its old level plus one as JS adds numbers
    ([jsAdd]): exactly one more when the old level is at least -2^53 and
    below 2^53, and 2^53 again, unchanged, when the old level is 2^53.  Both
    cells are on the canvas and the two buffers have one length. *)
Theorem classic_predation
    this x y nx ny canvas originalBuffer workingBuffer myLevel neighborLevel s n :
  length workingBuffer = length originalBuffer ->
  getLevelAtCoord canvas x y = Some myLevel ->
  getLevelAtCoord canvas nx ny = Some neighborLevel ->
  neighborLevel <> 0 ->
  speciesAt canvas originalBuffer x y = Some s ->
  speciesAt canvas originalBuffer nx ny = Some n ->
  eatenBy s n = true ->
  exists canvas' workingBuffer',
    randomAlgorithm (Some this) x y nx ny canvas originalBuffer workingBuffer =
      Normal (canvas', workingBuffer') /\
    speciesAt canvas' workingBuffer' x y = Some n /\
    getLevelAtCoord canvas' x y = Some (initialLevel this) /\
    getLevelAtCoord canvas' nx ny = Some (jsAdd neighborLevel 1) /\
    (- 2 ^ 53 <= neighborLevel < 2 ^ 53 ->
     getLevelAtCoord canvas' nx ny = Some (neighborLevel + 1)) /\
    (neighborLevel = 2 ^ 53 ->
     getLevelAtCoord canvas' nx ny = Some neighborLevel).
Proof.
  intros Hlen Hme Hnb Hnz Hs Hn Heat.
  destruct (classic_predation_spec this x y nx ny canvas originalBuffer
              workingBuffer myLevel neighborLevel s n)
    as (canvas' & workingBuffer' & Hrun & Hsp & Hl & Hnl); try done.
  exists canvas', workingBuffer'.
  split; [done|]. split; [done|]. split; [done|]. split; [done|]. split.
  - intros Hsafe. rewrite Hnl. f_equal. apply jsAdd_exact. lia.
  - intros ->. rewrite Hnl. reflexivity.
Qed.

Lemma classic_predation_witness :
  let canvas := pairCanvas 2 30 0 30 in
  exists canvas' workingBuffer',
    randomAlgorithm (Some (defaultSim canvas)) 1 1 2 1 canvas
      (context canvas) (context canvas) = Normal (canvas', workingBuffer') /\
    speciesAt canvas' workingBuffer' 1 1 = Some A /\
    getLevelAtCoord canvas' 1 1 = Some 30 /\
    getLevelAtCoord canvas' 2 1 = Some (30 + 1).
Proof.
  intros canvas.
  destruct (classic_predation (defaultSim canvas) 1 1 2 1 canvas
              (context canvas) (context canvas) 30 30 C A)
    as (canvas' & workingBuffer' & Hrun & Hsp & Hl & _ & Hnl & _);
    try solve [reflexivity | discriminate].
  exists canvas', workingBuffer'.
  split; [exact Hrun|]. split; [exact Hsp|]. split; [exact Hl|].
  apply Hnl. lia.
Defined.











(** ** The shape of a rule call

    A rule reads colours from the original buffer only: what it does to the
    levels, and the colour it paints on the self cell, do not depend on the
    working buffer. *)

Lemma levelsFrame_refl c x y nx ny : levelsFrame c x y nx ny c.
Proof. repeat split; auto. Qed.

Lemma levelsFrame_self c x y nx ny v c' :
  setLevelAtCoord c x y v = Some c' -> levelsFrame c x y nx ny c'.
Proof.
  intros [-> Hi]%setLevelAtCoord_Some. repeat split; simpl.
  - apply length_insert.
  - intros j. destruct (decide (j = canvasCoordToLevelIndex c x y)) as [|Hne];
      [auto|]. left.
    unfold nth_cell. destruct (Z.ltb_spec j 0); [done|].
    apply list_lookup_insert_ne. lia.
Qed.

Lemma levelsFrame_neighbor_then_self c x y nx ny v c1 v' c2 :
  getLevelAtCoord c nx ny <> Some 0 ->
  setLevelAtCoord c nx ny v = Some c1 ->
  setLevelAtCoord c1 x y v' = Some c2 ->
  levelsFrame c x y nx ny c2.
Proof.
  intros Hnz [-> Hi]%setLevelAtCoord_Some [-> Hi']%setLevelAtCoord_Some.
  unfold canvasCoordToLevelIndex in *. simpl in *.
  repeat split; simpl.
  - by rewrite !length_insert.
  - intros j.
    destruct (decide (j = y * width c + x)) as [|Hne]; [auto|].
    destruct (decide (j = ny * width c + nx)) as [|Hne']; [auto|].
    left. unfold nth_cell. destruct (Z.ltb_spec j 0); [done|].
    rewrite !list_lookup_insert_ne by lia. done.
Qed.

Lemma levelsFrame_neighbor c x y nx ny v c1 :
  getLevelAtCoord c nx ny <> Some 0 ->
  setLevelAtCoord c nx ny v = Some c1 ->
  levelsFrame c x y nx ny c1.
Proof.
  intros Hnz [-> Hi]%setLevelAtCoord_Some.
  unfold canvasCoordToLevelIndex in *. simpl in *.
  repeat split; simpl.
  - by rewrite !length_insert.
  - intros j.
    destruct (decide (j = ny * width c + nx)) as [|Hne']; [auto|].
    left. unfold nth_cell. destruct (Z.ltb_spec j 0); [done|].
    rewrite !list_lookup_insert_ne by lia. done.
Qed.

Lemma setLevelAtCoord_None_out c x y v :
  setLevelAtCoord c x y v = None -> ~ is_Some (getLevelAtCoord c x y).
Proof.
  intros Hnone Hsome.
  destruct (setLevelAtCoord_is_Some c x y v Hsome) as [c' Hc']. congruence.
Qed.

Lemma randomEats_shape this x y nx ny c neighborLevel pr pg pb :
  getLevelAtCoord c nx ny = Some neighborLevel ->
  neighborLevel <> 0 ->
  exists res,
    (forall workingBuffer,
        randomEats this x y nx ny c workingBuffer neighborLevel (pr, pg, pb) =
        painted c x y res workingBuffer) /\
    reaches (fun r => levelsFrame c x y nx ny r.1) res /\
    (is_Some (getLevelAtCoord c x y) -> res <> OutOfBounds).
Proof.
  intros Hnl Hnz.
  assert (Hnz' : getLevelAtCoord c nx ny <> Some 0) by congruence.
  unfold randomEats, setLevelThen.
  destruct (setLevelAtCoord c nx ny (jsAdd neighborLevel 1)) as [c1|] eqn:Hc1.
  2: { apply setLevelAtCoord_None_out in Hc1. destruct Hc1. by eexists. }
  destruct this as [this|].
  2: { exists (Throw TypeError (c1, Some (pr, pg, pb))).
       split; [done|]. split; [|done]. simpl.
       by apply (levelsFrame_neighbor c x y nx ny (jsAdd neighborLevel 1)). }
  destruct (setLevelAtCoord c1 x y (initialLevel this)) as [c2|] eqn:Hc2.
  - exists (Normal (c2, Some (pr, pg, pb))).
    split; [done|]. split; [|done]. simpl.
    by apply (levelsFrame_neighbor_then_self c x y nx ny
                (jsAdd neighborLevel 1) c1 (initialLevel this)).
  - exists OutOfBounds. split; [done|]. split; [done|].
    intros Hme. apply setLevelAtCoord_None_out in Hc2. destruct Hc2.
    by apply (getLevel_is_Some_setLevel c nx ny (jsAdd neighborLevel 1)).
Qed.

Lemma colonize_shape c x y nx ny neighborLevel nr ng nb :
  exists res,
    (forall workingBuffer,
        setLevelThen c x y neighborLevel
          (fun canvas =>
             Normal (canvas, setRGB c workingBuffer x y nr ng nb)) =
        painted c x y res workingBuffer) /\
    reaches (fun r => levelsFrame c x y nx ny r.1) res /\
    (is_Some (getLevelAtCoord c x y) -> res <> OutOfBounds).
Proof.
  unfold setLevelThen.
  destruct (setLevelAtCoord c x y neighborLevel) as [c1|] eqn:Hc1.
  - exists (Normal (c1, Some (nr, ng, nb))). split; [done|]. split; [|done].
    simpl. by apply (levelsFrame_self c x y nx ny neighborLevel).
  - exists OutOfBounds. split; [done|]. split; [done|].
    intros Hme. by apply setLevelAtCoord_None_out in Hc1.
Qed.

Lemma aging_shape c x y nx ny level :
  exists res,
    (forall workingBuffer : list Z,
        setLevelThen c x y level
          (fun canvas => Normal (canvas, workingBuffer)) =
        painted c x y res workingBuffer) /\
    reaches (fun r => levelsFrame c x y nx ny r.1) res /\
    (is_Some (getLevelAtCoord c x y) -> res <> OutOfBounds).
Proof.
  unfold setLevelThen.
  destruct (setLevelAtCoord c x y level) as [c1|] eqn:Hc1.
  - exists (Normal (c1, None)). split; [done|]. split; [|done].
    simpl. by apply (levelsFrame_self c x y nx ny level).
  - exists OutOfBounds. split; [done|]. split; [done|].
    intros Hme. by apply setLevelAtCoord_None_out in Hc1.
Qed.

(** Weakens the bounds premise of a branch to that of the whole rule. *)
Ltac from_branch H :=
  destruct H as (res & Heq & Hframe & Hin);
  exists res; split; [exact Heq|]; split; [exact Hframe|];
  intros; apply Hin; first [assumption | by eexists].

Ltac out_of_bounds :=
  exists OutOfBounds; split; [done|]; split; [done|];
  intros [? ?] [? ?] [? ?] [? ?]; done.

Ltac unchanged c :=
  exists (Normal (c, None)); split; [done|]; split; [|done];
  simpl; apply levelsFrame_refl.

Lemma randomAlgorithm_shape : ruleShape randomAlgorithm.
Proof.
  intros this x y nx ny c orig. unfold randomAlgorithm.
  destruct (getLevelAtCoord c nx ny) as [nl|] eqn:Hnl.
  2: out_of_bounds.
  destruct (Z.eqb_spec nl 0) as [->|Hnz]; [unchanged c|].
  destruct (getRGB c orig x y) as [[[r g] b]|] eqn:Hrgb.
  2: out_of_bounds.
  destruct (getRGB c orig nx ny) as [[[nr ng] nb]|] eqn:Hnrgb.
  2: out_of_bounds.
  destruct (r + g + b =? 0).
  { from_branch (colonize_shape c x y nx ny nl nr ng nb). }
  destruct ((0 <? r) && (0 <? ng)).
  { from_branch (randomEats_shape this x y nx ny c nl 0 ng 0 Hnl Hnz). }
  destruct ((0 <? g) && (0 <? nb)).
  { from_branch (randomEats_shape this x y nx ny c nl 0 0 nb Hnl Hnz). }
  destruct ((0 <? b) && (0 <? nr)).
  { from_branch (randomEats_shape this x y nx ny c nl nr 0 0 Hnl Hnz). }
  unchanged c.
Qed.

Lemma wavesEats_shape this x y nx ny c pr pg pb :
  getLevelAtCoord c nx ny <> Some 0 ->
  exists res,
    (forall workingBuffer,
        wavesEats this x y nx ny c workingBuffer (pr, pg, pb) =
        painted c x y res workingBuffer) /\
    reaches (fun r => levelsFrame c x y nx ny r.1) res /\
    (is_Some (getLevelAtCoord c x y) ->
     is_Some (getLevelAtCoord c nx ny) -> res <> OutOfBounds).
Proof.
  intros Hnz. unfold wavesEats, setLevelThen.
  destruct (setLevelAtCoord c nx ny (initialLevel this)) as [c1|] eqn:Hc1.
  2: { exists OutOfBounds. split; [done|]. split; [done|].
       intros _ Hnb. by apply setLevelAtCoord_None_out in Hc1. }
  destruct (setLevelAtCoord c1 x y (initialLevel this)) as [c2|] eqn:Hc2.
  - exists (Normal (c2, Some (pr, pg, pb))).
    split; [done|]. split; [|done]. simpl.
    by apply (levelsFrame_neighbor_then_self c x y nx ny
                (initialLevel this) c1 (initialLevel this)).
  - exists OutOfBounds. split; [done|]. split; [done|].
    intros Hme _. apply setLevelAtCoord_None_out in Hc2. destruct Hc2.
    by apply (getLevel_is_Some_setLevel c nx ny (initialLevel this)).
Qed.

Lemma wavesAlgorithm_shape : ruleShape wavesAlgorithm.
Proof.
  intros this x y nx ny c orig. unfold wavesAlgorithm.
  destruct (getLevelAtCoord c nx ny) as [nl|] eqn:Hnl.
  2: out_of_bounds.
  destruct (Z.eqb_spec nl 0) as [->|Hnz]; [unchanged c|].
  assert (Hnz' : getLevelAtCoord c nx ny <> Some 0) by congruence.
  destruct (getLevelAtCoord c x y) as [myLevel|] eqn:Hme.
  2: out_of_bounds.
  destruct this as [this|].
  2: { exists (Throw TypeError (c, None)). split; [done|]. split; [|done].
       simpl. apply levelsFrame_refl. }
  destruct (edibleLevel this <? myLevel).
  { from_branch (aging_shape c x y nx ny (myLevel - 1)). }
  destruct (getRGB c orig x y) as [[[r g] b]|] eqn:Hrgb.
  2: out_of_bounds.
  destruct (getRGB c orig nx ny) as [[[nr ng] nb]|] eqn:Hnrgb.
  2: out_of_bounds.
  cbv zeta.
  destruct (r + g + b =? 0).
  { from_branch (colonize_shape c x y nx ny nl nr ng nb). }
  destruct ((0 <? r) && (0 <? ng) &&
            (negb (youngBanquetMode this) || (myLevel <? nl))).
  { from_branch (wavesEats_shape this x y nx ny c 0 ng 0 Hnz'). }
  destruct ((0 <? g) && (0 <? nb) &&
            (negb (youngBanquetMode this) || (myLevel <? nl))).
  { from_branch (wavesEats_shape this x y nx ny c 0 0 nb Hnz'). }
  destruct ((0 <? b) && (0 <? nr) &&
            (negb (youngBanquetMode this) || (myLevel <? nl))).
  { from_branch (wavesEats_shape this x y nx ny c nr 0 0 Hnz'). }
  from_branch (aging_shape c x y nx ny (myLevel - 1)).
Qed.

Lemma selectAlgorithm_shape s : ruleShape (selectAlgorithm s).
Proof.
  unfold selectAlgorithm. destruct (String.eqb (algorithm s) "waves").
  - apply wavesAlgorithm_shape.
  - apply randomAlgorithm_shape.
Qed.

(** ** Loops *)

Lemma range_interior n i : 2 <= n -> i ∈ range 1 (n - 1) -> 1 <= i <= n - 2.
Proof.
  intros Hn. unfold range. destruct (Z.ltb_spec 1 (n - 1)).
  - intros Hi%elem_of_seqZ. lia.
  - assert (n = 2) as -> by lia. simpl. inversion 1.
Qed.

Lemma range_first n : 3 <= n -> exists rest, range 1 (n - 1) = 1 :: rest.
Proof.
  intros Hn. unfold range. destruct (Z.ltb_spec 1 (n - 1)); [|lia].
  rewrite seqZ_cons by lia. by eexists.
Qed.

Lemma forOf_holds {T S} (I : S -> Prop) (items : list T)
    (body : T -> S -> completion S) s :
  I s ->
  (forall i s, i ∈ items -> I s -> holds I (body i s)) ->
  holds I (forOf items body s).
Proof.
  revert s. induction items as [|i rest IH]; intros s Hs Hbody; simpl; [done|].
  pose proof (Hbody i s (list_elem_of_here _ _) Hs) as Hi.
  destruct (body i s) as [s'|e s'|]; simpl in *; [|done..].
  apply IH; [done|]. intros j s'' Hj. apply Hbody. by apply list_elem_of_further.
Qed.

(** ** Cells of a well-formed canvas *)

Lemma inGrid_index c x y :
  wfCanvas c -> inGrid c x y ->
  0 <= canvasCoordToLevelIndex c x y < width c * height c.
Proof.
  intros [Hw Hh _ _] [Hx Hy]. unfold canvasCoordToLevelIndex. nia.
Qed.

Lemma inGrid_index_inj c x y x' y' :
  inGrid c x y -> inGrid c x' y' ->
  canvasCoordToLevelIndex c x y = canvasCoordToLevelIndex c x' y' ->
  x = x' /\ y = y'.
Proof.
  intros [Hx Hy] [Hx' Hy']. unfold canvasCoordToLevelIndex. intros Heq.
  assert (y = y') by nia. subst. lia.
Qed.

Lemma inGrid_level c x y :
  wfCanvas c -> inGrid c x y -> is_Some (getLevelAtCoord c x y).
Proof.
  intros Hwf Hin. apply nth_cell_is_Some.
  rewrite (wf_levels c Hwf). by apply inGrid_index.
Qed.

Lemma inGrid_rgb c buffer x y :
  wfCanvas c -> Z.of_nat (length buffer) = 4 * (width c * height c) ->
  inGrid c x y -> is_Some (getRGB c buffer x y).
Proof.
  intros Hwf Hlen Hin. pose proof (inGrid_index c x y Hwf Hin) as Hi.
  unfold canvasCoordToLevelIndex in Hi.
  apply getRGB_is_Some; unfold canvasCoordToDataIndex; lia.
Qed.

Lemma interior_inGrid c x y : interior c x y -> inGrid c x y.
Proof. unfold interior, inGrid. lia. Qed.

Lemma interior_neighbor c x y dx dy :
  interior c x y -> unitOffset (dx, dy) -> inGrid c (x + dx) (y + dy).
Proof. unfold interior, unitOffset, inGrid. simpl. lia. Qed.

Lemma levelsFrame_wf c x y nx ny c' :
  wfCanvas c -> levelsFrame c x y nx ny c' -> wfCanvas c'.
Proof.
  intros [Hw Hh Hl Hc] (Hw' & Hh' & Hc' & Hl' & _).
  split; rewrite ?Hw', ?Hh', ?Hc', ?Hl'; done.
Qed.

(** ** Picking a neighbour *)

Lemma fixedRing_unit : Forall unitOffset fixedRing.
Proof. repeat constructor; simpl; lia. Qed.

Lemma land_mask_bound i k : 0 <= k -> 0 <= Z.land i (Z.ones k) < 2 ^ k.
Proof. intros Hk. rewrite Z.land_ones by done. apply Z.mod_pos_bound. lia. Qed.

Lemma nth_cell_Forall {T} (P : T -> Prop) (l : list T) i v :
  Forall P l -> nth_cell l i = Some v -> P v.
Proof.
  unfold nth_cell. intros Hall. destruct (i <? 0); [done|].
  intros Hv. by eapply Forall_lookup_1.
Qed.

Lemma pickNeighbor_wf random w :
  wfSim (self w) ->
  match pickNeighbor random w with
  | Pick dx dy w' =>
      unitOffset (dx, dy) /\ wfSim (self w') /\ sameConfig (self w) (self w') /\
      uiCanvas (self w') = uiCanvas (self w)
  | PickThrow e => True
  | PickOutOfBounds => False
  end.
Proof.
  intros Hwf. unfold pickNeighbor.
  destruct (neighborPickingMode (self w) =? NEIGHBOR_PICKING_MODE_RANDOM).
  { simpl. split; [|split; [done|split; [by repeat split|done]]].
    unfold unitOffset. simpl.
    destruct (random (drawn w)), (random (S (drawn w))); simpl; lia. }
  destruct (neighborPickingMode (self w) =? NEIGHBOR_PICKING_MODE_FIXED).
  { destruct (nth_cell (fixedNeighborPicks (self w))
                (fixedNeighborPicksIndex (self w))) as [[dx dy]|] eqn:Hp.
    - split.
      { rewrite (wf_fixedPicks _ Hwf) in Hp.
        by apply (nth_cell_Forall _ _ _ _ fixedRing_unit Hp). }
      split; [|split; [by repeat split|done]].
      destruct Hwf. split; simpl; try done.
      rewrite wf_fixedMask0. apply (land_mask_bound _ 3). lia.
    - destruct (nth_cell_is_Some (fixedNeighborPicks (self w))
                  (fixedNeighborPicksIndex (self w))) as [? ?]; [|congruence].
      rewrite (wf_fixedPicks _ Hwf). simpl.
      pose proof (wf_fixedIndex _ Hwf). lia. }
  destruct (neighborPickingMode (self w) =? NEIGHBOR_PICKING_MODE_PRE_RANDOM);
    [|done].
  destruct (nth_cell (randomNeighborPicks (self w))
              (randomNeighborPicksIndex (self w))) as [[dx dy]|] eqn:Hp.
  - split.
    { by apply (nth_cell_Forall _ _ _ _ (wf_randomPicks _ Hwf) Hp). }
    split; [|split; [by repeat split|done]].
    destruct Hwf. split; simpl; try done.
    rewrite wf_randomMask0. apply (land_mask_bound _ 7). lia.
  - destruct (nth_cell_is_Some (randomNeighborPicks (self w))
                (randomNeighborPicksIndex (self w))) as [? ?]; [|congruence].
    rewrite (wf_randomLength _ Hwf). unfold randomPicksLength.
    pose proof (wf_randomIndex _ Hwf). lia.
Qed.

(** ** The pass keeps its invariant *)

Lemma sameConfig_refl s : sameConfig s s.
Proof. by repeat split. Qed.

Lemma sameConfig_trans s1 s2 s3 :
  sameConfig s1 s2 -> sameConfig s2 s3 -> sameConfig s1 s3.
Proof.
  unfold sameConfig. intros H1 H2.
  destruct H1 as (?&?&?&?&?&?&?&?&?&?), H2 as (?&?&?&?&?&?&?&?&?&?).
  repeat split; congruence.
Qed.

Lemma wfSim_set_uiCanvas c s :
  wfSim s -> wfCanvas c -> wfSim (set_uiCanvas c s).
Proof. intros [] Hc. by split. Qed.

Lemma length_paintWith c x y paint workingBuffer :
  length (paintWith c x y paint workingBuffer) = length workingBuffer.
Proof.
  destruct paint as [[[r g] b]|]; simpl; [|done]. apply length_setRGB.
Qed.

Lemma putImageData_context c : putImageData c (context c) = c.
Proof. by destruct c. Qed.

Section Pass.
Variable random : nat -> draw3.
Variable thisArg : option RockPaperAutomata.
Variable Q : Canvas -> list Z -> Prop.
Variable s0 : RockPaperAutomata.
Variable originalBuffer : list Z.

Hypothesis originalBuffer_length :
  Z.of_nat (length originalBuffer) =
  4 * (width (uiCanvas s0) * height (uiCanvas s0)).

(** A rule call on an interior cell keeps [Q]. *)
Hypothesis Q_step : forall x y c workingBuffer nx ny,
  interior (uiCanvas s0) x y ->
  wfCanvas c ->
  width c = width (uiCanvas s0) -> height c = height (uiCanvas s0) ->
  context c = context (uiCanvas s0) ->
  length workingBuffer = length originalBuffer ->
  inGrid c nx ny ->
  Q c workingBuffer ->
  reaches (fun r => Q r.1 r.2)
    (selectAlgorithm s0 thisArg x y nx ny c originalBuffer workingBuffer).

Lemma cellStep_holds x y st :
  interior (uiCanvas s0) x y ->
  passInv Q s0 originalBuffer st ->
  holds (passInv Q s0 originalBuffer)
    (cellStep random thisArg (selectAlgorithm s0) originalBuffer y x st).
Proof.
  destruct st as [w wb]. intros Hxy (Hwf & Hcfg & Hw & Hh & Hctx & Hlen & HQ).
  simpl in *. unfold cellStep.
  pose proof (pickNeighbor_wf random w Hwf) as Hpick.
  destruct (pickNeighbor random w) as [dx dy w1|e|];
    [|simpl; unfold passInv; simpl; auto 10|done].
  destruct Hpick as (Hoff & Hwf1 & Hcfg1 & Hc1).
  set (c := uiCanvas (self w1)) in *.
  assert (Hwfc : wfCanvas c) by (subst c; rewrite Hc1; apply Hwf).
  assert (Hxy' : interior c x y).
  { unfold interior in *. subst c. rewrite Hc1, Hw, Hh. done. }
  pose proof (interior_neighbor c x y dx dy Hxy' Hoff) as Hn.
  assert (Hbuf : Z.of_nat (length originalBuffer) = 4 * (width c * height c)).
  { subst c. rewrite Hc1, Hw, Hh. done. }
  pose proof (Q_step x y c wb (x + dx) (y + dy) Hxy Hwfc) as Hstep.
  destruct (selectAlgorithm_shape s0 thisArg x y (x + dx) (y + dy) c
              originalBuffer) as (res & Heq & Hframe & Hin).
  rewrite Heq in *.
  assert (Hres : res <> OutOfBounds).
  { apply Hin.
    - by apply inGrid_level, interior_inGrid.
    - by apply inGrid_level.
    - by apply inGrid_rgb, interior_inGrid.
    - by apply inGrid_rgb. }
  assert (Hsub : forall c' paint,
    levelsFrame c x y (x + dx) (y + dy) c' ->
    Q c' (paintWith c x y paint wb) ->
    passInv Q s0 originalBuffer
      (mkWorld (set_uiCanvas c' (self w1)) (drawn w1),
       paintWith c x y paint wb)).
  { intros c' paint Hf HQ'.
    pose proof (levelsFrame_wf _ _ _ _ _ _ Hwfc Hf) as Hwfc'.
    destruct Hf as (Hw' & Hh' & Hctx' & _).
    unfold passInv. simpl.
    split; [|split; [|split; [|split; [|split; [|split]]]]].
    - by apply wfSim_set_uiCanvas.
    - apply (sameConfig_trans _ (self w)); [done|].
      apply (sameConfig_trans _ (self w1)); [done|]. by repeat split.
    - subst c. by rewrite Hw', Hc1.
    - subst c. by rewrite Hh', Hc1.
    - subst c. by rewrite Hctx', Hc1.
    - by rewrite length_paintWith.
    - done. }
  assert (HQc : Q c wb) by (subst c; by rewrite Hc1).
  assert (Hstep' := Hstep ltac:(subst c; by rewrite Hc1)
                      ltac:(subst c; by rewrite Hc1)
                      ltac:(subst c; by rewrite Hc1) Hlen Hn HQc).
  destruct res as [[c' paint]|e [c' paint]|]; simpl in *; [| |done].
  - by apply Hsub.
  - by apply Hsub.
Qed.

Lemma work_holds workingBuffer w0 :
  self w0 = s0 ->
  passInv Q s0 originalBuffer (w0, workingBuffer) ->
  holds (passInv Q s0 originalBuffer)
    (work random thisArg originalBuffer workingBuffer w0).
Proof.
  intros Hs0 Hinv. unfold work. rewrite Hs0.
  assert (Hwf : wfCanvas (uiCanvas s0)).
  { destruct Hinv as (Hwf & _). simpl in Hwf. rewrite Hs0 in Hwf. apply Hwf. }
  apply forOf_holds; [done|].
  intros y st Hy Hst. apply forOf_holds; [done|].
  intros x st' Hx Hst'. apply cellStep_holds; [|done].
  split.
  - apply range_interior; [apply Hwf | done].
  - apply range_interior; [apply Hwf | done].
Qed.
End Pass.

(** What a whole [update] establishes from an invariant of its rule calls:
    after a normal completion the canvas holds the working buffer; after an
    exception the pixel data are those of before, and the working buffer,
    which is dropped, is some buffer for which [Q] holds. *)
Lemma updateWith_holds random thisArg (Q : Canvas -> list Z -> Prop) w :
  wfSim (self w) ->
  Q (uiCanvas (self w)) (context (uiCanvas (self w))) ->
  (forall x y c workingBuffer nx ny,
      interior (uiCanvas (self w)) x y ->
      wfCanvas c ->
      width c = width (uiCanvas (self w)) ->
      height c = height (uiCanvas (self w)) ->
      context c = context (uiCanvas (self w)) ->
      length workingBuffer = length (context (uiCanvas (self w))) ->
      inGrid c nx ny ->
      Q c workingBuffer ->
      reaches (fun r => Q r.1 r.2)
        (selectAlgorithm (self w) thisArg x y nx ny c
           (context (uiCanvas (self w))) workingBuffer)) ->
  match updateWith random thisArg w with
  | Normal w' =>
      wfSim (self w') /\ sameConfig (self w) (self w') /\
      width (uiCanvas (self w')) = width (uiCanvas (self w)) /\
      height (uiCanvas (self w')) = height (uiCanvas (self w)) /\
      Q (putImageData (uiCanvas (self w')) (context (uiCanvas (self w))))
        (context (uiCanvas (self w')))
  | Throw _ w' =>
      wfSim (self w') /\ sameConfig (self w) (self w') /\
      width (uiCanvas (self w')) = width (uiCanvas (self w)) /\
      height (uiCanvas (self w')) = height (uiCanvas (self w)) /\
      context (uiCanvas (self w')) = context (uiCanvas (self w)) /\
      exists workingBuffer, Q (uiCanvas (self w')) workingBuffer
  | OutOfBounds => False
  end.
Proof.
  intros Hwf HQ Hstep. unfold updateWith.
  destruct (isPaused (self w)).
  { split; [done|]. split; [apply sameConfig_refl|]. split; [done|].
    split; [done|]. by rewrite putImageData_context. }
  unfold doWork, getUnderlyingBufferCopy.
  assert (Hlen : Z.of_nat (length (context (uiCanvas (self w)))) =
                 4 * (width (uiCanvas (self w)) * height (uiCanvas (self w)))).
  { apply Hwf. }
  pose proof (work_holds random thisArg Q (self w) (context (uiCanvas (self w)))
                Hlen Hstep (context (uiCanvas (self w))) w eq_refl) as Hwork.
  destruct (work random thisArg (context (uiCanvas (self w)))
              (context (uiCanvas (self w))) w) as [[w' wb]|e [w' wb]|];
    simpl in *.
  - destruct Hwork as (Hwf' & Hcfg & Hw & Hh & Hctx & Hl & HQ').
    { unfold passInv. simpl. pose proof (sameConfig_refl (self w)). auto 10. }
    simpl in *. split; [|split; [|split; [done|split; [done|]]]].
    + apply wfSim_set_uiCanvas; [done|].
      destruct Hwf' as [[Hw2 Hh2 Hl2 Hc2] _ _ _ _ _ _ _].
      split; simpl; try done.
      rewrite Hl, Hw, Hh. done.
    + apply (sameConfig_trans _ (self w')); [done|]. by repeat split.
    + unfold putImageData. simpl. rewrite <- Hctx.
      by destruct (uiCanvas (self w')).
  - destruct Hwork as (Hwf' & Hcfg & Hw & Hh & Hctx & Hl & HQ').
    { unfold passInv. simpl. pose proof (sameConfig_refl (self w)). auto 10. }
    simpl in *. split; [done|]. split; [done|]. split; [done|].
    split; [done|]. split; [done|]. by exists wb.
  - apply Hwork. unfold passInv. simpl.
    pose proof (sameConfig_refl (self w)). auto 10.
Qed.

(** ** Well-formedness of what the constructors build *)

Lemma length_concat_replicate {T} (n : nat) (l : list T) :
  length (concat (replicate n l)) = (n * length l)%nat.
Proof. induction n as [|n IH]; simpl; [done|]. by rewrite length_app, IH. Qed.

Lemma newCanvas_wf w h : 2 <= w -> 2 <= h -> wfCanvas (newCanvas w h).
Proof.
  intros Hw Hh. unfold newCanvas. split; simpl; try done.
  - rewrite length_replicate, Z2Nat.id by nia. done.
  - rewrite length_concat_replicate, Nat2Z.inj_mul, Z2Nat.id by nia.
    simpl. lia.
Qed.

Lemma paintPoint_wf x y rgOrB level c :
  wfCanvas c -> wfCanvas (paintPoint x y rgOrB level c).
Proof.
  intros [Hw Hh Hl Hc]. unfold paintPoint.
  destruct (setLevelAtCoord c x y level) as [c'|] eqn:Hc'; [|done].
  apply setLevelAtCoord_Some in Hc' as [-> _].
  split; simpl; try done.
  - by rewrite length_insert.
  - by rewrite length_storeByte.
Qed.

Lemma drawPicks_unit random from n : Forall unitOffset (drawPicks random from n).
Proof.
  unfold drawPicks. apply Forall_fmap, Forall_forall. intros k _.
  unfold compose, unitOffset. cbn [fst snd].
  destruct (random (from + 2 * k)%nat), (random (from + 2 * k + 1)%nat);
    simpl; lia.
Qed.

Lemma construct_wf random from canvas :
  wfCanvas canvas -> wfSim (self (construct random from canvas)).
Proof.
  intros Hc. unfold construct. split; simpl; try done.
  apply drawPicks_unit.
Qed.

Lemma wfSim_config s s' :
  wfSim s -> uiCanvas s' = uiCanvas s ->
  fixedNeighborPicks s' = fixedNeighborPicks s ->
  fixedNeighborMask s' = fixedNeighborMask s ->
  fixedNeighborPicksIndex s' = fixedNeighborPicksIndex s ->
  randomNeighborPicks s' = randomNeighborPicks s ->
  randomNeighborMask s' = randomNeighborMask s ->
  randomNeighborPicksIndex s' = randomNeighborPicksIndex s ->
  wfSim s'.
Proof. intros [] Hc Hp Hm Hi Hrp Hrm Hri. split; congruence. Qed.

(** ** Border cells *)

Lemma border_not_interior c x y bx by_ :
  onBorder c bx by_ -> interior c x y ->
  canvasCoordToLevelIndex c bx by_ <> canvasCoordToLevelIndex c x y.
Proof.
  intros [Hin Hb] Hint Heq.
  destruct (inGrid_index_inj c bx by_ x y Hin (interior_inGrid _ _ _ Hint) Heq).
  unfold interior in Hint. lia.
Qed.

(** A pass neither changes the level of a border cell at level 0 nor paints
    its pixel. *)
Lemma border_cell_step random thisArg w bx by_ :
  wfSim (self w) ->
  onBorder (uiCanvas (self w)) bx by_ ->
  getLevelAtCoord (uiCanvas (self w)) bx by_ = Some 0 ->
  exists w',
    frameWith random thisArg w = Some w' /\
    wfSim (self w') /\
    width (uiCanvas (self w')) = width (uiCanvas (self w)) /\
    height (uiCanvas (self w')) = height (uiCanvas (self w)) /\
    getLevelAtCoord (uiCanvas (self w')) bx by_ = Some 0 /\
    getRGB (uiCanvas (self w')) (context (uiCanvas (self w'))) bx by_ =
    getRGB (uiCanvas (self w)) (context (uiCanvas (self w))) bx by_.
Proof.
  intros Hwf Hb Hl. set (c0 := uiCanvas (self w)) in *.
  set (Q := fun (c : Canvas) (wb : list Z) =>
              getLevelAtCoord c bx by_ = Some 0 /\
              getRGB c0 wb bx by_ = getRGB c0 (context c0) bx by_).
  assert (Hstep : forall x y c workingBuffer nx ny,
      interior c0 x y -> wfCanvas c ->
      width c = width c0 -> height c = height c0 -> context c = context c0 ->
      length workingBuffer = length (context c0) ->
      inGrid c nx ny -> Q c workingBuffer ->
      reaches (fun r => Q r.1 r.2)
        (selectAlgorithm (self w) (thisArg w) x y nx ny c (context c0)
           workingBuffer)).
  { intros x y c wb nx ny Hxy Hwfc Hw Hh Hctx Hlen Hn [HQl HQc].
    destruct (selectAlgorithm_shape (self w) (thisArg w) x y nx ny c
                (context c0)) as (res & Heq & Hframe & _).
    rewrite Heq.
    assert (Hne : canvasCoordToLevelIndex c bx by_ <>
                  canvasCoordToLevelIndex c x y).
    { unfold canvasCoordToLevelIndex. rewrite Hw.
      by apply (border_not_interior c0). }
    assert (Hkeep : forall c' paint,
      levelsFrame c x y nx ny c' -> Q c' (paintWith c x y paint wb)).
    { intros c' paint (Hw' & _ & _ & _ & Hj). split.
      - unfold getLevelAtCoord, canvasCoordToLevelIndex in *. rewrite Hw'.
        destruct (Hj (by_ * width c + bx)) as [-> | [Heqj | [Heqj Hnz]]];
          [done | done |]. destruct Hnz. by rewrite <- Heqj.
      - rewrite <- HQc. destruct paint as [[[r g] b]|]; simpl; [|done].
        rewrite !(getRGB_width c c0) by done.
        by apply getRGB_setRGB_ne. }
    destruct res as [[c' paint]|e' [c' paint]|]; simpl in *;
      try done; by apply Hkeep. }
  pose proof (updateWith_holds random (thisArg w) Q w Hwf
                (conj Hl eq_refl) Hstep) as Hup.
  unfold frameWith.
  destruct (updateWith random (thisArg w) w) as [w'|e w'|]; [| |done].
  - destruct Hup as (Hwf' & _ & Hw & Hh & HQl & HQc).
    exists w'. split; [done|]. split; [done|]. split; [done|].
    split; [done|]. split; [exact HQl|].
    rewrite <- HQc. by apply getRGB_width.
  - destruct Hup as (Hwf' & _ & Hw & Hh & Hctx & wb & HQl & HQc).
    exists w'. split; [done|]. split; [done|]. split; [done|].
    split; [done|]. split; [exact HQl|].
    rewrite Hctx. by apply getRGB_width.
Qed.

(** X2. A pass over a well-formed simulation stays inside the arrays, for
    both rules, every selection mode, every receiver of the rule and all
    random draws, and it leaves the simulation well formed and its
    configuration as it was, whether it completes or throws. *)
Lemma updateWith_in_bounds random thisArg w :
  wfSim (self w) ->
  holds (fun w' => wfSim (self w') /\ sameConfig (self w) (self w'))
    (updateWith random thisArg w).
Proof.
  intros Hwf.
  pose proof (updateWith_holds random thisArg (fun _ _ => True) w Hwf I) as Hup.
  destruct (updateWith random thisArg w) as [w'|e w'|]; simpl.
  - destruct Hup as (? & ? & _); [|done].
    intros x y c wb nx ny _ _ _ _ _ _ _ _.
    by destruct (selectAlgorithm (self w) thisArg x y nx ny c
                   (context (uiCanvas (self w))) wb).
  - destruct Hup as (? & ? & _); [|done].
    intros x y c wb nx ny _ _ _ _ _ _ _ _.
    by destruct (selectAlgorithm (self w) thisArg x y nx ny c
                   (context (uiCanvas (self w))) wb).
  - apply Hup. intros x y c wb nx ny _ _ _ _ _ _ _ _.
    by destruct (selectAlgorithm (self w) thisArg x y nx ny c
                   (context (uiCanvas (self w))) wb).
Qed.

Lemma border_cell_frames random thisArg n w bx by_ :
  wfSim (self w) ->
  onBorder (uiCanvas (self w)) bx by_ ->
  getLevelAtCoord (uiCanvas (self w)) bx by_ = Some 0 ->
  exists w',
    framesWith random thisArg n w = Some w' /\
    wfSim (self w') /\
    getLevelAtCoord (uiCanvas (self w')) bx by_ = Some 0 /\
    getRGB (uiCanvas (self w')) (context (uiCanvas (self w'))) bx by_ =
    getRGB (uiCanvas (self w)) (context (uiCanvas (self w))) bx by_.
Proof.
  revert w. induction n as [|n IH]; intros w Hwf Hb Hl; simpl.
  { by exists w. }
  destruct (border_cell_step random thisArg w bx by_ Hwf Hb Hl)
    as (w1 & -> & Hwf1 & Hw & Hh & Hl1 & Hc1).
  simpl.
  destruct (IH w1 Hwf1) as (w' & Hrun & Hwf' & Hl' & Hc'); [|done|].
  { unfold onBorder, inGrid in *. rewrite Hw, Hh. done. }
  exists w'. split; [done|]. split; [done|]. split; [done|]. congruence.
Qed.




(** ** The fixed cycle *)

Lemma fixed_pick random w :
  neighborPickingMode (self w) = NEIGHBOR_PICKING_MODE_FIXED ->
  fixedNeighborPicks (self w) = fixedRing ->
  fixedNeighborMask (self w) = 7 ->
  0 <= fixedNeighborPicksIndex (self w) < 8 ->
  pickNeighbor random w =
    Pick (ringAt (fixedNeighborPicksIndex (self w))).1
         (ringAt (fixedNeighborPicksIndex (self w))).2
         (mkWorld
            (set_fixedNeighborPicksIndex
               ((fixedNeighborPicksIndex (self w) + 1) mod 8) (self w))
            (drawn w)).
Proof.
  intros Hmode Hring Hmask Hi. unfold pickNeighbor.
  rewrite Hmode, Hring, Hmask. simpl.
  change 7 with (Z.ones 3). rewrite Z.land_ones by lia.
  change (2 ^ 3) with 8.
  assert (Hcases : fixedNeighborPicksIndex (self w) = 0 \/
                   fixedNeighborPicksIndex (self w) = 1 \/
                   fixedNeighborPicksIndex (self w) = 2 \/
                   fixedNeighborPicksIndex (self w) = 3 \/
                   fixedNeighborPicksIndex (self w) = 4 \/
                   fixedNeighborPicksIndex (self w) = 5 \/
                   fixedNeighborPicksIndex (self w) = 6 \/
                   fixedNeighborPicksIndex (self w) = 7) by lia.
  destruct Hcases as [-> | [-> | [-> | [-> | [-> | [-> | [-> | ->]]]]]]];
    reflexivity.
Qed.

Lemma fixed_picks random n : forall w,
  neighborPickingMode (self w) = NEIGHBOR_PICKING_MODE_FIXED ->
  fixedNeighborPicks (self w) = fixedRing ->
  fixedNeighborMask (self w) = 7 ->
  0 <= fixedNeighborPicksIndex (self w) < 8 ->
  picks random n w =
    Some ((fun k : nat =>
             ringAt ((fixedNeighborPicksIndex (self w) + Z.of_nat k) mod 8))
            <$> seq 0 n,
          mkWorld
            (set_fixedNeighborPicksIndex
               ((fixedNeighborPicksIndex (self w) + Z.of_nat n) mod 8) (self w))
            (drawn w)).
Proof.
  induction n as [|n IH]; intros w Hmode Hring Hmask Hi.
  { simpl. rewrite Z.add_0_r, Z.mod_small by lia.
    by destruct w as [[] ?]. }
  cbn [picks]. rewrite fixed_pick by done.
  rewrite IH; cbn [self drawn set_fixedNeighborPicksIndex
                   neighborPickingMode fixedNeighborPicks fixedNeighborMask
                   fixedNeighborPicksIndex]; try done.
  2: { apply Z.mod_pos_bound. lia. }
  f_equal. f_equal.
  - cbn [seq fmap list_fmap]. f_equal.
    + change (Z.of_nat 0) with 0.
      rewrite Z.add_0_r, (Z.mod_small (fixedNeighborPicksIndex (self w)) 8)
        by lia.
      by destruct (ringAt _).
    + rewrite <- fmap_S_seq, <- list_fmap_compose.
      apply list_fmap_ext. intros _ k _. unfold compose. f_equal.
      rewrite Zplus_mod_idemp_l. f_equal. lia.
  - assert (((fixedNeighborPicksIndex (self w) + 1) mod 8 + Z.of_nat n) mod 8
            = (fixedNeighborPicksIndex (self w) + Z.of_nat (S n)) mod 8) as ->.
    { rewrite Zplus_mod_idemp_l. f_equal. lia. }
    reflexivity.
Qed.

Lemma pre_random_pick random w :
  neighborPickingMode (self w) = NEIGHBOR_PICKING_MODE_PRE_RANDOM ->
  length (randomNeighborPicks (self w)) = randomPicksLength ->
  randomNeighborMask (self w) = 127 ->
  0 <= randomNeighborPicksIndex (self w) < 128 ->
  exists dx dy,
    pickNeighbor random w =
      Pick dx dy
        (mkWorld
           (set_randomNeighborPicksIndex
              ((randomNeighborPicksIndex (self w) + 1) mod 128) (self w))
           (drawn w)).
Proof.
  intros Hmode Hlen Hmask Hi. unfold pickNeighbor.
  rewrite Hmode, Hmask. simpl.
  destruct (nth_cell_is_Some (randomNeighborPicks (self w))
              (randomNeighborPicksIndex (self w))) as [[dx dy] ->].
  { rewrite Hlen. unfold randomPicksLength. lia. }
  exists dx, dy. change 127 with (Z.ones 7). rewrite Z.land_ones by lia.
  reflexivity.
Qed.

Lemma pre_random_picks random n : forall w,
  neighborPickingMode (self w) = NEIGHBOR_PICKING_MODE_PRE_RANDOM ->
  length (randomNeighborPicks (self w)) = randomPicksLength ->
  randomNeighborMask (self w) = 127 ->
  0 <= randomNeighborPicksIndex (self w) < 128 ->
  exists offsets,
    picks random n w =
      Some (offsets,
            mkWorld
              (set_randomNeighborPicksIndex
                 ((randomNeighborPicksIndex (self w) + Z.of_nat n) mod 128)
                 (self w))
              (drawn w)).
Proof.
  induction n as [|n IH]; intros w Hmode Hlen Hmask Hi.
  { exists []. simpl. rewrite Z.add_0_r, Z.mod_small by lia.
    by destruct w as [[] ?]. }
  cbn [picks].
  destruct (pre_random_pick random w Hmode Hlen Hmask Hi) as (dx & dy & ->).
  destruct (IH (mkWorld
                  (set_randomNeighborPicksIndex
                     ((randomNeighborPicksIndex (self w) + 1) mod 128) (self w))
                  (drawn w))) as (offsets & ->); try done.
  { simpl. apply Z.mod_pos_bound. lia. }
  exists ((dx, dy) :: offsets). simpl.
  assert (((randomNeighborPicksIndex (self w) + 1) mod 128 + Z.of_nat n)
            mod 128
          = (randomNeighborPicksIndex (self w) + Z.of_nat (S n)) mod 128) as ->.
  { rewrite Zplus_mod_idemp_l. f_equal. lia. }
  reflexivity.
Qed.

(** ** Unknown modes and variants *)

Lemma unknown_mode_pick random w :
  neighborPickingMode (self w) <> NEIGHBOR_PICKING_MODE_RANDOM ->
  neighborPickingMode (self w) <> NEIGHBOR_PICKING_MODE_FIXED ->
  neighborPickingMode (self w) <> NEIGHBOR_PICKING_MODE_PRE_RANDOM ->
  pickNeighbor random w = PickThrow (Error "Unknown neighbor picking mode!").
Proof.
  intros H0 H1 H2. unfold pickNeighbor.
  apply Z.eqb_neq in H0, H1, H2. by rewrite H0, H1, H2.
Qed.

(** C8, as the code has it. (1) The change handler of the selection control
    ignores a value that is none of "random", "fixed" and "pre-random": the
    simulation is returned as it was, with no error.  (2) A simulation that
    is not paused, whose canvas has an interior cell and whose
    [neighborPickingMode] is none of the three modes, throws
    "Unknown neighbor picking mode!" in [update], at the first cell of the
    pass, with nothing changed.  (3) An [algorithm] that is not "waves" selects
    the Classic rule, whatever it is. *)
Theorem unknown_mode_and_variant random thisArg :
  (forall value s,
      value <> "random"%string -> value <> "fixed"%string ->
      value <> "pre-random"%string ->
      neighborSelectionChange value s = s) /\
  (forall w,
      isPaused (self w) = false ->
      3 <= width (uiCanvas (self w)) -> 3 <= height (uiCanvas (self w)) ->
      neighborPickingMode (self w) <> NEIGHBOR_PICKING_MODE_RANDOM ->
      neighborPickingMode (self w) <> NEIGHBOR_PICKING_MODE_FIXED ->
      neighborPickingMode (self w) <> NEIGHBOR_PICKING_MODE_PRE_RANDOM ->
      updateWith random thisArg w =
        Throw (Error "Unknown neighbor picking mode!") w) /\
  (forall s, algorithm s <> "waves"%string ->
      selectAlgorithm s = randomAlgorithm).
Proof.
  split; [|split].
  - intros value s H1 H2 H3. unfold neighborSelectionChange.
    apply String.eqb_neq in H1, H2, H3. by rewrite H1, H2, H3.
  - intros w Hrun Hw Hh H0 H1 H2. unfold updateWith. rewrite Hrun.
    unfold doWork, work.
    destruct (range_first (height (uiCanvas (self w))) Hh) as [ys ->].
    destruct (range_first (width (uiCanvas (self w))) Hw) as [xs ->].
    cbn [forOf]. unfold cellStep.
    by rewrite (unknown_mode_pick random w H0 H1 H2).
  - intros s Hs. unfold selectAlgorithm.
    apply String.eqb_neq in Hs. by rewrite Hs.
Qed.

Lemma unknown_mode_and_variant_witness :
  let w := construct (alwaysDraw Draw0) 0 (newCanvas 3 3) in
  let w7 := mkWorld (set_neighborPickingMode 7 (self w)) (drawn w) in
  neighborSelectionChange "uniform" (self w) = self w /\
  updateWith (alwaysDraw Draw0) (Some (self w7)) w7 =
    Throw (Error "Unknown neighbor picking mode!") w7 /\
  selectAlgorithm (set_algorithm "classic" (self w)) = randomAlgorithm.
Proof.
  intros w w7.
  destruct (unknown_mode_and_variant (alwaysDraw Draw0) (Some (self w7)))
    as (Hhandler & Htick & Hvariant).
  split; [|split].
  - apply Hhandler; discriminate.
  - apply Htick; solve [reflexivity | discriminate | simpl; lia].
  - apply Hvariant. discriminate.
Defined.

(** C8 as stated fails: with the mode 3 in the simulation no error was
    raised when it was set, and the error comes up in the pass; the handler
    takes the unknown value "uniform" without an error; and the unknown
    variant "classic" runs the Classic rule. *)
Lemma unknown_mode_throws_in_update :
  let w := construct (alwaysDraw Draw0) 0 (newCanvas 3 3) in
  let w3 := mkWorld (set_neighborPickingMode 3 (self w)) (drawn w) in
  update (alwaysDraw Draw0) w3 =
    Throw (Error "Unknown neighbor picking mode!") w3 /\
  neighborSelectionChange "uniform" (self w) = self w /\
  selectAlgorithm (set_algorithm "classic" (self w)) = randomAlgorithm.
Proof. repeat split. Qed.

(** ** Colours are read from the original buffer only *)

Lemma paintedAlike_refl b1 b2 : length b1 = length b2 -> paintedAlike b1 b2 b1 b2.
Proof. intros Hl. split; [done|]. intros k. by right. Qed.

Lemma paintedAlike_trans b1 b2 b1' b2' b1'' b2'' :
  paintedAlike b1 b2 b1' b2' -> paintedAlike b1' b2' b1'' b2'' ->
  paintedAlike b1 b2 b1'' b2''.
Proof.
  intros [_ H1] [Hl H2]. split; [done|]. intros k.
  destruct (H2 k) as [Heq | [Ha Hb]]; [by left|].
  destruct (H1 k) as [Heq | [Ha' Hb']].
  - left. congruence.
  - right. split; congruence.
Qed.

Lemma storeByte_alike b1 b2 i v :
  length b1 = length b2 ->
  paintedAlike b1 b2 (storeByte b1 i v) (storeByte b2 i v).
Proof.
  intros Hl. split; [by rewrite !length_storeByte|]. intros k.
  destruct (decide (i = k)) as [->|Hne].
  - left. unfold nth_cell, storeByte. destruct (k <? 0); [done|].
    destruct (decide (Z.to_nat k < length b1)%nat) as [Hlt|Hge].
    + rewrite !list_lookup_insert_eq by lia. done.
    + rewrite !list_insert_ge by lia.
      rewrite !lookup_ge_None_2 by lia. done.
  - right. by rewrite !nth_cell_storeByte_ne.
Qed.

Lemma paintWith_alike c x y paint b1 b2 :
  length b1 = length b2 ->
  paintedAlike b1 b2 (paintWith c x y paint b1) (paintWith c x y paint b2).
Proof.
  intros Hl. destruct paint as [[[r g] b]|]; simpl;
    [|by apply paintedAlike_refl].
  unfold setRGB.
  eapply paintedAlike_trans; [|apply storeByte_alike].
  - eapply paintedAlike_trans; [|apply storeByte_alike].
    + by apply storeByte_alike.
    + by rewrite !length_storeByte.
  - by rewrite !length_storeByte.
Qed.

Lemma forOf_alike {T S} (R : S -> S -> Prop) (items : list T)
    (body : T -> S -> completion S) s1 s2 :
  R s1 s2 ->
  (forall i a b, R a b -> alike R (body i a) (body i b)) ->
  alike R (forOf items body s1) (forOf items body s2).
Proof.
  revert s1 s2. induction items as [|i rest IH]; intros s1 s2 HR Hbody; simpl;
    [done|].
  pose proof (Hbody i s1 s2 HR) as Hi.
  destruct (body i s1) as [a|e a|], (body i s2) as [b|e' b|]; simpl in *;
    try done.
  by apply IH.
Qed.

Lemma cellStep_alike random thisArg s originalBuffer b1 b2 y x st1 st2 :
  sameButBuffer b1 b2 st1 st2 ->
  alike (sameButBuffer b1 b2)
    (cellStep random thisArg (selectAlgorithm s) originalBuffer y x st1)
    (cellStep random thisArg (selectAlgorithm s) originalBuffer y x st2).
Proof.
  destruct st1 as [w wb1], st2 as [w2 wb2]. intros [Hw Hp]. simpl in *.
  subst w2. unfold cellStep.
  destruct (pickNeighbor random w) as [dx dy w1|e|];
    [|simpl; unfold sameButBuffer; simpl; auto|done].
  destruct (selectAlgorithm_shape s thisArg x y (x + dx) (y + dy)
              (uiCanvas (self w1)) originalBuffer) as (res & Heq & _).
  rewrite !Heq.
  assert (Hnext : forall paint,
    paintedAlike b1 b2 (paintWith (uiCanvas (self w1)) x y paint wb1)
      (paintWith (uiCanvas (self w1)) x y paint wb2)).
  { intros paint. eapply paintedAlike_trans; [exact Hp|].
    apply paintWith_alike. apply Hp. }
  destruct res as [[c' paint]|e [c' paint]|]; simpl; [| |done].
  - split; [done|]. apply Hnext.
  - split; [done|]. split; [done|]. apply Hnext.
Qed.

Lemma work_alike random thisArg originalBuffer b1 b2 w :
  length b1 = length b2 ->
  alike (sameButBuffer b1 b2)
    (work random thisArg originalBuffer b1 w)
    (work random thisArg originalBuffer b2 w).
Proof.
  intros Hl. unfold work.
  apply forOf_alike.
  { split; [done|]. by apply paintedAlike_refl. }
  intros y st1 st2 Hst. apply forOf_alike; [done|].
  intros x st1' st2' Hst'. by apply cellStep_alike.
Qed.

(** C1, as the code has it. Colours are read from the copy of the pixel data
    taken before the pass, never from the working buffer.  For both rules,
    any receiver and any call: what the call does to the levels, whether it
    throws, and the colour it paints on the self cell are fixed by the
    canvas and the original buffer alone, and the working buffer only
    receives that colour.  For the whole pass, run from two working buffers
    of one length: the two runs end the same way, with the same levels and
    cursors, and each position of the two buffers either agrees or was left
    as it was in both.  And [update] hands the pass the pixel data of before
    the pass as its original buffer.  (Levels are not covered: they are read
    from the one level array that the pass writes.) *)
Theorem colours_read_from_original_buffer random thisArg :
  (forall this x y nx ny canvas originalBuffer,
      exists res,
        forall workingBuffer,
          randomAlgorithm this x y nx ny canvas originalBuffer workingBuffer =
          painted canvas x y res workingBuffer) /\
  (forall this x y nx ny canvas originalBuffer,
      exists res,
        forall workingBuffer,
          wavesAlgorithm this x y nx ny canvas originalBuffer workingBuffer =
          painted canvas x y res workingBuffer) /\
  (forall w originalBuffer b1 b2,
      length b1 = length b2 ->
      alike (sameButBuffer b1 b2)
        (work random thisArg originalBuffer b1 w)
        (work random thisArg originalBuffer b2 w)) /\
  (forall w,
      isPaused (self w) = false ->
      updateWith random thisArg w =
      doWork (fun originalBuffer workingBuffer w' =>
                work random thisArg (context (uiCanvas (self w)))
                  workingBuffer w') w).
Proof.
  split; [|split; [|split]].
  - intros this x y nx ny c orig.
    destruct (randomAlgorithm_shape this x y nx ny c orig) as (res & Heq & _).
    by exists res.
  - intros this x y nx ny c orig.
    destruct (wavesAlgorithm_shape this x y nx ny c orig) as (res & Heq & _).
    by exists res.
  - intros w orig b1 b2 Hl. by apply work_alike.
  - intros w Hrun. unfold updateWith. rewrite Hrun. reflexivity.
Qed.

Lemma colours_read_from_original_buffer_witness :
  let w := chainWorld in
  let orig := context (uiCanvas (self w)) in
  alike (sameButBuffer orig (replicate (length orig) 7))
    (work (alwaysDraw Draw0) None orig orig w)
    (work (alwaysDraw Draw0) None orig (replicate (length orig) 7) w) /\
  updateWith (alwaysDraw Draw0) None w =
    doWork (fun originalBuffer workingBuffer w' =>
              work (alwaysDraw Draw0) None (context (uiCanvas (self w)))
                workingBuffer w') w.
Proof.
  intros w orig.
  destruct (colours_read_from_original_buffer (alwaysDraw Draw0) None)
    as (_ & _ & Hpass & Hupdate).
  split.
  - apply Hpass. reflexivity.
  - apply Hupdate. reflexivity.
Defined.

(** C1 as stated fails for levels. In [chainWorld] the cell (1,1) is at level
    0 before the pass.  The pass colonises it from (2,2), which writes its
    level 30; later in the same pass the cell (1,2) looks at (1,1), reads
    that level 30 (the colour it reads for (1,1) is still the blank one of
    before the pass), and so ends at level 30.  The same rule call for (1,2)
    made on the canvas of before the pass changes nothing, and in the pass
    that reads only the state of before the pass (1,2) stays at level 0. *)
Lemma level_written_in_pass_is_read :
  let c0 := uiCanvas (self chainWorld) in
  getLevelAtCoord c0 1 1 = Some 0 /\
  getLevelAtCoord c0 1 2 = Some 0 /\
  (exists w',
      update (alwaysDraw Draw0) chainWorld = Normal w' /\
      getLevelAtCoord (uiCanvas (self w')) 1 1 = Some 30 /\
      getLevelAtCoord (uiCanvas (self w')) 1 2 = Some 30) /\
  randomAlgorithm None 1 2 (1 + 0) (2 + -1) c0 (context c0) (context c0) =
    Normal (c0, context c0) /\
  (exists w',
      snapshotUpdate (alwaysDraw Draw0) chainWorld = Normal w' /\
      getLevelAtCoord (uiCanvas (self w')) 1 1 = Some 30 /\
      getLevelAtCoord (uiCanvas (self w')) 1 2 = Some 0).
Proof.
  split; [reflexivity|]. split; [reflexivity|]. split; [|split].
  - eexists. split; [vm_compute; reflexivity|]. split; reflexivity.
  - reflexivity.
  - eexists. split; [vm_compute; reflexivity|]. split; reflexivity.
Qed.

(** ** Levels in the Classic rule *)

Lemma setLevel_lookup c x y v c' j l :
  setLevelAtCoord c x y v = Some c' ->
  nth_cell (levelByAutomatonIndex c') j = Some l ->
  (j = canvasCoordToLevelIndex c x y /\ l = v) \/
  nth_cell (levelByAutomatonIndex c) j = Some l.
Proof.
  intros [-> Hi]%setLevelAtCoord_Some. simpl.
  destruct (decide (j = canvasCoordToLevelIndex c x y)) as [->|Hne].
  - unfold nth_cell. destruct (Z.ltb_spec (canvasCoordToLevelIndex c x y) 0);
      [done|].
    rewrite list_lookup_insert_eq by lia. intros [= <-]. by left.
  - unfold nth_cell. destruct (Z.ltb_spec j 0); [done|].
    rewrite list_lookup_insert_ne by lia. by right.
Qed.

Lemma Forall_nth_cell (P : Z -> Prop) (l : list Z) :
  (forall j v, nth_cell l j = Some v -> P v) -> Forall P l.
Proof.
  intros H. apply Forall_lookup. intros i v Hv. apply (H (Z.of_nat i)).
  unfold nth_cell. destruct (Z.ltb_spec (Z.of_nat i) 0); [lia|].
  by rewrite Nat2Z.id.
Qed.

Lemma setLevel_nonneg c x y v c' :
  Forall (fun l => 0 <= l) (levelByAutomatonIndex c) -> 0 <= v ->
  setLevelAtCoord c x y v = Some c' ->
  Forall (fun l => 0 <= l) (levelByAutomatonIndex c').
Proof.
  intros Hall Hv Hset. apply Forall_nth_cell. intros j l Hl.
  destruct (setLevel_lookup _ _ _ _ _ _ _ Hset Hl) as [[_ ->] | Hold]; [done|].
  by apply (nth_cell_Forall _ _ _ _ Hall Hold).
Qed.

Lemma setLevel_zero c x y v c' j :
  v <> 0 -> setLevelAtCoord c x y v = Some c' ->
  nth_cell (levelByAutomatonIndex c') j = Some 0 ->
  nth_cell (levelByAutomatonIndex c) j = Some 0.
Proof.
  intros Hv Hset Hl.
  by destruct (setLevel_lookup _ _ _ _ _ _ _ Hset Hl) as [[_ ?] | Hold].
Qed.

Lemma randomEats_keeps this x y nx ny c workingBuffer neighborLevel pr pg pb :
  Forall (fun l => 0 <= l) (levelByAutomatonIndex c) ->
  (forall t, this = Some t -> 0 < initialLevel t) ->
  0 < neighborLevel ->
  getLevelAtCoord c x y <> Some 0 ->
  reaches (classicKeeps c x y workingBuffer)
    (randomEats this x y nx ny c workingBuffer neighborLevel (pr, pg, pb)).
Proof.
  intros Hall Hinit Hnl Hme. unfold randomEats, setLevelThen.
  pose proof (jsAdd_succ_pos neighborLevel ltac:(lia)) as Hsucc.
  destruct (setLevelAtCoord c nx ny (jsAdd neighborLevel 1)) as [c1|] eqn:Hc1;
    [|done].
  assert (Hall1 : Forall (fun l => 0 <= l) (levelByAutomatonIndex c1)).
  { apply (setLevel_nonneg c nx ny (jsAdd neighborLevel 1)); [done|lia|done]. }
  pose proof (setLevelAtCoord_width _ _ _ _ _ Hc1) as Hw1.
  assert (Hme1 : getLevelAtCoord c1 x y <> Some 0).
  { intros Hz. unfold getLevelAtCoord, canvasCoordToLevelIndex in Hz, Hme.
    rewrite Hw1 in Hz.
    apply (setLevel_zero c nx ny (jsAdd neighborLevel 1) c1) in Hz;
      [done | lia | done]. }
  destruct this as [t|]; unfold reaches, classicKeeps; cbn [fst snd].
  2: { split; [done|]. split.
       - intros j.
         apply (setLevel_zero c nx ny (jsAdd neighborLevel 1)); [lia|done].
       - right. split; [done|]. by exists (Some (pr, pg, pb)). }
  pose proof (Hinit t eq_refl) as Ht.
  destruct (setLevelAtCoord c1 x y (initialLevel t)) as [c2|] eqn:Hc2; [|done].
  cbn [fst snd]. split; [|split].
  - by apply (setLevel_nonneg c1 x y (initialLevel t)); [|lia|].
  - intros j Hz.
    apply (setLevel_zero c nx ny (jsAdd neighborLevel 1) c1); [lia|done|].
    apply (setLevel_zero c1 x y (initialLevel t) c2); [lia|done|done].
  - right. split; [|by exists (Some (pr, pg, pb))].
    rewrite (getLevel_setLevel_eq c1 x y (initialLevel t) c2 Hc2).
    intros [= Hz]. lia.
Qed.

Lemma randomAlgorithm_keeps this x y nx ny c originalBuffer workingBuffer :
  Forall (fun l => 0 <= l) (levelByAutomatonIndex c) ->
  (forall t, this = Some t -> 0 < initialLevel t) ->
  (getLevelAtCoord c x y = Some 0 ->
   isPixelBlank c originalBuffer x y = Some true) ->
  reaches (classicKeeps c x y workingBuffer)
    (randomAlgorithm this x y nx ny c originalBuffer workingBuffer).
Proof.
  intros Hall Hinit Hblank.
  assert (Hsame : classicKeeps c x y workingBuffer (c, workingBuffer)).
  { split; [done|]. split; [done|]. by left. }
  unfold randomAlgorithm.
  destruct (getLevelAtCoord c nx ny) as [nl|] eqn:Hnl; [|done].
  destruct (Z.eqb_spec nl 0) as [->|Hnz]; [done|].
  assert (Hpos : 0 < nl).
  { pose proof (nth_cell_Forall _ _ _ _ Hall Hnl). simpl in *. lia. }
  destruct (getRGB c originalBuffer x y) as [[[r g] b]|] eqn:Hrgb; [|done].
  destruct (getRGB c originalBuffer nx ny) as [[[nr ng] nb]|]; [|done].
  destruct (Z.eqb_spec (r + g + b) 0) as [Hz|Hnb].
  { unfold setLevelThen.
    destruct (setLevelAtCoord c x y nl) as [c1|] eqn:Hc1; [|done].
    unfold reaches, classicKeeps. cbn [fst snd]. split; [|split].
    - by apply (setLevel_nonneg c x y nl); [|lia|].
    - intros j. by apply (setLevel_zero c x y nl).
    - right. split; [|by exists (Some (nr, ng, nb))].
      rewrite (getLevel_setLevel_eq c x y nl c1 Hc1). congruence. }
  assert (Hme : getLevelAtCoord c x y <> Some 0).
  { intros Hz. apply Hblank in Hz. unfold isPixelBlank in Hz.
    rewrite Hrgb in Hz. simpl in Hz. injection Hz as Hz.
    apply Z.eqb_eq in Hz. done. }
  destruct ((0 <? r) && (0 <? ng)); [by apply randomEats_keeps|].
  destruct ((0 <? g) && (0 <? nb)); [by apply randomEats_keeps|].
  destruct ((0 <? b) && (0 <? nr)); [by apply randomEats_keeps|].
  done.
Qed.

(** ** The invariant that a Classic pass keeps *)

Lemma inGrid_cells c x y : inGrid c x y -> (x, y) ∈ cells c.
Proof.
  intros [Hx Hy]. unfold cells. apply list_elem_of_bind.
  exists y. split; [|apply elem_of_seqZ; lia].
  apply list_elem_of_fmap. exists x. split; [done|]. apply elem_of_seqZ. lia.
Qed.

(** What the executable check [emptyIffLevelZero] says about each cell. *)
Lemma emptyIffLevelZero_spec c x y :
  emptyIffLevelZero c = true -> inGrid c x y ->
  exists blank level,
    isPixelBlank c (context c) x y = Some blank /\
    getLevelAtCoord c x y = Some level /\
    (blank = true <-> level = 0).
Proof.
  unfold emptyIffLevelZero. rewrite forallb_forall. intros Hall Hin.
  pose proof (Hall (x, y)) as Hxy. simpl in Hxy.
  rewrite <- list_elem_of_In in Hxy. specialize (Hxy (inGrid_cells c x y Hin)).
  destruct (isPixelBlank c (context c) x y) as [blank|]; [|done].
  destruct (getLevelAtCoord c x y) as [level|]; [|done].
  exists blank, level. split; [done|]. split; [done|].
  apply Bool.eqb_prop in Hxy. rewrite Hxy. apply Z.eqb_eq.
Qed.

Lemma isPixelBlank_width c c' buffer x y :
  width c' = width c -> isPixelBlank c' buffer x y = isPixelBlank c buffer x y.
Proof. intros Hw. unfold isPixelBlank. by rewrite (getRGB_width c c'). Qed.

Lemma getLevelAtCoord_same_index c x y x' y' :
  canvasCoordToLevelIndex c x' y' = canvasCoordToLevelIndex c x y ->
  getLevelAtCoord c x' y' = getLevelAtCoord c x y.
Proof. unfold getLevelAtCoord. by intros ->. Qed.

(** Under [update] a pass of the Waves rule leaves the canvas as it was. *)
Lemma waves_update_same_canvas random w :
  wfSim (self w) ->
  algorithm (self w) = "waves"%string ->
  holds (fun w' => uiCanvas (self w') = uiCanvas (self w)) (update random w).
Proof.
  intros Hwf Halg. unfold update.
  set (c0 := uiCanvas (self w)).
  set (Q := fun (c : Canvas) (wb : list Z) => c = c0 /\ wb = context c0).
  assert (Hstep : forall x y c workingBuffer nx ny,
      interior c0 x y -> wfCanvas c ->
      width c = width c0 -> height c = height c0 -> context c = context c0 ->
      length workingBuffer = length (context c0) ->
      inGrid c nx ny -> Q c workingBuffer ->
      reaches (fun r => Q r.1 r.2)
        (selectAlgorithm (self w) None x y nx ny c (context c0)
           workingBuffer)).
  { intros x y c wb nx ny _ _ _ _ _ _ _ [-> ->].
    unfold selectAlgorithm. rewrite Halg. simpl. unfold wavesAlgorithm.
    destruct (getLevelAtCoord c0 nx ny) as [nl|]; [|done].
    destruct (nl =? 0); [done|].
    by destruct (getLevelAtCoord c0 x y). }
  pose proof (updateWith_holds random None Q w Hwf (conj eq_refl eq_refl)
                Hstep) as Hup.
  destruct (updateWith random None w) as [w'|e w'|]; simpl; [| |done].
  - destruct Hup as (_ & _ & _ & _ & Hc & Hctx).
    rewrite <- (putImageData_context (uiCanvas (self w'))).
    by rewrite Hctx.
  - by destruct Hup as (_ & _ & _ & _ & _ & wb & Hc & _).
Qed.

(** A pass of the Classic rule keeps the cells at level 0 blank. *)
Lemma classic_keeps_level_zero_blank random thisArg w :
  wfSim (self w) ->
  algorithm (self w) <> "waves"%string ->
  (forall t, thisArg = Some t -> 0 < initialLevel t) ->
  levelZeroIsBlank (uiCanvas (self w)) ->
  holds (fun w' => levelZeroIsBlank (uiCanvas (self w')))
    (updateWith random thisArg w).
Proof.
  intros Hwf Halg Hinit [Hnonneg Hzero].
  set (c0 := uiCanvas (self w)) in *.
  set (Q := fun (c : Canvas) (wb : list Z) =>
              Forall (fun l => 0 <= l) (levelByAutomatonIndex c) /\
              forall x y, inGrid c0 x y -> getLevelAtCoord c x y = Some 0 ->
                isPixelBlank c0 wb x y = Some true /\
                isPixelBlank c0 (context c0) x y = Some true).
  assert (Hstep : forall x y c workingBuffer nx ny,
      interior c0 x y -> wfCanvas c ->
      width c = width c0 -> height c = height c0 -> context c = context c0 ->
      length workingBuffer = length (context c0) ->
      inGrid c nx ny -> Q c workingBuffer ->
      reaches (fun r => Q r.1 r.2)
        (selectAlgorithm (self w) thisArg x y nx ny c (context c0)
           workingBuffer)).
  { intros x y c wb nx ny Hxy Hwfc Hw Hh Hctx Hlen Hn [HQn HQz].
    unfold selectAlgorithm. apply String.eqb_neq in Halg. rewrite Halg.
    assert (Hblank : getLevelAtCoord c x y = Some 0 ->
                     isPixelBlank c (context c0) x y = Some true).
    { intros Hz. rewrite (isPixelBlank_width c0 c) by done.
      by apply (HQz x y (interior_inGrid _ _ _ Hxy)). }
    pose proof (randomAlgorithm_keeps thisArg x y nx ny c (context c0) wb
                  HQn Hinit Hblank) as Hkeeps.
    destruct (randomAlgorithm_shape thisArg x y nx ny c (context c0))
      as (res & Heq & Hframe & _).
    rewrite Heq in *.
    assert (Hnext : forall c' paint,
      levelsFrame c x y nx ny c' ->
      classicKeeps c x y wb (c', paintWith c x y paint wb) ->
      Q c' (paintWith c x y paint wb)).
    { intros c' paint (Hw' & _) (Hn' & Hz' & Hp'). cbn [fst snd] in *.
      split; [done|]. intros x' y' Hin' Hl'.
      assert (Hl : getLevelAtCoord c x' y' = Some 0).
      { unfold getLevelAtCoord, canvasCoordToLevelIndex in *.
        rewrite Hw' in Hl'. by apply Hz'. }
      destruct (HQz x' y' Hin' Hl) as [Hwb Horig]. split; [|done].
      destruct Hp' as [-> | [Hme [paint' ->]]]; [done|].
      destruct paint' as [[[pr pg] pb]|]; simpl; [|done].
      rewrite <- Hwb. unfold isPixelBlank.
      rewrite !(getRGB_width c c0) by done.
      rewrite getRGB_setRGB_ne; [done|].
      intros Hidx. apply Hme.
      rewrite <- Hl'. symmetry. apply getLevelAtCoord_same_index.
      unfold canvasCoordToLevelIndex in *. by rewrite Hw'. }
    destruct res as [[c' paint]|e [c' paint]|]; simpl in *; [| |done];
      by apply Hnext. }
  assert (Hinit0 : Q c0 (context c0)).
  { split; [done|]. intros x y Hin Hl. split; by apply Hzero. }
  pose proof (updateWith_holds random thisArg Q w Hwf Hinit0 Hstep) as Hup.
  destruct (updateWith random thisArg w) as [w'|e w'|]; simpl; [| |done].
  - destruct Hup as (_ & _ & Hw & Hh & HQn & HQz). split; [done|].
    intros x y Hin Hl.
    rewrite (isPixelBlank_width c0) by done.
    apply HQz; [|done]. unfold inGrid in *. by rewrite Hw, Hh in Hin.
  - destruct Hup as (_ & _ & Hw & Hh & Hctx & wb & HQn & HQz). split; [done|].
    intros x y Hin Hl.
    rewrite (isPixelBlank_width c0), Hctx by done.
    apply (HQz x y); [|done]. unfold inGrid in *. by rewrite Hw, Hh in Hin.
Qed.

Lemma chainWorld_wf : wfSim (self chainWorld).
Proof.
  apply (wfSim_config
           (self (construct (alwaysDraw Draw0) 0
                    (paintPoint 2 2 0 30 (newCanvas 5 4)))));
    try reflexivity.
  apply construct_wf, paintPoint_wf, newCanvas_wf; lia.
Qed.

Lemma emptyIffLevelZero_levelZeroIsBlank c :
  Forall (fun l => 0 <= l) (levelByAutomatonIndex c) ->
  emptyIffLevelZero c = true -> levelZeroIsBlank c.
Proof.
  intros Hall Hcheck. split; [done|]. intros x y Hin Hl.
  destruct (emptyIffLevelZero_spec c x y Hcheck Hin)
    as (blank & level & -> & Hlevel & Hiff).
  f_equal. apply Hiff. congruence.
Qed.

Lemma wavesPreyWorld_wf : wfSim (self wavesPreyWorld).
Proof.
  apply (wfSim_config (self (construct drawRight 0 (preyCanvas 40))));
    try reflexivity.
  apply construct_wf, paintPoint_wf, paintPoint_wf, newCanvas_wf; lia.
Qed.

(** C2, as the code has it.  Over a well-formed simulation:
    (1) in a pass of the Classic rule (the [algorithm] is not "waves"), with
    a positive [initialLevel] in the receiver of the rule if there is one
    ([update] calls the rule with none): if before the pass every level is
    non-negative and every cell at level 0 is blank, then the pass stays
    inside the arrays and the same holds after it, whether the pass completes
    or throws;
    (2) a call of [update] with the Waves rule stays inside the arrays and
    leaves the canvas, levels and pixels, as it was, so every cell is blank
    exactly when its level is 0 after the call if and only if this was so
    before it. *)
Theorem tick_keeps_level_zero_blank random thisArg w :
  wfSim (self w) ->
  (algorithm (self w) <> "waves"%string ->
   (forall t, thisArg = Some t -> 0 < initialLevel t) ->
   levelZeroIsBlank (uiCanvas (self w)) ->
   holds (fun w' => levelZeroIsBlank (uiCanvas (self w')))
     (updateWith random thisArg w)) /\
  (algorithm (self w) = "waves"%string ->
   holds (fun w' =>
            uiCanvas (self w') = uiCanvas (self w) /\
            emptyIffLevelZero (uiCanvas (self w')) =
              emptyIffLevelZero (uiCanvas (self w)))
     (update random w)).
Proof.
  intros Hwf. split.
  - intros Halg Hinit Hzero.
    by apply classic_keeps_level_zero_blank.
  - intros Halg.
    pose proof (waves_update_same_canvas random w Hwf Halg) as Hsame.
    destruct (update random w) as [w'|e w'|]; simpl in *; [| |done];
      by rewrite Hsame.
Qed.

Lemma tick_keeps_level_zero_blank_witness :
  holds (fun w' => levelZeroIsBlank (uiCanvas (self w')))
    (updateWith (alwaysDraw Draw0) None chainWorld) /\
  holds (fun w' =>
           uiCanvas (self w') = uiCanvas (self wavesPreyWorld) /\
           emptyIffLevelZero (uiCanvas (self w')) =
             emptyIffLevelZero (uiCanvas (self wavesPreyWorld)))
    (update drawRight wavesPreyWorld).
Proof.
  split.
  - destruct (tick_keeps_level_zero_blank (alwaysDraw Draw0) None chainWorld
                chainWorld_wf) as [Hclassic _].
    apply Hclassic.
    + discriminate.
    + discriminate.
    + apply emptyIffLevelZero_levelZeroIsBlank; [|reflexivity].
      repeat (constructor; [simpl; lia|]). constructor.
  - destruct (tick_keeps_level_zero_blank drawRight None wavesPreyWorld
                wavesPreyWorld_wf) as [_ Hwaves].
    apply Hwaves. reflexivity.
Defined.

(** C2 as stated fails.  In [chainWorld] every cell is blank exactly when
    its level is 0; one call of [update], with the Classic rule, completes
    and leaves the cell (1,2) blank at level 30: it was colonised from (1,1),
    whose colour in the original buffer is blank and whose level the same
    pass had set to 30. *)
Lemma empty_iff_level_zero_broken :
  emptyIffLevelZero (uiCanvas (self chainWorld)) = true /\
  exists w',
    update (alwaysDraw Draw0) chainWorld = Normal w' /\
    isPixelBlank (uiCanvas (self w')) (context (uiCanvas (self w'))) 1 2 =
      Some true /\
    getLevelAtCoord (uiCanvas (self w')) 1 2 = Some 30 /\
    emptyIffLevelZero (uiCanvas (self w')) = false.
Proof.
  split; [reflexivity|]. eexists. split; [vm_compute; reflexivity|].
  repeat split.
Qed.

(** The Waves rule as it is written, called on the simulation, which
    [update] never does: in [agingWorld], after 29 frames every cell is
    still blank exactly when its level is 0 and the red cell (1,1) is at
    level 1; the next frame leaves it red at level 0. *)
Lemma waves_rule_ages_to_level_zero :
  exists w29 w30,
    framesWith (alwaysDraw Draw2) boundThis 29 agingWorld = Some w29 /\
    emptyIffLevelZero (uiCanvas (self w29)) = true /\
    updateWith (alwaysDraw Draw2) (Some (self w29)) w29 = Normal w30 /\
    isPixelBlank (uiCanvas (self w30)) (context (uiCanvas (self w30))) 1 1 =
      Some false /\
    getLevelAtCoord (uiCanvas (self w30)) 1 1 = Some 0 /\
    emptyIffLevelZero (uiCanvas (self w30)) = false.
Proof.
  eexists. eexists. split; [vm_compute; reflexivity|].
  split; [reflexivity|]. split; [vm_compute; reflexivity|].
  repeat split.
Qed.

(** ** The receiver of the rule in [update] *)

(** X1. Under [update] a pass of the Waves rule changes neither a level nor
    a pixel: the rule is called without a receiver, so the first call that
    finds a neighbour at a level other than 0 throws a [TypeError] when it
    reads [this.edibleLevel], before it has written anything, and the calls
    before it returned at once.  The pass stays inside the arrays. *)
Theorem waves_update_changes_nothing random w :
  wfSim (self w) ->
  algorithm (self w) = "waves"%string ->
  holds (fun w' => uiCanvas (self w') = uiCanvas (self w)) (update random w).
Proof. apply waves_update_same_canvas. Qed.

Lemma waves_update_changes_nothing_witness :
  holds (fun w' => uiCanvas (self w') = uiCanvas (self wavesPreyWorld))
    (update drawRight wavesPreyWorld).
Proof.
  apply (waves_update_changes_nothing drawRight wavesPreyWorld).
  - apply wavesPreyWorld_wf.
  - reflexivity.
Defined.

(** C4. The failing input [classicPreyWorld]: the Classic rule, [initialLevel]
    40, the blue (C) cell (1,1) at level 30 and, picked as its neighbour, the
    red (A) cell (2,1) at level 30; red eats blue.  C4 says that (1,1) turns
    red at level 40 and that (2,1) goes to level 31.  [update] calls the rule
    without a receiver: the branch paints the working buffer, raises (2,1) to
    31, and throws a [TypeError] when it reads [this.initialLevel]; the
    working buffer is dropped, so (1,1) stays blue, at level 30.  The same
    pass with the simulation as the receiver of the rule does what C4
    says. *)
Theorem classic_predation_throws_in_update :
  (speciesAt (uiCanvas (self classicPreyWorld))
     (context (uiCanvas (self classicPreyWorld))) 1 1 = Some C /\
   speciesAt (uiCanvas (self classicPreyWorld))
     (context (uiCanvas (self classicPreyWorld))) 2 1 = Some A /\
   getLevelAtCoord (uiCanvas (self classicPreyWorld)) 2 1 = Some 30 /\
   initialLevel (self classicPreyWorld) = 40 /\
   pickNeighbor drawRight classicPreyWorld =
     Pick 1 0 (mkWorld (self classicPreyWorld) 258)) /\
  (exists w',
     update drawRight classicPreyWorld = Throw TypeError w' /\
     speciesAt (uiCanvas (self w')) (context (uiCanvas (self w'))) 1 1 =
       Some C /\
     getLevelAtCoord (uiCanvas (self w')) 1 1 = Some 30 /\
     getLevelAtCoord (uiCanvas (self w')) 2 1 = Some 31) /\
  (exists w',
     updateWith drawRight (boundThis classicPreyWorld) classicPreyWorld =
       Normal w' /\
     speciesAt (uiCanvas (self w')) (context (uiCanvas (self w'))) 1 1 =
       Some A /\
     getLevelAtCoord (uiCanvas (self w')) 1 1 = Some 40 /\
     getLevelAtCoord (uiCanvas (self w')) 2 1 = Some 31).
Proof.
  split; [by repeat split|]. split.
  - eexists. split; [vm_compute; reflexivity|]. by repeat split.
  - eexists. split; [vm_compute; reflexivity|]. by repeat split.
Qed.

(** C5. The failing input [wavesPreyWorld]: the Waves rule with
    [youngBanquetMode] on, [edibleLevel] 30 and [initialLevel] 40, the blue
    (C) cell (1,1) at level 30 and, picked as its neighbour, the red (A) cell
    (2,1) at level 40; red eats blue and the neighbour has the greater level.
    C5 says that (1,1) turns red and that both levels become 40.  [update]
    calls the rule without a receiver: the call throws a [TypeError] when it
    reads [this.edibleLevel], and nothing changes.  The same pass with the
    simulation as the receiver of the rule does what C5 says. *)
Theorem waves_predation_throws_in_update :
  (speciesAt (uiCanvas (self wavesPreyWorld))
     (context (uiCanvas (self wavesPreyWorld))) 1 1 = Some C /\
   speciesAt (uiCanvas (self wavesPreyWorld))
     (context (uiCanvas (self wavesPreyWorld))) 2 1 = Some A /\
   getLevelAtCoord (uiCanvas (self wavesPreyWorld)) 1 1 = Some 30 /\
   getLevelAtCoord (uiCanvas (self wavesPreyWorld)) 2 1 = Some 40 /\
   edibleLevel (self wavesPreyWorld) = 30 /\
   initialLevel (self wavesPreyWorld) = 40 /\
   youngBanquetMode (self wavesPreyWorld) = true /\
   pickNeighbor drawRight wavesPreyWorld =
     Pick 1 0 (mkWorld (self wavesPreyWorld) 258)) /\
  update drawRight wavesPreyWorld =
    Throw TypeError (mkWorld (self wavesPreyWorld) 258) /\
  (exists w',
     updateWith drawRight (boundThis wavesPreyWorld) wavesPreyWorld =
       Normal w' /\
     speciesAt (uiCanvas (self w')) (context (uiCanvas (self w'))) 1 1 =
       Some A /\
     getLevelAtCoord (uiCanvas (self w')) 1 1 = Some 40 /\
     getLevelAtCoord (uiCanvas (self w')) 2 1 = Some 40).
Proof.
  split; [by repeat split|]. split; [by vm_compute|].
  eexists. split; [vm_compute; reflexivity|]. by repeat split.
Qed.

(** ** The fixed cursor through a pass *)

Lemma forOf_count {T S} (I : Z -> S -> Prop) (m : Z) (items : list T)
    (body : T -> S -> completion S) s n0 :
  I n0 s ->
  (forall i s n, i ∈ items -> I n s ->
     match body i s with
     | Normal s' => I (n + m) s'
     | Throw _ s' => exists k, n < k <= n + m /\ I k s'
     | OutOfBounds => False
     end) ->
  0 <= m ->
  match forOf items body s with
  | Normal s' => I (n0 + m * Z.of_nat (length items)) s'
  | Throw _ s' =>
      exists k, n0 < k <= n0 + m * Z.of_nat (length items) /\ I k s'
  | OutOfBounds => False
  end.
Proof.
  intros Hs Hbody Hm. revert s n0 Hs.
  induction items as [|i rest IH]; intros s n0 Hs.
  { simpl. by rewrite Z.mul_0_r, Z.add_0_r. }
  cbn [forOf].
  pose proof (Hbody i s n0 (list_elem_of_here _ _) Hs) as Hi.
  destruct (body i s) as [s'|e s'|]; [| |done].
  - assert (Hrest : forall j s n, j ∈ rest -> I n s ->
              match body j s with
              | Normal s' => I (n + m) s'
              | Throw _ s' => exists k, n < k <= n + m /\ I k s'
              | OutOfBounds => False
              end).
    { intros j s'' n Hj. apply Hbody. by apply list_elem_of_further. }
    specialize (IH Hrest s' (n0 + m) Hi).
    destruct (forOf rest body s') as [s''|e s''|]; [| |done].
    + replace (n0 + m * Z.of_nat (length (i :: rest)))
        with (n0 + m + m * Z.of_nat (length rest)) by (simpl length; lia).
      done.
    + destruct IH as (k & Hk & HI). exists k. split; [|done].
      simpl length. nia.
  - destruct Hi as (k & Hk & HI). exists k. split; [|done].
    simpl length. nia.
Qed.

Lemma length_range_interior n :
  2 <= n -> Z.of_nat (length (range 1 (n - 1))) = n - 2.
Proof.
  intros Hn. unfold range. destruct (Z.ltb_spec 1 (n - 1)).
  - rewrite length_seqZ. lia.
  - rewrite length_fmap, length_seqZ. lia.
Qed.

Lemma cellStep_fixed_cursor random thisArg (algorithm : rule) originalBuffer
    y x st :
  neighborPickingMode (self st.1) = NEIGHBOR_PICKING_MODE_FIXED ->
  wfSim (self st.1) ->
  reaches
    (fun st' =>
       fixedNeighborPicksIndex (self st'.1) =
       (fixedNeighborPicksIndex (self st.1) + 1) mod 8)
    (cellStep random thisArg algorithm originalBuffer y x st).
Proof.
  destruct st as [w wb]. simpl. intros Hmode Hwf. unfold cellStep.
  rewrite fixed_pick; [|done|apply Hwf..].
  cbn [self drawn set_fixedNeighborPicksIndex uiCanvas].
  by destruct (algorithm _ _ _ _ _ _ _ _) as [[c' wb']|e [c' wb']|].
Qed.

(** In the fixed selection a pass that completes moves the cursor by the
    number of interior cells, from where the pass before left it; a pass
    that throws has moved it by the number of cells it reached. *)
Lemma fixed_cursor_after_update random thisArg w :
  wfSim (self w) ->
  neighborPickingMode (self w) = NEIGHBOR_PICKING_MODE_FIXED ->
  isPaused (self w) = false ->
  match updateWith random thisArg w with
  | Normal w' =>
      fixedNeighborPicksIndex (self w') =
      (fixedNeighborPicksIndex (self w) +
       (width (uiCanvas (self w)) - 2) * (height (uiCanvas (self w)) - 2))
      mod 8
  | Throw _ w' =>
      exists k,
        0 < k <= (width (uiCanvas (self w)) - 2) *
                 (height (uiCanvas (self w)) - 2) /\
        fixedNeighborPicksIndex (self w') =
        (fixedNeighborPicksIndex (self w) + k) mod 8
  | OutOfBounds => False
  end.
Proof.
  intros Hwf Hmode Hrun. unfold updateWith. rewrite Hrun.
  unfold doWork, getUnderlyingBufferCopy, work.
  set (c0 := uiCanvas (self w)). set (orig := context c0).
  set (i0 := fixedNeighborPicksIndex (self w)).
  set (I := fun (k : Z) (st : World * list Z) =>
              passInv (fun _ _ => True) (self w) orig st /\
              fixedNeighborPicksIndex (self st.1) = (i0 + k) mod 8).
  assert (Hlen : Z.of_nat (length orig) = 4 * (width c0 * height c0))
    by apply Hwf.
  assert (Hwfc : wfCanvas c0) by apply Hwf.
  assert (Hcell : forall y x st n,
    interior c0 x y -> I n st ->
    match cellStep random thisArg (selectAlgorithm (self w)) orig y x st with
    | Normal st' => I (n + 1) st'
    | Throw _ st' => exists k, n < k <= n + 1 /\ I k st'
    | OutOfBounds => False
    end).
  { intros y x st n Hxy [Hinv Hidx].
    assert (Hq : forall x y c workingBuffer nx ny,
      interior (uiCanvas (self w)) x y -> wfCanvas c ->
      width c = width (uiCanvas (self w)) ->
      height c = height (uiCanvas (self w)) ->
      context c = context (uiCanvas (self w)) ->
      length workingBuffer = length orig -> inGrid c nx ny -> True ->
      reaches (fun r => True)
        (selectAlgorithm (self w) thisArg x y nx ny c orig workingBuffer)).
    { intros. by destruct (selectAlgorithm _ _ _ _ _ _ _ _ _). }
    pose proof (cellStep_holds random thisArg (fun _ _ => True) (self w) orig
                  Hlen Hq x y st Hxy Hinv) as Hh.
    assert (Hmode' : neighborPickingMode (self st.1) =
                     NEIGHBOR_PICKING_MODE_FIXED).
    { destruct Hinv as (_ & Hcfg & _).
      destruct Hcfg as (_ & _ & _ & -> & _). done. }
    pose proof (cellStep_fixed_cursor random thisArg
                  (selectAlgorithm (self w)) orig y x st Hmode'
                  ltac:(apply Hinv)) as Hc.
    assert (Hnext : (fixedNeighborPicksIndex (self st.1) + 1) mod 8 =
                    (i0 + (n + 1)) mod 8).
    { rewrite Hidx, Zplus_mod_idemp_l. f_equal. lia. }
    destruct (cellStep random thisArg (selectAlgorithm (self w)) orig y x st)
      as [st'|e st'|]; simpl in *; [| |done].
    - split; [done|]. congruence.
    - exists (n + 1). split; [lia|]. split; [done|]. congruence. }
  assert (Hstart : I 0 (w, orig)).
  { split.
    - unfold passInv. simpl. pose proof (sameConfig_refl (self w)). auto 10.
    - simpl. rewrite Z.add_0_r, Z.mod_small; [done|]. apply Hwf. }
  pose proof (forOf_count I (width c0 - 2) (range 1 (height c0 - 1))
    (fun y => forOf (range 1 (width c0 - 1))
                (fun x => cellStep random thisArg (selectAlgorithm (self w))
                            orig y x))
    (w, orig) 0 Hstart) as Hpass.
  rewrite (length_range_interior (height c0)) in Hpass by apply Hwfc.
  assert (Hrows : forall y st n,
    y ∈ range 1 (height c0 - 1) -> I n st ->
    match forOf (range 1 (width c0 - 1))
            (fun x => cellStep random thisArg (selectAlgorithm (self w))
                        orig y x) st with
    | Normal st' => I (n + (width c0 - 2)) st'
    | Throw _ st' => exists k, n < k <= n + (width c0 - 2) /\ I k st'
    | OutOfBounds => False
    end).
  { intros y st n Hy Hst.
    pose proof (forOf_count I 1 (range 1 (width c0 - 1))
      (fun x => cellStep random thisArg (selectAlgorithm (self w)) orig y x)
      st n Hst) as Hrow.
    rewrite (length_range_interior (width c0)) in Hrow by apply Hwfc.
    rewrite Z.mul_1_l in Hrow. apply Hrow; [|lia].
    intros x st' n' Hx Hst'. apply Hcell; [|done].
    split; apply range_interior; (apply Hwfc || done). }
  specialize (Hpass Hrows ltac:(pose proof (wf_width _ Hwfc); lia)).
  destruct (forOf (range 1 (height c0 - 1)) _ (w, orig))
    as [[w' wb]|e [w' wb]|]; [| |done].
  - destruct Hpass as [_ Hidx]. simpl in *. rewrite Hidx. f_equal; lia.
  - destruct Hpass as (k & Hk & _ & Hidx). simpl in *.
    exists k. split; [lia|done].
Qed.

(** *** The two cursors *)

Lemma otherCursorKept_refl w : otherCursorKept w w.
Proof. by repeat split. Qed.

Lemma otherCursorKept_trans w1 w2 w3 :
  otherCursorKept w1 w2 -> otherCursorKept w2 w3 -> otherCursorKept w1 w3.
Proof.
  intros (Hm & Hr & Hf) (Hm' & Hr' & Hf'). rewrite Hm in *.
  split; [congruence|]. split.
  - intros Hne. rewrite Hr', Hr; done.
  - intros Hne. rewrite Hf', Hf; done.
Qed.

(** A pick moves the cursor of the selected mode and nothing else. *)
Lemma pickNeighbor_otherCursor random w dx dy w' :
  pickNeighbor random w = Pick dx dy w' -> otherCursorKept w w'.
Proof.
  unfold pickNeighbor.
  destruct (Z.eqb_spec (neighborPickingMode (self w))
              NEIGHBOR_PICKING_MODE_RANDOM) as [Hr|Hr].
  { intros [= _ _ <-]. by repeat split. }
  destruct (Z.eqb_spec (neighborPickingMode (self w))
              NEIGHBOR_PICKING_MODE_FIXED) as [Hf|Hf].
  { destruct (nth_cell _ _) as [[dx' dy']|]; [|done].
    intros [= _ _ <-]. by repeat split. }
  destruct (Z.eqb_spec (neighborPickingMode (self w))
              NEIGHBOR_PICKING_MODE_PRE_RANDOM) as [Hp|Hp]; [|done].
  destruct (nth_cell _ _) as [[dx' dy']|]; [|done].
  intros [= _ _ <-]. by repeat split.
Qed.

Lemma picks_otherCursor random n : forall w offsets w',
  picks random n w = Some (offsets, w') -> otherCursorKept w w'.
Proof.
  induction n as [|n IH]; intros w offsets w'; simpl.
  { intros [= _ <-]. apply otherCursorKept_refl. }
  destruct (pickNeighbor random w) as [dx dy w1| |] eqn:Hpick; [|done..].
  destruct (picks random n w1) as [[offsets1 w2]|] eqn:Hpicks; [|done].
  intros [= _ <-].
  apply (otherCursorKept_trans w w1 w2).
  - by apply (pickNeighbor_otherCursor random w dx dy).
  - by apply (IH w1 offsets1).
Qed.

Lemma forOf_reaches {T S} (I : S -> Prop) (items : list T)
    (body : T -> S -> completion S) s :
  I s -> (forall i s, I s -> reaches I (body i s)) ->
  reaches I (forOf items body s).
Proof.
  revert s. induction items as [|i rest IH]; intros s Hs Hbody; simpl; [done|].
  pose proof (Hbody i s Hs) as Hi.
  destruct (body i s) as [s'|e s'|]; simpl in *; [|done..].
  by apply IH.
Qed.

Lemma cellStep_otherCursor random thisArg (algorithm : rule) originalBuffer
    y x w0 st :
  otherCursorKept w0 st.1 ->
  reaches (fun st' => otherCursorKept w0 st'.1)
    (cellStep random thisArg algorithm originalBuffer y x st).
Proof.
  destruct st as [w wb]. simpl. intros Hkept. unfold cellStep.
  destruct (pickNeighbor random w) as [dx dy w1| |] eqn:Hpick; [|done..].
  apply pickNeighbor_otherCursor in Hpick.
  pose proof (otherCursorKept_trans _ _ _ Hkept Hpick) as Hkept1.
  by destruct (algorithm _ _ _ _ _ _ _ _) as [[c' wb']|e [c' wb']|].
Qed.

(** A pass moves the cursor of the selected mode and not the other one,
    whether it completes or throws. *)
Lemma updateWith_otherCursor random thisArg w :
  reaches (otherCursorKept w) (updateWith random thisArg w).
Proof.
  unfold updateWith. destruct (isPaused (self w)).
  { apply otherCursorKept_refl. }
  unfold doWork, work.
  pose proof (forOf_reaches (fun st : World * list Z => otherCursorKept w st.1)
                (range 1 (height (uiCanvas (self w)) - 1))
                (fun y =>
                   forOf (range 1 (width (uiCanvas (self w)) - 1))
                     (fun x =>
                        cellStep random thisArg (selectAlgorithm (self w))
                          (getUnderlyingBufferCopy (uiCanvas (self w))) y x))
                (w, getUnderlyingBufferCopy (uiCanvas (self w)))
                (otherCursorKept_refl w)) as Hpass.
  destruct (forOf (range 1 (height (uiCanvas (self w)) - 1)) _ _)
    as [[w' wb]|e [w' wb]|]; simpl in *; try done.
  - apply Hpass. intros y st Hst. apply forOf_reaches; [done|].
    intros x st' Hst'. by apply cellStep_otherCursor.
  - apply Hpass. intros y st Hst. apply forOf_reaches; [done|].
    intros x st' Hst'. by apply cellStep_otherCursor.
Qed.

(** C9. A simulation as constructed, with the fixed selection chosen, yields
    over [n] successive picks the ring (1,1), (1,0), (1,-1), (0,-1), (-1,-1),
    (-1,0), (-1,1), (0,1) repeated: the [k]-th pick is the entry [k mod 8],
    whatever the random draws and the canvas.  The cursor then stands at
    [n mod 8] (one step per pick, wrapped by the mask 7 = 8 - 1; nothing else
    moves it), and the cursor of the pre-drawn random ring has not moved.
    Conversely, [n] picks from the pre-drawn random ring move its cursor to
    [n mod 128] and leave the cursor of the fixed ring where it was.  And a
    pass does not reset the cursor, neither per row nor per generation: a
    pass in the fixed selection over a well-formed simulation that completes
    has moved the cursor by the number of interior cells from where it
    stood, and one that throws by the number of cells it reached.
    The two cursors are independent from any state, whatever their values
    and the mode: any number of picks, and any pass, whether it completes or
    throws, leave the mode as it was and move the cursor of the pre-drawn
    random ring only in the pre-random mode and the cursor of the fixed ring
    only in the fixed mode; so after picks in one mode, a change of mode and
    picks in the other, each cursor has advanced by the number of its own
    picks. *)
Theorem fixed_cycle_picks random from canvas n :
  (exists w',
      picks random n (constructWith "fixed" random from canvas) =
        Some ((fun k : nat => ringAt (Z.of_nat k mod 8)) <$> seq 0 n, w') /\
      fixedNeighborPicksIndex (self w') = Z.of_nat n mod 8 /\
      randomNeighborPicksIndex (self w') = 0) /\
  (exists offsets w',
      picks random n (constructWith "pre-random" random from canvas) =
        Some (offsets, w') /\
      randomNeighborPicksIndex (self w') = Z.of_nat n mod 128 /\
      fixedNeighborPicksIndex (self w') = 0) /\
  fixedNeighborMask (self (constructWith "fixed" random from canvas)) = 8 - 1 /\
  ringAt <$> [0; 1; 2; 3; 4; 5; 6; 7] =
    [(1, 1); (1, 0); (1, -1); (0, -1); (-1, -1); (-1, 0); (-1, 1); (0, 1)] /\
  (forall thisArg w,
      wfSim (self w) ->
      neighborPickingMode (self w) = NEIGHBOR_PICKING_MODE_FIXED ->
      isPaused (self w) = false ->
      match updateWith random thisArg w with
      | Normal w' =>
          fixedNeighborPicksIndex (self w') =
          (fixedNeighborPicksIndex (self w) +
           (width (uiCanvas (self w)) - 2) * (height (uiCanvas (self w)) - 2))
          mod 8
      | Throw _ w' =>
          exists k,
            0 < k <= (width (uiCanvas (self w)) - 2) *
                     (height (uiCanvas (self w)) - 2) /\
            fixedNeighborPicksIndex (self w') =
            (fixedNeighborPicksIndex (self w) + k) mod 8
      | OutOfBounds => False
      end) /\
  (forall m w offsets w',
      picks random m w = Some (offsets, w') -> otherCursorKept w w') /\
  (forall thisArg w, reaches (otherCursorKept w) (updateWith random thisArg w)) /\
  (forall m w,
      wfSim (self w) ->
      neighborPickingMode (self w) = NEIGHBOR_PICKING_MODE_FIXED ->
      exists offsets1 w1 offsets2 w2,
        picks random n w = Some (offsets1, w1) /\
        picks random m
          (mkWorld (neighborSelectionChange "pre-random" (self w1)) (drawn w1)) =
          Some (offsets2, w2) /\
        fixedNeighborPicksIndex (self w2) =
          (fixedNeighborPicksIndex (self w) + Z.of_nat n) mod 8 /\
        randomNeighborPicksIndex (self w2) =
          (randomNeighborPicksIndex (self w) + Z.of_nat m) mod 128).
Proof.
  split; [|split; [|split; [|split; [|split; [|split; [|split]]]]]].
  - eexists. split; [|split].
    + rewrite fixed_picks; done.
    + simpl. reflexivity.
    + reflexivity.
  - destruct (pre_random_picks random n
                (constructWith "pre-random" random from canvas))
      as (offsets & Hp); try done.
    exists offsets. eexists. split; [exact Hp|]. split; reflexivity.
  - reflexivity.
  - reflexivity.
  - intros thisArg w. apply fixed_cursor_after_update.
  - intros m. apply picks_otherCursor.
  - intros thisArg w. apply updateWith_otherCursor.
  - intros m w Hwf Hmode.
    pose proof (fixed_picks random n w Hmode (wf_fixedPicks _ Hwf)
                  (wf_fixedMask _ Hwf) (wf_fixedIndex _ Hwf)) as Hp1.
    destruct (pre_random_picks random m
                (mkWorld
                   (neighborSelectionChange "pre-random"
                      (set_fixedNeighborPicksIndex
                         ((fixedNeighborPicksIndex (self w) + Z.of_nat n) mod 8)
                         (self w)))
                   (drawn w)))
      as (offsets2 & Hp2);
      [reflexivity|apply Hwf|apply Hwf|apply Hwf|].
    eexists _, _, offsets2, _. split; [exact Hp1|]. split; [exact Hp2|].
    split; reflexivity.
Qed.

Lemma fixed_cycle_picks_witness :
  match updateWith (alwaysDraw Draw0) None chainWorld with
  | Normal w' =>
      fixedNeighborPicksIndex (self w') =
      (fixedNeighborPicksIndex (self chainWorld) +
       (width (uiCanvas (self chainWorld)) - 2) *
       (height (uiCanvas (self chainWorld)) - 2)) mod 8
  | Throw _ w' =>
      exists k,
        0 < k <= (width (uiCanvas (self chainWorld)) - 2) *
                 (height (uiCanvas (self chainWorld)) - 2) /\
        fixedNeighborPicksIndex (self w') =
        (fixedNeighborPicksIndex (self chainWorld) + k) mod 8
  | OutOfBounds => False
  end.
Proof.
  destruct (fixed_cycle_picks (alwaysDraw Draw0) 0 (newCanvas 3 3) 0)
    as (_ & _ & _ & _ & Hpass & _).
  apply (Hpass None chainWorld).
  - apply chainWorld_wf.
  - reflexivity.
  - reflexivity.
Defined.

Lemma updateWith_in_bounds_witness :
  holds (fun w' => wfSim (self w') /\ sameConfig (self wavesPreyWorld) (self w'))
    (updateWith drawRight None wavesPreyWorld).
Proof.
  apply (updateWith_in_bounds drawRight None wavesPreyWorld).
  apply wavesPreyWorld_wf.
Defined.

(** ** The remaining branches of the two rules *)

(** X5. Colonisation.  When the self cell is blank in the original buffer
    and the neighbour's level is not 0, the Classic rule, with any receiver,
    paints the self cell in the working buffer with the colour the neighbour
    has in the original buffer and gives it the neighbour's level as it
    stands in the live level array; no other level changes, the neighbour's
    included.  The Waves rule called on the simulation does the same when
    the self cell's level is at most [edibleLevel]. *)
Theorem colonisation this x y nx ny canvas originalBuffer workingBuffer
    myLevel neighborLevel nr ng nb :
  length workingBuffer = length originalBuffer ->
  getLevelAtCoord canvas x y = Some myLevel ->
  getLevelAtCoord canvas nx ny = Some neighborLevel ->
  neighborLevel <> 0 ->
  isPixelBlank canvas originalBuffer x y = Some true ->
  getRGB canvas originalBuffer nx ny = Some (nr, ng, nb) ->
  exists canvas' workingBuffer',
    randomAlgorithm this x y nx ny canvas originalBuffer workingBuffer =
      Normal (canvas', workingBuffer') /\
    (forall t, this = Some t -> myLevel <= edibleLevel t ->
       wavesAlgorithm this x y nx ny canvas originalBuffer workingBuffer =
         Normal (canvas', workingBuffer')) /\
    getRGB canvas workingBuffer' x y =
      Some (clampByte nr, clampByte ng, clampByte nb) /\
    getLevelAtCoord canvas' x y = Some neighborLevel /\
    getLevelAtCoord canvas' nx ny = Some neighborLevel /\
    (forall x' y',
        canvasCoordToLevelIndex canvas x' y' <>
          canvasCoordToLevelIndex canvas x y ->
        getLevelAtCoord canvas' x' y' = getLevelAtCoord canvas x' y' /\
        getRGB canvas workingBuffer' x' y' = getRGB canvas workingBuffer x' y').
Proof.
  intros Hlen Hme Hnb Hnz Hblank Hnrgb.
  unfold isPixelBlank in Hblank.
  destruct (getRGB canvas originalBuffer x y) as [[[r g] b]|] eqn:Hrgb;
    [|done].
  simpl in Hblank. injection Hblank as Hsum.
  destruct (setLevelThen_Some canvas x y neighborLevel
              (fun canvas0 =>
                 Normal (canvas0, setRGB canvas workingBuffer x y nr ng nb)))
    as (c1 & Hc1 & Hk); [by eexists|].
  exists c1, (setRGB canvas workingBuffer x y nr ng nb).
  destruct (Z.eqb_spec neighborLevel 0) as [|_]; [done|].
  split; [|split; [|split; [|split; [|split]]]].
  - unfold randomAlgorithm. rewrite Hnb.
    destruct (Z.eqb_spec neighborLevel 0) as [|_]; [done|].
    by rewrite Hrgb, Hnrgb, Hsum.
  - intros t -> Hedible. unfold wavesAlgorithm. rewrite Hnb.
    destruct (Z.eqb_spec neighborLevel 0) as [|_]; [done|].
    rewrite Hme. destruct (Z.ltb_spec (edibleLevel t) myLevel); [lia|].
    by rewrite Hrgb, Hnrgb, Hsum.
  - apply getRGB_in_range in Hrgb as [H0 H2].
    apply getRGB_setRGB_eq; [done|]. by rewrite Hlen.
  - by apply (getLevel_setLevel_eq canvas).
  - destruct (Z.eq_dec (canvasCoordToLevelIndex canvas nx ny)
                (canvasCoordToLevelIndex canvas x y)) as [Heq|Hne].
    + rewrite (getLevelAtCoord_same_index c1 x y nx ny).
      * by apply (getLevel_setLevel_eq canvas).
      * apply setLevelAtCoord_width in Hc1.
        unfold canvasCoordToLevelIndex in *. by rewrite Hc1.
    + rewrite <- Hnb. by apply (getLevel_setLevel_ne canvas x y neighborLevel).
  - intros x' y' Hne. split.
    + by apply (getLevel_setLevel_ne canvas x y neighborLevel).
    + by apply getRGB_setRGB_ne.
Qed.

Lemma colonisation_witness :
  let canvas := paintPoint 2 1 0 30 (newCanvas 3 3) in
  exists canvas' workingBuffer',
    randomAlgorithm None 1 1 2 1 canvas (context canvas) (context canvas) =
      Normal (canvas', workingBuffer') /\
    getRGB canvas workingBuffer' 1 1 = Some (255, 0, 0) /\
    getLevelAtCoord canvas' 1 1 = Some 30 /\
    getLevelAtCoord canvas' 2 1 = Some 30.
Proof.
  intros canvas.
  destruct (colonisation None 1 1 2 1 canvas (context canvas) (context canvas)
              0 30 255 0 0)
    as (c' & wb' & Hrun & _ & Hrgb & Hme & Hnb & _);
    try solve [reflexivity | discriminate].
  exists c', wb'. done.
Defined.

(** The Classic rule on a self cell that holds a species, beside a neighbour
    whose species does not eat it. *)
Lemma classic_keeps_species this x y nx ny canvas originalBuffer workingBuffer
    me neighbor :
  is_Some (getLevelAtCoord canvas nx ny) ->
  speciesAt canvas originalBuffer x y = Some me ->
  me <> Empty ->
  speciesAt canvas originalBuffer nx ny = Some neighbor ->
  eatenBy me neighbor = false ->
  randomAlgorithm this x y nx ny canvas originalBuffer workingBuffer =
    Normal (canvas, workingBuffer).
Proof.
  intros [nl Hnb] (r & g & b & Hrgb & Hsp)%speciesAt_Some Hne
    (nr & ng & nb & Hnrgb & Hnsp)%speciesAt_Some Heat.
  unfold randomAlgorithm. rewrite Hnb, Hrgb, Hnrgb.
  destruct (nl =? 0); [done|].
  apply speciesOf_Some in Hsp. apply speciesOf_Some in Hnsp.
  destruct me; [done| | |]; destruct neighbor; try discriminate Heat;
    destruct Hsp as (? & ? & ?); destruct Hnsp as (? & ? & ?); subst;
    repeat match goal with
           | |- context [?a + ?b + ?c =? 0] =>
               destruct (Z.eqb_spec (a + b + c) 0); [lia|]
           | |- context [0 <? ?a] => destruct (Z.ltb_spec 0 a); try lia
           end; simpl; try done.
Qed.

(** X6. The Classic rule has no aging: when the self cell holds a species
    and the neighbour, whatever its level, is blank, of the same species or
    of the species that the self cell eats, the call changes nothing,
    neither a level nor the working buffer, for any receiver. *)
Theorem classic_no_aging this x y nx ny canvas originalBuffer workingBuffer
    me neighbor :
  is_Some (getLevelAtCoord canvas nx ny) ->
  speciesAt canvas originalBuffer x y = Some me ->
  me <> Empty ->
  speciesAt canvas originalBuffer nx ny = Some neighbor ->
  eatenBy me neighbor = false ->
  randomAlgorithm this x y nx ny canvas originalBuffer workingBuffer =
    Normal (canvas, workingBuffer).
Proof. apply classic_keeps_species. Qed.

Lemma classic_no_aging_witness :
  let canvas := pairCanvas 0 30 2 30 in
  randomAlgorithm None 1 1 2 1 canvas (context canvas) (context canvas) =
    Normal (canvas, context canvas).
Proof.
  intros canvas.
  apply (classic_no_aging None 1 1 2 1 canvas (context canvas)
           (context canvas) A C);
    solve [reflexivity | discriminate | by eexists].
Defined.



(** ** The level store and the pixel buffers *)

Lemma inGrid_index_ne c x y x' y' :
  inGrid c x y -> inGrid c x' y' -> (x', y') <> (x, y) ->
  canvasCoordToLevelIndex c x' y' <> canvasCoordToLevelIndex c x y.
Proof.
  intros Hin Hin' Hne Heq.
  destruct (inGrid_index_inj c x' y' x y Hin' Hin Heq) as [-> ->]. done.
Qed.

(** X8. The level store on a well-formed canvas: writing the level of a cell
    of the grid succeeds, reading it back gives the level written, and the
    level of every other cell of the grid, the size and the pixel data stay.
    Coordinates are not checked against the row: the cell [(x + width, y)] is
    the cell [(x, y + 1)]. *)
Theorem level_store_round_trip c x y level :
  wfCanvas c -> inGrid c x y ->
  (exists c',
     setLevelAtCoord c x y level = Some c' /\
     getLevelAtCoord c' x y = Some level /\
     (forall x' y', inGrid c x' y' -> (x', y') <> (x, y) ->
                    getLevelAtCoord c' x' y' = getLevelAtCoord c x' y') /\
     width c' = width c /\ height c' = height c /\
     context c' = context c /\
     length (levelByAutomatonIndex c') = length (levelByAutomatonIndex c)) /\
  (forall x' y',
     getLevelAtCoord c (x' + width c) y' = getLevelAtCoord c x' (y' + 1)).
Proof.
  intros Hwf Hin. split.
  - destruct (setLevelAtCoord_is_Some c x y level (inGrid_level c x y Hwf Hin))
      as [c' Hc'].
    exists c'. split; [done|]. split; [by apply (getLevel_setLevel_eq c)|].
    split; [|split; [|split; [|split]]].
    + intros x' y' Hin' Hne.
      apply (getLevel_setLevel_ne c x y level); [done|].
      by apply inGrid_index_ne.
    + by apply (setLevelAtCoord_width c x y level).
    + by apply (setLevelAtCoord_height c x y level).
    + by apply (setLevelAtCoord_context c x y level).
    + by apply (setLevelAtCoord_length c x y level).
  - intros x' y'. apply getLevelAtCoord_same_index.
    unfold canvasCoordToLevelIndex. lia.
Qed.

Lemma level_store_round_trip_witness :
  (exists c',
     setLevelAtCoord (newCanvas 3 3) 1 1 30 = Some c' /\
     getLevelAtCoord c' 1 1 = Some 30 /\
     getLevelAtCoord c' 2 1 = getLevelAtCoord (newCanvas 3 3) 2 1) /\
  getLevelAtCoord (newCanvas 3 3) (0 + 3) 1 =
    getLevelAtCoord (newCanvas 3 3) 0 2.
Proof.
  destruct (level_store_round_trip (newCanvas 3 3) 1 1 30)
    as ((c' & Hset & Hget & Hothers & _) & Hwrap).
  - apply newCanvas_wf; lia.
  - unfold inGrid. simpl. lia.
  - split; [|exact (Hwrap 0 1)].
    exists c'. split; [done|]. split; [done|].
    apply Hothers; [unfold inGrid; simpl; lia|discriminate].
Defined.

Lemma storeByte_outside buffer i v :
  i < 0 \/ Z.of_nat (length buffer) <= i -> storeByte buffer i v = buffer.
Proof.
  intros H. unfold storeByte. destruct (Z.ltb_spec i 0); [done|].
  apply list_insert_ge. lia.
Qed.

(** X9. The pixel store on a buffer of the canvas's size: a pixel written at
    a cell of the grid reads back with each channel clamped to 0..255; the
    pixel of every other cell of the grid, every alpha byte and the length
    of the buffer stay.  A store at coordinates whose bytes all fall outside
    the buffer is ignored. *)
Theorem pixel_store_round_trip c buffer x y r g b :
  wfCanvas c -> Z.of_nat (length buffer) = 4 * (width c * height c) ->
  inGrid c x y ->
  getRGB c (setRGB c buffer x y r g b) x y =
    Some (clampByte r, clampByte g, clampByte b) /\
  (forall x' y', inGrid c x' y' -> (x', y') <> (x, y) ->
     getRGB c (setRGB c buffer x y r g b) x' y' = getRGB c buffer x' y') /\
  (forall j, nth_cell (setRGB c buffer x y r g b) (4 * j + 3) =
             nth_cell buffer (4 * j + 3)) /\
  length (setRGB c buffer x y r g b) = length buffer /\
  (forall x' y',
     canvasCoordToDataIndex c x' y' + 2 < 0 \/
     Z.of_nat (length buffer) <= canvasCoordToDataIndex c x' y' ->
     setRGB c buffer x' y' r g b = buffer).
Proof.
  intros Hwf Hlen Hin.
  pose proof (inGrid_index c x y Hwf Hin) as Hi.
  unfold canvasCoordToLevelIndex in Hi.
  split; [|split; [|split; [|split]]].
  - apply getRGB_setRGB_eq; unfold canvasCoordToDataIndex; lia.
  - intros x' y' Hin' Hne. apply getRGB_setRGB_ne. by apply inGrid_index_ne.
  - intros j. apply nth_cell_setRGB_ne; unfold canvasCoordToDataIndex; lia.
  - apply length_setRGB.
  - intros x' y' Hout. unfold setRGB.
    rewrite (storeByte_outside buffer) by lia.
    rewrite (storeByte_outside buffer) by lia.
    apply storeByte_outside. lia.
Qed.

Lemma pixel_store_round_trip_witness :
  let c := newCanvas 3 3 in
  getRGB c (setRGB c (context c) 1 1 300 (-5) 7) 1 1 = Some (255, 0, 7) /\
  getRGB c (setRGB c (context c) 1 1 300 (-5) 7) 2 1 =
    getRGB c (context c) 2 1 /\
  setRGB c (context c) 0 3 300 (-5) 7 = context c.
Proof.
  intros c.
  destruct (pixel_store_round_trip c (context c) 1 1 300 (-5) 7)
    as (Hget & Hothers & _ & _ & Hout).
  - apply newCanvas_wf; lia.
  - reflexivity.
  - unfold inGrid. simpl. lia.
  - split; [exact Hget|]. split.
    + apply Hothers; [unfold inGrid; simpl; lia|discriminate].
    + apply Hout. right. subst c. vm_compute. discriminate.
Defined.

(** ** The generator [range] *)

(** X10. [range(begin, end)] counts upwards from [begin] to [end - 1] when
    [begin < end], and otherwise downwards from [begin] to [end + 1]: it
    yields [|end - begin|] values, never [end], and nothing only when
    [begin = end]. *)
Theorem range_yields begin end_ :
  Z.of_nat (length (range begin end_)) = Z.abs (end_ - begin) /\
  (forall k : nat,
     Z.of_nat k < Z.abs (end_ - begin) ->
     range begin end_ !! k =
       Some (if begin <? end_ then begin + Z.of_nat k
             else begin - Z.of_nat k)) /\
  (forall i, i ∈ range begin end_ <->
             begin <= i < end_ \/ end_ < i <= begin).
Proof.
  unfold range. destruct (Z.ltb_spec begin end_) as [Hlt|Hge].
  - split; [|split].
    + rewrite length_seqZ. lia.
    + intros k Hk. apply lookup_seqZ. lia.
    + intros i. rewrite elem_of_seqZ. lia.
  - split; [|split].
    + rewrite length_fmap, length_seqZ. lia.
    + intros k Hk. rewrite list_lookup_fmap.
      rewrite (proj2 (lookup_seqZ 0 (begin - end_) k (0 + Z.of_nat k)));
        [simpl; f_equal; lia|lia].
    + intros i. rewrite list_elem_of_fmap. split.
      * intros (j & -> & Hj%elem_of_seqZ). lia.
      * intros [?|?]; [lia|]. exists (begin - i). split; [lia|].
        apply elem_of_seqZ. lia.
Qed.

Lemma range_yields_witness :
  range 1 (-2) !! 2%nat = Some (1 - Z.of_nat 2).
Proof.
  destruct (range_yields 1 (-2)) as (_ & Hk & _).
  apply (Hk 2%nat). simpl. lia.
Defined.

(** ** Loops over the cells of a canvas *)

Lemma inGrid_level_index c x y :
  inGrid c x y -> 0 <= canvasCoordToLevelIndex c x y < width c * height c.
Proof. unfold inGrid, canvasCoordToLevelIndex. nia. Qed.

Lemma inGrid_sized c0 st x y :
  sizedLike c0 st -> inGrid c0 x y ->
  canvasCoordToLevelIndex st.1 x y = canvasCoordToLevelIndex c0 x y /\
  0 <= canvasCoordToLevelIndex st.1 x y <
    Z.of_nat (length (levelByAutomatonIndex st.1)) /\
  0 <= canvasCoordToDataIndex st.1 x y /\
  canvasCoordToDataIndex st.1 x y + 3 < Z.of_nat (length st.2).
Proof.
  intros (Hw & Hh & Hl & Hb) Hin.
  pose proof (inGrid_level_index c0 x y Hin) as Hi.
  unfold canvasCoordToLevelIndex, canvasCoordToDataIndex in *.
  rewrite Hw, Hl, Hb. lia.
Qed.

Lemma cellState_is_Some c0 st x y :
  sizedLike c0 st -> inGrid c0 x y -> is_Some (cellState st.1 st.2 x y).
Proof.
  intros Hs Hin.
  destruct (inGrid_sized c0 st x y Hs Hin) as (_ & Hl & Hd0 & Hd).
  unfold cellState.
  destruct (getRGB_is_Some st.1 st.2 x y) as [rgb ->]; [lia|lia|].
  destruct (nth_cell_is_Some (levelByAutomatonIndex st.1)
              (canvasCoordToLevelIndex st.1 x y) Hl) as [l Hlv].
  unfold getLevelAtCoord. rewrite Hlv. simpl. by eexists.
Qed.

Lemma cellState_Some c buffer x y rgb l :
  cellState c buffer x y = Some (rgb, l) <->
  getRGB c buffer x y = Some rgb /\ getLevelAtCoord c x y = Some l.
Proof.
  unfold cellState.
  destruct (getRGB c buffer x y) as [rgb'|]; simpl;
    [|split; [done|by intros [? _]]].
  destruct (getLevelAtCoord c x y) as [l'|]; simpl;
    [|split; [done|by intros [_ ?]]].
  split; [by intros [= -> ->]|by intros [[= ->] [= ->]]].
Qed.

(** The state of a cell depends on its three colour bytes and its level. *)
Lemma cellState_frame c c' buffer buffer' x y :
  width c' = width c ->
  (forall d, 0 <= d <= 2 ->
     nth_cell buffer' (canvasCoordToDataIndex c x y + d) =
     nth_cell buffer (canvasCoordToDataIndex c x y + d)) ->
  nth_cell (levelByAutomatonIndex c') (canvasCoordToLevelIndex c x y) =
    nth_cell (levelByAutomatonIndex c) (canvasCoordToLevelIndex c x y) ->
  cellState c' buffer' x y = cellState c buffer x y.
Proof.
  intros Hw Hb Hl. unfold cellState, getRGB, getLevelAtCoord.
  unfold canvasCoordToDataIndex, canvasCoordToLevelIndex in *. rewrite Hw.
  rewrite !Hb by lia. by rewrite Hl.
Qed.

(** Writing a pixel and a level at one cell. *)
Lemma cell_write c0 c buffer x y paint level c' F :
  sizedLike c0 (c, buffer) -> inGrid c0 x y ->
  setLevelAtCoord c x y level = Some c' ->
  (forall rgb l, cellState c buffer x y = Some (rgb, l) ->
     F x y (rgb, l) =
     (match paint with
      | Some (r, g, b) => (clampByte r, clampByte g, clampByte b)
      | None => rgb
      end, level)) ->
  cellsMapped c0 [(y, x)] F (c, buffer) (c', paintWith c x y paint buffer).
Proof.
  intros Hs Hin Hset HF.
  destruct (inGrid_sized c0 _ x y Hs Hin) as (Hi & Hl & Hd0 & Hd).
  destruct Hs as (Hw & Hh & Hlen & Hblen). simpl in *.
  pose proof (setLevelAtCoord_width _ _ _ _ _ Hset) as Hw'.
  pose proof (setLevelAtCoord_height _ _ _ _ _ Hset) as Hh'.
  pose proof (setLevelAtCoord_context _ _ _ _ _ Hset) as Hc'.
  pose proof (setLevelAtCoord_length _ _ _ _ _ Hset) as Hl'.
  assert (Hplen : length (paintWith c x y paint buffer) = length buffer).
  { destruct paint as [[[r g] b]|]; [apply length_setRGB|done]. }
  split; [|split; [done|split]].
  - unfold sizedLike. simpl. rewrite Hw', Hh', Hl', Hplen. done.
  - intros x' y' Hin'. simpl. split.
    + intros [= -> ->]%list_elem_of_singleton.
      destruct (cellState_is_Some c0 (c, buffer) x y) as [[rgb l] Hst];
        [done|done|]. simpl in Hst.
      rewrite Hst. simpl. rewrite (HF rgb l Hst).
      apply cellState_Some. split.
      * rewrite (getRGB_width c c') by done.
        apply cellState_Some in Hst as [Hrgb _].
        destruct paint as [[[r g] b]|]; simpl; [|done].
        apply getRGB_setRGB_eq; lia.
      * by apply (getLevel_setLevel_eq c).
    + intros Hne%not_elem_of_cons. destruct Hne as [Hne _].
      assert (canvasCoordToLevelIndex c x' y' <> canvasCoordToLevelIndex c x y)
        as Hidx.
      { unfold canvasCoordToLevelIndex. rewrite Hw.
        intros Heq. apply Hne.
        destruct (inGrid_index_inj c0 x' y' x y Hin' Hin Heq) as [-> ->].
        done. }
      apply cellState_frame; [done| |].
      * intros d Hd'. destruct paint as [[[r g] b]|]; simpl; [|done].
        apply nth_cell_setRGB_ne;
          unfold canvasCoordToDataIndex, canvasCoordToLevelIndex in *; lia.
      * pose proof (getLevel_setLevel_ne c x y level c' x' y' Hset Hidx) as H.
        unfold getLevelAtCoord in H.
        unfold canvasCoordToLevelIndex in *. by rewrite Hw' in H.
  - intros j. simpl. destruct paint as [[[r g] b]|]; simpl; [|done].
    apply nth_cell_setRGB_ne; unfold canvasCoordToDataIndex; lia.
Qed.

(** A cell left as it is. *)
Lemma cell_skip c0 st x y F :
  sizedLike c0 st -> inGrid c0 x y ->
  (forall cell, cellState st.1 st.2 x y = Some cell -> F x y cell = cell) ->
  cellsMapped c0 [(y, x)] F st st.
Proof.
  intros Hs Hin HF. split; [done|]. split; [done|]. split; [|done].
  intros x' y' Hin'. split; [|done].
  intros [= -> ->]%list_elem_of_singleton.
  destruct (cellState_is_Some c0 st x y Hs Hin) as [cell Hst].
  rewrite Hst. simpl. by rewrite (HF cell Hst).
Qed.

Lemma cellsMapped_sized c0 L F st st' :
  cellsMapped c0 L F st st' -> sizedLike c0 st'.
Proof. by intros [? _]. Qed.

Lemma cellsMapped_nil c0 F st : sizedLike c0 st -> cellsMapped c0 [] F st st.
Proof.
  intros Hs. split; [done|]. split; [done|]. split; [|done].
  intros x y _. split; [by intros ?%elem_of_nil|done].
Qed.

Lemma cellsMapped_cons c0 y x L F st st1 st' :
  (y, x) ∉ L ->
  cellsMapped c0 [(y, x)] F st st1 -> cellsMapped c0 L F st1 st' ->
  cellsMapped c0 ((y, x) :: L) F st st'.
Proof.
  intros Hnot (_ & Hc1 & Hcells1 & Ha1) (Hs & Hc & Hcells & Ha).
  split; [done|]. split; [congruence|]. split.
  - intros x' y' Hin'. destruct (Hcells1 x' y' Hin') as [Hin1 Hout1].
    destruct (Hcells x' y' Hin') as [Hin2 Hout2]. split.
    + intros [[= -> ->]|Hel]%elem_of_cons.
      * rewrite (Hout2 Hnot). apply Hin1. apply list_elem_of_here.
      * rewrite (Hin2 Hel). f_equal. apply Hout1.
        intros [= -> ->]%list_elem_of_singleton. done.
    + intros [Hne Hnel]%not_elem_of_cons.
      rewrite (Hout2 Hnel). apply Hout1.
      intros [= -> ->]%list_elem_of_singleton. done.
  - intros j. by rewrite Ha, Ha1.
Qed.

(** A loop whose body works on its own cell, over distinct cells of the
    grid, completes, and each cell it visits went through [F] once. *)
Lemma cells_loop c0 F step L :
  cellwise c0 F step ->
  NoDup L -> (forall yx, yx ∈ L -> inGrid c0 yx.2 yx.1) ->
  forall st, sizedLike c0 st ->
  exists st',
    forOf L (fun yx => step yx.1 yx.2) st = Normal st' /\
    cellsMapped c0 L F st st'.
Proof.
  intros Hstep. induction L as [|[y x] L IH]; intros Hnd Hin st Hs.
  - exists st. split; [done|]. by apply cellsMapped_nil.
  - apply NoDup_cons in Hnd as [Hnot Hnd].
    destruct (Hstep st x y Hs) as (st1 & Hrun1 & Hmap1).
    { apply (Hin (y, x)). apply list_elem_of_here. }
    destruct (IH Hnd) with (st := st1) as (st' & Hrun & Hmap).
    { intros yx Hel. apply Hin. by apply list_elem_of_further. }
    { by apply cellsMapped_sized in Hmap1. }
    exists st'. split.
    + simpl. by rewrite Hrun1.
    + by apply (cellsMapped_cons c0 y x L F st st1 st').
Qed.

Lemma forOf_app {T S} (l1 l2 : list T) (body : T -> S -> completion S) s :
  forOf (l1 ++ l2) body s =
  match forOf l1 body s with
  | Normal s' => forOf l2 body s'
  | Throw e s' => Throw e s'
  | OutOfBounds => OutOfBounds
  end.
Proof.
  revert s. induction l1 as [|i l1 IH]; intros s; simpl; [done|].
  destruct (body i s); [apply IH|done|done].
Qed.

Lemma forOf_fmap {T U S} (f : T -> U) (l : list T)
    (body : U -> S -> completion S) s :
  forOf (f <$> l) body s = forOf l (fun i => body (f i)) s.
Proof.
  revert s. induction l as [|i l IH]; intros s; simpl; [done|].
  destruct (body (f i) s); [apply IH|done|done].
Qed.

(** Two nested loops are one loop over the cells they visit. *)
Lemma forOf_nested {S} (ys xs : list Z) (step : Z -> Z -> S -> completion S) s :
  forOf ys (fun y => forOf xs (fun x => step y x)) s =
  forOf (cellsOf ys xs) (fun yx => step yx.1 yx.2) s.
Proof.
  revert s. induction ys as [|y ys IH]; intros s; [done|].
  unfold cellsOf. simpl. rewrite forOf_app, forOf_fmap. simpl.
  destruct (forOf xs (fun x => step y x) s); [apply IH|done|done].
Qed.

Lemma elem_of_cellsOf ys xs y x :
  (y, x) ∈ cellsOf ys xs <-> y ∈ ys /\ x ∈ xs.
Proof.
  unfold cellsOf. rewrite list_elem_of_bind. split.
  - intros (y' & (x' & [= -> ->] & Hx)%list_elem_of_fmap & Hy). done.
  - intros [Hy Hx]. exists y. split; [|done].
    apply list_elem_of_fmap. by exists x.
Qed.

Lemma NoDup_cellsOf ys xs : NoDup ys -> NoDup xs -> NoDup (cellsOf ys xs).
Proof.
  intros Hys Hxs. unfold cellsOf. apply NoDup_bind; [| |done].
  - intros y1 y2 [y x] _ _ (x1 & [= -> ->] & _)%list_elem_of_fmap
      (x2 & [= -> ->] & _)%list_elem_of_fmap. done.
  - intros y _. apply NoDup_fmap_2; [|done]. by intros x1 x2 [= ->].
Qed.

Lemma NoDup_range begin end_ : NoDup (range begin end_).
Proof.
  unfold range. destruct (begin <? end_); [apply NoDup_seqZ|].
  apply NoDup_fmap_2; [|apply NoDup_seqZ]. intros i j Hij. lia.
Qed.

(** Two nested loops over distinct rows and columns of the grid. *)
Lemma nested_loop c0 F step ys xs st :
  cellwise c0 F step ->
  NoDup ys -> NoDup xs ->
  (forall y, y ∈ ys -> 0 <= y < height c0) ->
  (forall x, x ∈ xs -> 0 <= x < width c0) ->
  sizedLike c0 st ->
  exists st',
    forOf ys (fun y => forOf xs (fun x => step y x)) st = Normal st' /\
    cellsMapped c0 (cellsOf ys xs) F st st'.
Proof.
  intros Hstep Hys Hxs Hy Hx Hs. rewrite forOf_nested.
  apply (cells_loop c0 F step); [done| | |done].
  - by apply NoDup_cellsOf.
  - intros [y x] [Hely Helx]%elem_of_cellsOf. split; [by apply Hx|by apply Hy].
Qed.

(** ** Seeding: [clearMargins] and [resetLevelsAndSaturateChannels] *)

Lemma predominant_pure r g b p :
  predominant r g b = Some p ->
  p = (255, 0, 0) \/ p = (0, 255, 0) \/ p = (0, 0, 255).
Proof.
  unfold predominant. intros H.
  repeat match type of H with
         | (if ?t then _ else _) = _ => destruct t
         end; simplify_eq; auto.
Qed.

Lemma predominant_clamped r g b :
  match predominant r g b with
  | Some (pr, pg, pb) => (clampByte pr, clampByte pg, clampByte pb)
  | None => (r, g, b)
  end = default (r, g, b) (predominant r g b).
Proof.
  destruct (predominant r g b) as [p|] eqn:Hp; [|done].
  by destruct (predominant_pure r g b p Hp) as [->|[->| ->]].
Qed.

Lemma saturateCell_cellwise c0 initialLevel :
  cellwise c0 (fun _ _ => saturated initialLevel) (saturateCell initialLevel).
Proof.
  intros [c buffer] x y Hs Hin.
  destruct (cellState_is_Some c0 (c, buffer) x y Hs Hin) as [[[[r g] b] l] Hst].
  simpl in Hst. pose proof Hst as [Hrgb Hl]%cellState_Some.
  unfold saturateCell. rewrite Hrgb.
  destruct (r + g + b =? 0) eqn:Hsum.
  - exists (c, buffer). split; [done|]. apply cell_skip; [done|done|].
    simpl. intros cell Hcell. rewrite Hst in Hcell. injection Hcell as <-.
    simpl. by rewrite Hsum.
  - destruct (setLevelThen_Some c x y initialLevel
                (fun this =>
                   Normal (this,
                           match predominant r g b with
                           | Some (pr, pg, pb) => setRGB c buffer x y pr pg pb
                           | None => buffer
                           end)))
      as (c' & Hset & ->); [by eexists|].
    eexists. split; [done|].
    apply (cell_write c0 c buffer x y (predominant r g b) initialLevel c');
      [done|done|done|].
    intros rgb l' Hcell. rewrite Hst in Hcell. injection Hcell as <- <-.
    simpl. rewrite Hsum. f_equal. symmetry. apply predominant_clamped.
Qed.

Lemma transposeCell_cellwise c0 initialLevel inputBuffer :
  Z.of_nat (length inputBuffer) = 4 * (width c0 * height c0) ->
  cellwise c0
    (fun x y => transposed initialLevel (getRGB c0 inputBuffer x y))
    (transposeCell initialLevel inputBuffer).
Proof.
  intros Hlen [c buffer] x y Hs Hin.
  destruct (cellState_is_Some c0 (c, buffer) x y Hs Hin) as [[rgb l] Hst].
  simpl in Hst.
  destruct (cellState_is_Some c0 (c, inputBuffer) x y) as [[[[r g] b] l0] Hd];
    [by destruct Hs as (? & ? & ? & ?)|done|].
  simpl in Hd. apply cellState_Some in Hd as [Hdrawn _].
  pose proof Hs as (Hw & _). simpl in Hw.
  unfold transposeCell. rewrite Hdrawn.
  rewrite (getRGB_width c0 c inputBuffer x y) in Hdrawn by done.
  destruct (r + g + b =? 0) eqn:Hsum.
  - exists (c, buffer). split; [done|]. apply cell_skip; [done|done|].
    simpl. intros cell _. rewrite Hdrawn. simpl. by rewrite Hsum.
  - pose proof Hst as [_ Hl]%cellState_Some.
    destruct ((200 <? r) && (200 <? g) && (200 <? b)) eqn:Hwhite.
    + destruct (setLevelThen_Some c x y initialLevel
                  (fun this => Normal (this, setRGB c buffer x y 0 0 0)))
        as (c' & Hset & ->); [by eexists|].
      eexists. split; [done|].
      apply (cell_write c0 c buffer x y (Some (0, 0, 0)) initialLevel c');
        [done|done|done|].
      intros rgb' l' _. rewrite Hdrawn. simpl. by rewrite Hsum, Hwhite.
    + destruct (setLevelThen_Some c x y initialLevel
                  (fun this =>
                     Normal (this,
                             match predominant r g b with
                             | Some (pr, pg, pb) =>
                                 setRGB c buffer x y pr pg pb
                             | None => buffer
                             end)))
        as (c' & Hset & ->); [by eexists|].
      eexists. split; [done|].
      apply (cell_write c0 c buffer x y (predominant r g b) initialLevel c');
        [done|done|done|].
      intros rgb' l' _. rewrite Hdrawn. simpl. rewrite Hsum, Hwhite.
      f_equal. destruct (predominant r g b) as [p|] eqn:Hp; [|done].
      by destruct (predominant_pure r g b p Hp) as [->|[->| ->]].
Qed.

Lemma wfCanvas_sized c : wfCanvas c -> sizedLike c (c, context c).
Proof. intros [? ? ? ?]. by repeat split. Qed.

Lemma sized_wfCanvas c0 c buffer :
  wfCanvas c0 -> sizedLike c0 (c, buffer) -> wfCanvas (putImageData c buffer).
Proof.
  intros [? ? ? ?] (Hw & Hh & Hl & Hb). simpl in *.
  split; simpl; rewrite ?Hw, ?Hh; done.
Qed.

Lemma foldl_holds {T U} (P : U -> Prop) (f : U -> T -> U) (l : list T) u :
  P u -> (forall u i, i ∈ l -> P u -> P (f u i)) -> P (foldl f u l).
Proof.
  revert u. induction l as [|i l IH]; intros u Hu Hf; [done|].
  simpl. apply IH.
  - apply Hf; [apply list_elem_of_here|done].
  - intros u' j Hj. apply Hf. by apply list_elem_of_further.
Qed.

Lemma foldl_eventually {T U} (P Q : U -> Prop) (f : U -> T -> U) (l : list T)
    (i : T) u :
  i ∈ l -> P u ->
  (forall u j, P u -> P (f u j)) ->
  (forall u, P u -> Q (f u i)) ->
  (forall u j, Q u -> Q (f u j)) ->
  Q (foldl f u l).
Proof.
  intros Hi Hu HP Hset Hkeep. revert u Hu.
  induction l as [|j l IH]; intros u Hu; [by apply elem_of_nil in Hi|].
  simpl. apply elem_of_cons in Hi as [<-|Hi].
  - apply foldl_holds; [by apply Hset|]. intros u' k _. apply Hkeep.
  - apply IH; [done|]. by apply HP.
Qed.

(** A black pixel stays black when black is written anywhere. *)
Lemma black_stays c buffer x y x' y' :
  getRGB c buffer x y = Some (0, 0, 0) ->
  getRGB c (setRGB c buffer x' y' 0 0 0) x y = Some (0, 0, 0).
Proof.
  intros Hb.
  destruct (Z.eq_dec (canvasCoordToLevelIndex c x y)
              (canvasCoordToLevelIndex c x' y')) as [Heq|Hne].
  - rewrite (getRGB_same_index c _ x' y' x y Heq).
    rewrite (getRGB_same_index c buffer x' y' x y Heq) in Hb.
    apply getRGB_in_range in Hb as [H0 H2].
    by apply getRGB_setRGB_eq.
  - by rewrite getRGB_setRGB_ne.
Qed.

Lemma black_written c buffer x y :
  0 <= canvasCoordToDataIndex c x y /\
  canvasCoordToDataIndex c x y + 2 < Z.of_nat (length buffer) ->
  getRGB c (setRGB c buffer x y 0 0 0) x y = Some (0, 0, 0).
Proof. intros [H0 H2]. by rewrite getRGB_setRGB_eq. Qed.

(** What [clearMargins] does to a well-formed canvas. *)
Lemma clearMargins_spec c :
  wfCanvas c ->
  wfCanvas (clearMargins c) /\
  width (clearMargins c) = width c /\ height (clearMargins c) = height c /\
  levelByAutomatonIndex (clearMargins c) = levelByAutomatonIndex c /\
  (forall x y, onBorder c x y ->
     getRGB c (context (clearMargins c)) x y = Some (0, 0, 0)) /\
  (forall x y, inGrid c x y -> ~ onBorder c x y ->
     getRGB c (context (clearMargins c)) x y = getRGB c (context c) x y) /\
  (forall j, nth_cell (context (clearMargins c)) (4 * j + 3) =
             nth_cell (context c) (4 * j + 3)).
Proof.
  intros Hwf. pose proof Hwf as [Hw Hh Hl Hb].
  unfold clearMargins, getUnderlyingBufferCopy. simpl.
  set (rows := fun buffer x =>
                 setRGB c (setRGB c buffer x 0 0 0 0) x (height c - 1) 0 0 0).
  set (columns := fun buffer y =>
                    setRGB c (setRGB c buffer 0 y 0 0 0) (width c - 1) y 0 0 0).
  set (P := fun u : list Z => length u = length (context c)).
  assert (HProws : forall u j, P u -> P (rows u j)).
  { intros u j Hu. unfold P, rows. by rewrite !length_setRGB. }
  assert (HPcolumns : forall u j, P u -> P (columns u j)).
  { intros u j Hu. unfold P, columns. by rewrite !length_setRGB. }
  assert (HPall : P (foldl columns (foldl rows (context c) (seqZ 0 (width c)))
                       (seqZ 0 (height c)))).
  { apply foldl_holds; [apply foldl_holds; [done|]|]; auto. }
  assert (Hrange : forall u x y, P u -> inGrid c x y ->
             0 <= canvasCoordToDataIndex c x y /\
             canvasCoordToDataIndex c x y + 2 < Z.of_nat (length u)).
  { intros u x y Hu Hin. pose proof (inGrid_level_index c x y Hin).
    unfold P in Hu. rewrite Hu.
    unfold canvasCoordToDataIndex, canvasCoordToLevelIndex in *. lia. }
  split; [|split; [done|split; [done|split; [done|split; [|split]]]]].
  - split; simpl; try done. unfold P in HPall. by rewrite HPall.
  - intros x y [Hin Hedge].
    set (Q := fun u => P u /\ getRGB c u x y = Some (0, 0, 0)).
    assert (HQrows : forall u j, Q u -> Q (rows u j)).
    { intros u j [Hu Hblack]. split; [by apply HProws|].
      unfold rows. by do 2 apply black_stays. }
    assert (HQcolumns : forall u j, Q u -> Q (columns u j)).
    { intros u j [Hu Hblack]. split; [by apply HPcolumns|].
      unfold columns. by do 2 apply black_stays. }
    cut (Q (foldl columns (foldl rows (context c) (seqZ 0 (width c)))
              (seqZ 0 (height c)))); [by intros [_ ?]|].
    destruct (decide (y = 0 \/ y = height c - 1)) as [Hy|Hy].
    + apply foldl_holds; [|by intros; apply HQcolumns].
      apply (foldl_eventually P Q rows _ x); try done.
      * apply elem_of_seqZ. destruct Hin. lia.
      * intros u Hu. split; [by apply HProws|]. unfold rows.
        destruct Hy as [->| ->].
        -- apply black_stays. by apply black_written, Hrange.
        -- apply black_written, Hrange; [|done].
           unfold P. by rewrite length_setRGB.
    + assert (x = 0 \/ x = width c - 1) as Hx by tauto.
      apply (foldl_eventually P Q columns _ y); try done.
      * apply elem_of_seqZ. destruct Hin. lia.
      * apply foldl_holds; [done|]. by intros; apply HProws.
      * intros u Hu. split; [by apply HPcolumns|]. unfold columns.
        destruct Hx as [->| ->].
        -- apply black_stays. by apply black_written, Hrange.
        -- apply black_written, Hrange; [|done].
           unfold P. by rewrite length_setRGB.
  - intros x y Hin Hnot.
    assert (Hcell : forall u x' y', inGrid c x' y' -> onBorder c x' y' ->
               getRGB c (setRGB c u x' y' 0 0 0) x y = getRGB c u x y).
    { intros u x' y' Hin' Hb'. apply getRGB_setRGB_ne.
      apply inGrid_index_ne; [done|done|]. intros [= -> ->]. done. }
    apply (foldl_holds
             (fun u => getRGB c u x y = getRGB c (context c) x y)).
    + apply (foldl_holds
               (fun u => getRGB c u x y = getRGB c (context c) x y)); [done|].
      intros u i Hi%elem_of_seqZ Hu. unfold rows.
      rewrite !Hcell; try done; unfold onBorder, inGrid; lia.
    + intros u i Hi%elem_of_seqZ Hu. unfold columns.
      rewrite !Hcell; try done; unfold onBorder, inGrid; lia.
  - intros j.
    assert (Hcell : forall u x' y',
               nth_cell (setRGB c u x' y' 0 0 0) (4 * j + 3) =
               nth_cell u (4 * j + 3)).
    { intros u x' y'. apply nth_cell_setRGB_ne;
        unfold canvasCoordToDataIndex; lia. }
    apply (foldl_holds
             (fun u => nth_cell u (4 * j + 3) =
                       nth_cell (context c) (4 * j + 3))).
    + apply (foldl_holds
               (fun u => nth_cell u (4 * j + 3) =
                         nth_cell (context c) (4 * j + 3))); [done|].
      intros u i _ Hu. unfold rows. by rewrite !Hcell.
    + intros u i _ Hu. unfold columns. by rewrite !Hcell.
Qed.

(** X11. [clearMargins] on a well-formed canvas paints every border cell
    black and changes nothing else: the pixels of the other cells, every
    alpha byte and every level stay, the levels of the border cells
    included. *)
Theorem clearMargins_border c :
  wfCanvas c ->
  wfCanvas (clearMargins c) /\
  width (clearMargins c) = width c /\ height (clearMargins c) = height c /\
  levelByAutomatonIndex (clearMargins c) = levelByAutomatonIndex c /\
  (forall x y, onBorder c x y ->
     getRGB c (context (clearMargins c)) x y = Some (0, 0, 0)) /\
  (forall x y, inGrid c x y -> ~ onBorder c x y ->
     getRGB c (context (clearMargins c)) x y = getRGB c (context c) x y) /\
  (forall j, nth_cell (context (clearMargins c)) (4 * j + 3) =
             nth_cell (context c) (4 * j + 3)).
Proof. apply clearMargins_spec. Qed.

Lemma clearMargins_border_witness :
  let c := paintPoint 0 1 1 30 (paintPoint 1 1 0 30 (newCanvas 3 3)) in
  getRGB c (context (clearMargins c)) 0 1 = Some (0, 0, 0) /\
  getRGB c (context (clearMargins c)) 1 1 = getRGB c (context c) 1 1 /\
  levelByAutomatonIndex (clearMargins c) = levelByAutomatonIndex c.
Proof.
  intros c.
  destruct (clearMargins_border c) as (_ & _ & _ & Hlevels & Hb & Hin & _).
  - do 2 apply paintPoint_wf. apply newCanvas_wf; lia.
  - split; [|split; [|exact Hlevels]].
    + apply Hb. unfold onBorder, inGrid. simpl. lia.
    + apply Hin; unfold onBorder, inGrid; simpl; lia.
Defined.

Lemma cellsMapped_cell c0 L F st st' x y cell :
  cellsMapped c0 L F st st' -> inGrid c0 x y ->
  cellState st.1 st.2 x y = Some cell ->
  ((y, x) ∈ L -> cellState st'.1 st'.2 x y = Some (F x y cell)) /\
  ((y, x) ∉ L -> cellState st'.1 st'.2 x y = Some cell).
Proof.
  intros (_ & _ & Hcells & _) Hin Hst.
  destruct (Hcells x y Hin) as [Hin1 Hout1]. rewrite Hst in *. done.
Qed.

Lemma cellState_putImageData c buffer x y :
  cellState (putImageData c buffer) (context (putImageData c buffer)) x y =
  cellState c buffer x y.
Proof. done. Qed.

Lemma sameCell_cellState c c' x y :
  cellState c' (context c') x y = cellState c (context c) x y ->
  is_Some (cellState c (context c) x y) ->
  sameCell c c' x y.
Proof.
  intros Heq [[rgb l] Hst]. rewrite Hst in Heq.
  apply cellState_Some in Hst as [Hrgb Hl].
  apply cellState_Some in Heq as [Hrgb' Hl'].
  unfold sameCell. by rewrite Hrgb, Hl, Hrgb', Hl'.
Qed.

(** The two loops of [resetLevelsAndSaturateChannels] over a rectangle of
    the grid. *)
Lemma saturate_loop initialLevel x0 y0 x1 y1 c :
  wfCanvas c ->
  0 <= x0 -> x1 <= width c -> 0 <= y0 -> y1 <= height c ->
  exists st',
    forOf (seqZ y0 (y1 - y0)) (fun y =>
      forOf (seqZ x0 (x1 - x0)) (fun x => saturateCell initialLevel y x))
      (c, context c) = Normal st' /\
    cellsMapped c (cellsOf (seqZ y0 (y1 - y0)) (seqZ x0 (x1 - x0)))
      (fun _ _ => saturated initialLevel) (c, context c) st'.
Proof.
  intros Hwf Hx0 Hx1 Hy0 Hy1.
  apply (nested_loop c (fun _ _ => saturated initialLevel)).
  - apply saturateCell_cellwise.
  - apply NoDup_seqZ.
  - apply NoDup_seqZ.
  - intros y Hy%elem_of_seqZ. lia.
  - intros x Hx%elem_of_seqZ. lia.
  - by apply wfCanvas_sized.
Qed.

(** What [resetLevelsAndSaturateChannels] does over a rectangle of a
    well-formed canvas. *)
Lemma saturate_spec initialLevel x0 y0 x1 y1 c :
  wfCanvas c ->
  0 <= x0 -> x1 <= width c -> 0 <= y0 -> y1 <= height c ->
  exists c',
    resetLevelsAndSaturateChannels initialLevel x0 y0 x1 y1 c = Normal c' /\
    wfCanvas c' /\ width c' = width c /\ height c' = height c /\
    (forall x y r g b l,
       inGrid c x y ->
       getRGB c (context c) x y = Some (r, g, b) ->
       getLevelAtCoord c x y = Some l ->
       if (x0 <=? x) && (x <? x1) && (y0 <=? y) && (y <? y1) &&
          negb (r + g + b =? 0)
       then getRGB c' (context c') x y =
              Some (default (r, g, b) (predominant r g b)) /\
            getLevelAtCoord c' x y = Some initialLevel
       else sameCell c c' x y) /\
    (forall j, nth_cell (context c') (4 * j + 3) =
               nth_cell (context c) (4 * j + 3)).
Proof.
  intros Hwf Hx0 Hx1 Hy0 Hy1.
  destruct (saturate_loop initialLevel x0 y0 x1 y1 c)
    as ([c1 buffer1] & Hrun & Hmap); try done.
  unfold resetLevelsAndSaturateChannels, getUnderlyingBufferCopy.
  rewrite Hrun. eexists. split; [done|].
  pose proof (cellsMapped_sized _ _ _ _ _ Hmap) as Hs.
  pose proof Hs as (Hw1 & Hh1 & _).
  split; [by apply (sized_wfCanvas c)|]. split; [done|]. split; [done|].
  split; [|by destruct Hmap as (_ & _ & _ & Ha)].
  intros x y r g b l Hin Hrgb Hl.
  assert (cellState c (context c) x y = Some (r, g, b, l)) as Hst
    by by apply cellState_Some.
  destruct (cellsMapped_cell _ _ _ _ _ x y _ Hmap Hin Hst) as [Hin1 Hout1].
  simpl in Hin1, Hout1.
  destruct ((x0 <=? x) && (x <? x1) && (y0 <=? y) && (y <? y1)) eqn:Hrect.
  - assert ((y, x) ∈ cellsOf (seqZ y0 (y1 - y0)) (seqZ x0 (x1 - x0))) as Hel.
    { apply elem_of_cellsOf. rewrite !elem_of_seqZ.
      apply andb_prop in Hrect as [[[?%Z.leb_le ?%Z.ltb_lt]%andb_prop
                                      ?%Z.leb_le]%andb_prop ?%Z.ltb_lt].
      lia. }
    specialize (Hin1 Hel). simpl in Hin1.
    destruct (r + g + b =? 0) eqn:Hsum; simpl.
    + apply sameCell_cellState; [|by rewrite Hst].
      by rewrite cellState_putImageData, Hst.
    + by apply cellState_Some in Hin1.
  - assert ((y, x) ∉ cellsOf (seqZ y0 (y1 - y0)) (seqZ x0 (x1 - x0))) as Hel.
    { rewrite elem_of_cellsOf, !elem_of_seqZ. intros [? ?].
      apply andb_false_iff in Hrect
        as [[[?%Z.leb_gt|?%Z.ltb_ge]%andb_false_iff
               |?%Z.leb_gt]%andb_false_iff|?%Z.ltb_ge]; lia. }
    simpl. apply sameCell_cellState; [|by rewrite Hst].
    by rewrite cellState_putImageData, Hst, (Hout1 Hel).
Qed.

(** X12. [resetLevelsAndSaturateChannels] over a rectangle of a well-formed
    canvas completes and works cell by cell.  A cell of the rectangle whose
    pixel is not blank gets the level [initialLevel], and its pixel becomes
    the pure colour of its predominant channel, or stays as it is when no
    channel is greater than both others.  Blank cells of the rectangle keep
    their level, whatever it is; cells outside the rectangle and all alpha
    bytes are untouched. *)
Theorem saturate_rectangle initialLevel x0 y0 x1 y1 c :
  wfCanvas c ->
  0 <= x0 -> x1 <= width c -> 0 <= y0 -> y1 <= height c ->
  exists c',
    resetLevelsAndSaturateChannels initialLevel x0 y0 x1 y1 c = Normal c' /\
    wfCanvas c' /\ width c' = width c /\ height c' = height c /\
    (forall x y r g b l,
       inGrid c x y ->
       getRGB c (context c) x y = Some (r, g, b) ->
       getLevelAtCoord c x y = Some l ->
       if (x0 <=? x) && (x <? x1) && (y0 <=? y) && (y <? y1) &&
          negb (r + g + b =? 0)
       then getRGB c' (context c') x y =
              Some (default (r, g, b) (predominant r g b)) /\
            getLevelAtCoord c' x y = Some initialLevel
       else sameCell c c' x y) /\
    (forall j, nth_cell (context c') (4 * j + 3) =
               nth_cell (context c) (4 * j + 3)).
Proof. apply saturate_spec. Qed.

Lemma saturate_rectangle_witness :
  let c :=
    putImageData (newCanvas 3 3)
      (setRGB (newCanvas 3 3) (context (newCanvas 3 3)) 1 1 10 200 30) in
  exists c',
    resetLevelsAndSaturateChannels 30 0 0 3 3 c = Normal c' /\
    getRGB c' (context c') 1 1 = Some (0, 255, 0) /\
    getLevelAtCoord c' 1 1 = Some 30 /\
    sameCell c c' 2 1.
Proof.
  intros c.
  destruct (saturate_rectangle 30 0 0 3 3 c)
    as (c' & Hrun & _ & _ & _ & Hcells & _).
  - split; simpl; try lia; reflexivity.
  - lia.
  - simpl. lia.
  - lia.
  - simpl. lia.
  - exists c'. split; [exact Hrun|].
    pose proof (Hcells 1 1 10 200 30 0) as H11.
    pose proof (Hcells 2 1 0 0 0 0) as H21.
    simpl in H11, H21.
    destruct H11 as [Hrgb Hl]; [unfold inGrid; simpl; lia|reflexivity|
                                 reflexivity|].
    split; [exact Hrgb|]. split; [exact Hl|].
    apply H21; [unfold inGrid; simpl; lia|reflexivity|reflexivity].
Defined.

(** ** Seeding: [paintSectors] *)

Lemma cells_inGrid c x y : (x, y) ∈ cells c -> inGrid c x y.
Proof.
  unfold cells. rewrite list_elem_of_bind.
  intros (y' & (x' & [= -> ->] & Hx%elem_of_seqZ)%list_elem_of_fmap
             & Hy%elem_of_seqZ).
  unfold inGrid. lia.
Qed.

Lemma emptyIffLevelZero_intro c :
  (forall x y, inGrid c x y ->
     exists blank level,
       isPixelBlank c (context c) x y = Some blank /\
       getLevelAtCoord c x y = Some level /\
       (blank = true <-> level = 0)) ->
  emptyIffLevelZero c = true.
Proof.
  intros H. unfold emptyIffLevelZero. apply forallb_forall.
  intros [x y] Hin%list_elem_of_In%cells_inGrid. simpl.
  destruct (H x y Hin) as (blank & level & -> & -> & Hiff).
  destruct blank, (Z.eqb_spec level 0) as [Hz|Hz]; simpl; try done.
  - exfalso. by apply Hz, Hiff.
  - exfalso. by assert (false = true) by by apply Hiff.
Qed.

Lemma newCanvas_level w h x y :
  inGrid (newCanvas w h) x y -> getLevelAtCoord (newCanvas w h) x y = Some 0.
Proof.
  intros Hin. pose proof (inGrid_level_index _ x y Hin) as Hi.
  unfold getLevelAtCoord, nth_cell. simpl in *.
  destruct (Z.ltb_spec (canvasCoordToLevelIndex (newCanvas w h) x y) 0);
    [lia|].
  apply lookup_replicate_2. lia.
Qed.

Lemma isPixelBlank_rgb c buffer x y r g b :
  getRGB c buffer x y = Some (r, g, b) ->
  isPixelBlank c buffer x y = Some (r + g + b =? 0).
Proof. intros H. unfold isPixelBlank. by rewrite H. Qed.

Lemma predominant_not_blank r g b :
  r + g + b <> 0 ->
  let '(r', g', b') := default (r, g, b) (predominant r g b) in
  r' + g' + b' <> 0.
Proof.
  intros Hsum. destruct (predominant r g b) as [p|] eqn:Hp; [|done].
  by destruct (predominant_pure r g b p Hp) as [->|[->| ->]].
Qed.

(** What [paintSectors] leaves on a new canvas, whatever the arcs put in
    the pixel data. *)
Lemma paintSectors_spec w h sectors initialLevel :
  2 <= w -> 2 <= h -> Z.of_nat (length sectors) = 4 * (w * h) ->
  exists c',
    paintSectors sectors initialLevel (newCanvas w h) = Normal c' /\
    wfCanvas c' /\ width c' = w /\ height c' = h /\
    (forall x y, onBorder c' x y -> emptyCell c' x y) /\
    (forall x y r g b,
       inGrid c' x y -> ~ onBorder c' x y ->
       getRGB c' sectors x y = Some (r, g, b) ->
       if r + g + b =? 0
       then getRGB c' (context c') x y = Some (r, g, b) /\
            getLevelAtCoord c' x y = Some 0
       else getRGB c' (context c') x y =
              Some (default (r, g, b) (predominant r g b)) /\
            getLevelAtCoord c' x y = Some initialLevel) /\
    (initialLevel <> 0 -> emptyIffLevelZero c' = true).
Proof.
  intros Hw Hh Hlen. unfold paintSectors.
  set (c1 := putImageData (newCanvas w h) sectors).
  assert (Hwf1 : wfCanvas c1).
  { pose proof (newCanvas_wf w h Hw Hh) as [? ? ? ?]. split; simpl in *; done. }
  destruct (clearMargins_spec c1 Hwf1)
    as (Hwf2 & Hw2 & Hh2 & Hl2 & Hborder & Hinner & _).
  set (c2 := clearMargins c1) in *.
  destruct (saturate_spec initialLevel 0 0 (width c2) (height c2) c2)
    as (c3 & Hrun & Hwf3 & Hw3 & Hh3 & Hcells & _); try done; try lia.
  exists c3. split; [done|]. split; [done|].
  assert (width c3 = w) as Hw3' by (rewrite Hw3, Hw2; done).
  assert (height c3 = h) as Hh3' by (rewrite Hh3, Hh2; done).
  split; [done|]. split; [done|].
  assert (Hgrid : forall x y, inGrid c3 x y ->
             inGrid c2 x y /\ inGrid c1 x y /\ inGrid (newCanvas w h) x y).
  { unfold inGrid. rewrite Hw3', Hh3', Hw2, Hh2. simpl. done. }
  assert (Hlevel2 : forall x y, inGrid c3 x y ->
             getLevelAtCoord c2 x y = Some 0).
  { intros x y (_ & _ & Hin)%Hgrid. unfold getLevelAtCoord.
    rewrite Hl2. unfold canvasCoordToLevelIndex. rewrite Hw2.
    by apply newCanvas_level in Hin. }
  assert (Hrect : forall x y, inGrid c3 x y ->
             (0 <=? x) && (x <? width c2) && (0 <=? y) && (y <? height c2) =
             true).
  { intros x y ([? ?] & _)%Hgrid.
    repeat (apply andb_true_intro; split); lia. }
  assert (HB : forall x y, onBorder c3 x y -> emptyCell c3 x y).
  { intros x y [Hin Hedge].
    pose proof (Hgrid x y Hin) as (Hin2 & Hin1 & _).
    assert (getRGB c2 (context c2) x y = Some (0, 0, 0)) as Hblack.
    { rewrite (getRGB_width c1 c2) by done. apply Hborder.
      split; [done|]. rewrite Hw3', Hh3' in Hedge. simpl. done. }
    pose proof (Hcells x y 0 0 0 0 Hin2 Hblack (Hlevel2 x y Hin)) as Hc.
    rewrite (Hrect x y Hin) in Hc. simpl in Hc. destruct Hc as [Hrgb Hl].
    unfold emptyCell. by rewrite Hrgb, Hl, Hblack, (Hlevel2 x y Hin). }
  assert (HI : forall x y r g b,
             inGrid c3 x y -> ~ onBorder c3 x y ->
             getRGB c3 sectors x y = Some (r, g, b) ->
             if r + g + b =? 0
             then getRGB c3 (context c3) x y = Some (r, g, b) /\
                  getLevelAtCoord c3 x y = Some 0
             else getRGB c3 (context c3) x y =
                    Some (default (r, g, b) (predominant r g b)) /\
                  getLevelAtCoord c3 x y = Some initialLevel).
  { intros x y r g b Hin Hnot Hrgb.
    pose proof (Hgrid x y Hin) as (Hin2 & Hin1 & _).
    assert (getRGB c2 (context c2) x y = Some (r, g, b)) as Hrgb2.
    { rewrite (getRGB_width c1 c2) by done. rewrite Hinner; [| done |].
      - rewrite <- Hrgb. apply getRGB_width. by rewrite Hw3'.
      - intros [_ Hedge]. apply Hnot. split; [done|].
        rewrite Hw3', Hh3'. done. }
    pose proof (Hcells x y r g b 0 Hin2 Hrgb2 (Hlevel2 x y Hin)) as Hc.
    rewrite (Hrect x y Hin) in Hc. simpl in Hc.
    destruct (r + g + b =? 0); simpl in Hc; [|done].
    destruct Hc as [Hrgb3 Hl3]. by rewrite Hrgb3, Hl3, (Hlevel2 x y Hin). }
  split; [done|]. split; [done|].
  intros Hnz. apply emptyIffLevelZero_intro. intros x y Hin.
  destruct (decide (onBorder c3 x y)) as [Hb|Hb].
  - destruct (HB x y Hb) as [Hrgb Hl].
    exists true, 0. by rewrite (isPixelBlank_rgb _ _ _ _ _ _ _ Hrgb), Hl.
  - destruct (inGrid_rgb c3 sectors x y) as [[[r g] b] Hrgb]; [done| |done|].
    { by rewrite Hw3', Hh3'. }
    pose proof (HI x y r g b Hin Hb Hrgb) as Hc.
    destruct (Z.eqb_spec (r + g + b) 0) as [Hsum|Hsum].
    + destruct Hc as [Hrgb3 Hl3]. exists true, 0.
      rewrite (isPixelBlank_rgb _ _ _ _ _ _ _ Hrgb3), Hl3.
      by destruct (Z.eqb_spec (r + g + b) 0).
    + destruct Hc as [Hrgb3 Hl3].
      pose proof (predominant_not_blank r g b Hsum) as Hnb.
      destruct (default (r, g, b) (predominant r g b)) as [[r' g'] b'].
      exists false, initialLevel.
      rewrite (isPixelBlank_rgb _ _ _ _ _ _ _ Hrgb3), Hl3.
      destruct (Z.eqb_spec (r' + g' + b') 0); [done|].
      split; [done|]. split; [done|]. split; done.
Qed.

(** X13. [paintSectors] on a new canvas at least 2 wide and 2 high, whatever
    the three arcs put in the pixel data: it completes; every border cell is
    black at level 0; every other cell whose painted pixel is blank stays at
    level 0, and every other cell is at level [initialLevel] with the pure
    colour of its predominant channel, or its painted colour when no channel
    is greater than both others.  So, when [initialLevel] is not 0, a cell is
    blank exactly when its level is 0. *)
Theorem paintSectors_seeds w h sectors initialLevel :
  2 <= w -> 2 <= h -> Z.of_nat (length sectors) = 4 * (w * h) ->
  exists c',
    paintSectors sectors initialLevel (newCanvas w h) = Normal c' /\
    wfCanvas c' /\ width c' = w /\ height c' = h /\
    (forall x y, onBorder c' x y -> emptyCell c' x y) /\
    (forall x y r g b,
       inGrid c' x y -> ~ onBorder c' x y ->
       getRGB c' sectors x y = Some (r, g, b) ->
       if r + g + b =? 0
       then getRGB c' (context c') x y = Some (r, g, b) /\
            getLevelAtCoord c' x y = Some 0
       else getRGB c' (context c') x y =
              Some (default (r, g, b) (predominant r g b)) /\
            getLevelAtCoord c' x y = Some initialLevel) /\
    (initialLevel <> 0 -> emptyIffLevelZero c' = true).
Proof. apply paintSectors_spec. Qed.

Lemma paintSectors_seeds_witness :
  let sectors :=
    setRGB (newCanvas 3 3)
      (setRGB (newCanvas 3 3) (context (newCanvas 3 3)) 1 1 0 128 0)
      0 0 255 0 0 in
  exists c',
    paintSectors sectors 30 (newCanvas 3 3) = Normal c' /\
    emptyCell c' 0 0 /\
    emptyIffLevelZero c' = true.
Proof.
  intros sectors.
  destruct (paintSectors_seeds 3 3 sectors 30)
    as (c' & Hrun & _ & Hw & Hh & Hborder & _ & Hiff);
    [lia|lia|reflexivity|].
  exists c'. split; [exact Hrun|]. split.
  - apply Hborder. unfold onBorder, inGrid. rewrite Hw, Hh. lia.
  - apply Hiff. discriminate.
Defined.

(** ** Free-hand drawing: [transposeDrawingAndReset] and [onMouseMove] *)

(** What [transposeDrawingAndReset] does over rows and columns of the
    grid. *)
Lemma transpose_spec initialLevel x0 y0 x1 y1 c drawing :
  wfCanvas c ->
  Z.of_nat (length drawing) = 4 * (width c * height c) ->
  (forall x, x ∈ range x0 x1 -> 0 <= x < width c) ->
  (forall y, y ∈ range y0 y1 -> 0 <= y < height c) ->
  exists c',
    transposeDrawingAndReset initialLevel x0 y0 x1 y1 c drawing =
      Normal (c', replicate (length drawing) 0) /\
    wfCanvas c' /\ width c' = width c /\ height c' = height c /\
    (forall x y r g b,
       inGrid c x y -> getRGB c drawing x y = Some (r, g, b) ->
       (x ∈ range x0 x1 -> y ∈ range y0 y1 -> r + g + b <> 0 ->
        getLevelAtCoord c' x y = Some initialLevel /\
        getRGB c' (context c') x y =
          if (200 <? r) && (200 <? g) && (200 <? b) then Some (0, 0, 0)
          else match predominant r g b with
               | Some p => Some p
               | None => getRGB c (context c) x y
               end) /\
       (x ∉ range x0 x1 \/ y ∉ range y0 y1 \/ r + g + b = 0 ->
        sameCell c c' x y)) /\
    (forall j, nth_cell (context c') (4 * j + 3) =
               nth_cell (context c) (4 * j + 3)).
Proof.
  intros Hwf Hlen Hxs Hys.
  destruct (nested_loop c
              (fun x y => transposed initialLevel (getRGB c drawing x y))
              (transposeCell initialLevel drawing)
              (range y0 y1) (range x0 x1) (c, context c))
    as ([c1 buffer1] & Hrun & Hmap);
    [by apply transposeCell_cellwise|apply NoDup_range|apply NoDup_range|
     done|done|by apply wfCanvas_sized|].
  unfold transposeDrawingAndReset, getUnderlyingBufferCopy.
  rewrite Hrun. eexists. split; [done|].
  pose proof (cellsMapped_sized _ _ _ _ _ Hmap) as Hs.
  pose proof Hs as (Hw1 & Hh1 & _).
  split; [by apply (sized_wfCanvas c)|]. split; [done|]. split; [done|].
  split; [|by destruct Hmap as (_ & _ & _ & Ha)].
  intros x y r g b Hin Hdrawn.
  destruct (cellState_is_Some c (c, context c) x y) as [[rgb l] Hst];
    [by apply wfCanvas_sized|done|]. simpl in Hst.
  destruct (cellsMapped_cell _ _ _ _ _ x y _ Hmap Hin Hst) as [Hin1 Hout1].
  simpl in Hin1, Hout1. rewrite Hdrawn in Hin1. simpl in Hin1.
  pose proof Hst as [Hrgb Hl]%cellState_Some.
  split.
  - intros Hx Hy Hsum.
    assert ((y, x) ∈ cellsOf (range y0 y1) (range x0 x1)) as Hel
      by by apply elem_of_cellsOf.
    specialize (Hin1 Hel).
    destruct (Z.eqb_spec (r + g + b) 0) as [|_]; [done|].
    destruct ((200 <? r) && (200 <? g) && (200 <? b)).
    + by apply cellState_Some in Hin1 as [? ?].
    + apply cellState_Some in Hin1 as [Hrgb1 Hl1]. split; [done|].
      simpl in Hrgb1. rewrite Hrgb. by destruct (predominant r g b).
  - intros Hout. apply sameCell_cellState; [|by rewrite Hst].
    rewrite cellState_putImageData, Hst.
    destruct (decide ((y, x) ∈ cellsOf (range y0 y1) (range x0 x1)))
      as [Hel|Hel]; [|by apply Hout1].
    rewrite (Hin1 Hel). apply elem_of_cellsOf in Hel as [Hy Hx].
    destruct Hout as [?|[?|Hsum]]; [done|done|].
    by destruct (Z.eqb_spec (r + g + b) 0).
Qed.

(** X14. [transposeDrawingAndReset] over rows and columns inside a
    well-formed canvas completes and clears the drawing.  A cell of the
    rectangle whose drawn pixel is not blank gets the level [initialLevel];
    its pixel becomes black when the drawn pixel is white (all three
    channels above 200: erasing leaves a black cell at level [initialLevel]),
    the pure colour of the predominant drawn channel otherwise, and stays when
    no drawn channel is greater than both others.  Every other cell keeps its
    pixel and its level, and no alpha byte of the canvas changes. *)
Theorem transpose_rectangle initialLevel x0 y0 x1 y1 c drawing :
  wfCanvas c ->
  Z.of_nat (length drawing) = 4 * (width c * height c) ->
  (forall x, x ∈ range x0 x1 -> 0 <= x < width c) ->
  (forall y, y ∈ range y0 y1 -> 0 <= y < height c) ->
  exists c',
    transposeDrawingAndReset initialLevel x0 y0 x1 y1 c drawing =
      Normal (c', replicate (length drawing) 0) /\
    wfCanvas c' /\ width c' = width c /\ height c' = height c /\
    (forall x y r g b,
       inGrid c x y -> getRGB c drawing x y = Some (r, g, b) ->
       (x ∈ range x0 x1 -> y ∈ range y0 y1 -> r + g + b <> 0 ->
        getLevelAtCoord c' x y = Some initialLevel /\
        getRGB c' (context c') x y =
          if (200 <? r) && (200 <? g) && (200 <? b) then Some (0, 0, 0)
          else match predominant r g b with
               | Some p => Some p
               | None => getRGB c (context c) x y
               end) /\
       (x ∉ range x0 x1 \/ y ∉ range y0 y1 \/ r + g + b = 0 ->
        sameCell c c' x y)) /\
    (forall j, nth_cell (context c') (4 * j + 3) =
               nth_cell (context c) (4 * j + 3)).
Proof. apply transpose_spec. Qed.

Lemma range_within lo hi n i :
  0 <= lo -> hi <= n -> lo <= hi -> i ∈ range lo hi ->
  0 <= i < n /\ lo <= i < hi.
Proof.
  intros Hlo Hhi Hle. unfold range.
  destruct (Z.ltb_spec lo hi).
  - intros ?%elem_of_seqZ. lia.
  - intros (j & -> & ?%elem_of_seqZ)%list_elem_of_fmap. lia.
Qed.

Lemma transpose_rectangle_witness :
  let c := paintPoint 1 1 0 30 (newCanvas 4 4) in
  let drawing :=
    setRGB c (replicate 64%nat 0) 1 1 255 255 255 in
  exists c',
    transposeDrawingAndReset 30 1 1 3 3 c drawing =
      Normal (c', replicate (length drawing) 0) /\
    getRGB c' (context c') 1 1 = Some (0, 0, 0) /\
    getLevelAtCoord c' 1 1 = Some 30 /\
    sameCell c c' 2 2.
Proof.
  intros c drawing.
  destruct (transpose_rectangle 30 1 1 3 3 c drawing)
    as (c' & Hrun & _ & _ & _ & Hcells & _).
  - apply paintPoint_wf. apply newCanvas_wf; lia.
  - reflexivity.
  - intros x Hx. apply (range_within 1 3 4 x) in Hx; simpl; lia.
  - intros y Hy. apply (range_within 1 3 4 y) in Hy; simpl; lia.
  - exists c'. split; [exact Hrun|].
    destruct (Hcells 1 1 255 255 255) as [Hin _];
      [unfold inGrid; simpl; lia|reflexivity|].
    destruct Hin as [Hl Hrgb];
      [vm_compute; constructor|vm_compute; constructor|discriminate|].
    destruct (Hcells 2 2 0 0 0) as [_ Hout];
      [unfold inGrid; simpl; lia|reflexivity|].
    split; [exact Hrgb|]. split; [exact Hl|].
    apply Hout. right. right. reflexivity.
Defined.

(** A move of the pressed mouse inside the canvas. *)
Lemma onMouseMove_spec initialLevel curX curY stroked c drawing m :
  wfCanvas c ->
  Z.of_nat (length stroked) = 4 * (width c * height c) ->
  0 <= lastMouseX m < width c -> 0 <= lastMouseY m < height c ->
  0 <= curX < width c -> 0 <= curY < height c ->
  isMouseDown m = true ->
  exists c',
    onMouseMove initialLevel curX curY stroked (c, drawing, m) =
      Normal (c', replicate (length stroked) 0, mkMouse curX curY true) /\
    wfCanvas c' /\
    (forall x y, onBorder c x y -> sameCell c c' x y) /\
    (forall x y,
       inGrid c x y ->
       x < Z.min (lastMouseX m) curX - lineWidth \/
       Z.max (lastMouseX m) curX + lineWidth <= x \/
       y < Z.min (lastMouseY m) curY - lineWidth \/
       Z.max (lastMouseY m) curY + lineWidth <= y ->
       sameCell c c' x y) /\
    (forall x y, inGrid c x y -> isPixelBlank c stroked x y = Some true ->
                 sameCell c c' x y).
Proof.
  intros Hwf Hlen HlastX HlastY HcurX HcurY Hdown.
  pose proof Hwf as [Hw Hh _ _].
  unfold onMouseMove. rewrite Hdown.
  set (x0 := Z.max 1 (Z.min (lastMouseX m) curX - lineWidth)).
  set (y0 := Z.max 1 (Z.min (lastMouseY m) curY - lineWidth)).
  set (x1 := Z.min (width c - 1) (Z.max (lastMouseX m) curX + lineWidth)).
  set (y1 := Z.min (height c - 1) (Z.max (lastMouseY m) curY + lineWidth)).
  assert (Hx : forall x, x ∈ range x0 x1 -> 0 <= x < width c /\ x0 <= x < x1).
  { intros x. apply range_within; unfold x0, x1, lineWidth; lia. }
  assert (Hy : forall y, y ∈ range y0 y1 ->
               0 <= y < height c /\ y0 <= y < y1).
  { intros y. apply range_within; unfold y0, y1, lineWidth; lia. }
  destruct (transpose_spec initialLevel x0 y0 x1 y1 c stroked)
    as (c' & -> & Hwf' & _ & _ & Hcells & _); try done.
  { intros x Hel. by apply Hx. }
  { intros y Hel. by apply Hy. }
  exists c'. split; [done|]. split; [done|].
  assert (Hout : forall x y, inGrid c x y ->
             x ∉ range x0 x1 \/ y ∉ range y0 y1 -> sameCell c c' x y).
  { intros x y Hin Hnot.
    destruct (inGrid_rgb c stroked x y Hwf Hlen Hin) as [[[r g] b] Hrgb].
    destruct (Hcells x y r g b Hin Hrgb) as [_ Hsame]. apply Hsame. tauto. }
  split; [|split].
  - intros x y [Hin Hedge]. apply Hout; [done|].
    destruct Hedge as [->|[->|[->| ->]]].
    + left. intros Hel%Hx. unfold x0 in Hel. lia.
    + left. intros Hel%Hx. unfold x1 in Hel. lia.
    + right. intros Hel%Hy. unfold y0 in Hel. lia.
    + right. intros Hel%Hy. unfold y1 in Hel. lia.
  - intros x y Hin Hfar. apply Hout; [done|].
    destruct Hfar as [?|[?|[?|?]]].
    + left. intros Hel%Hx. unfold x0 in Hel. lia.
    + left. intros Hel%Hx. unfold x1 in Hel. lia.
    + right. intros Hel%Hy. unfold y0 in Hel. lia.
    + right. intros Hel%Hy. unfold y1 in Hel. lia.
  - intros x y Hin Hblank. unfold isPixelBlank in Hblank.
    destruct (getRGB c stroked x y) as [[[r g] b]|] eqn:Hrgb; [|done].
    simpl in Hblank. injection Hblank as Hsum%Z.eqb_eq.
    destruct (Hcells x y r g b Hin Hrgb) as [_ Hsame]. apply Hsame. tauto.
Qed.

(** X15. Free-hand drawing never touches the border.  A move of the pressed
    mouse from and to positions inside a well-formed canvas completes, clears
    the drawing and records the new position; it leaves the pixel and the
    level of every border cell, of every cell more than [lineWidth] away
    from the bounding box of the move, and of every cell that the stroke left
    blank in the drawing.  While the mouse is up, a move does nothing. *)
Theorem drawing_spares_border initialLevel curX curY stroked c drawing m :
  wfCanvas c ->
  Z.of_nat (length stroked) = 4 * (width c * height c) ->
  0 <= lastMouseX m < width c -> 0 <= lastMouseY m < height c ->
  0 <= curX < width c -> 0 <= curY < height c ->
  (isMouseDown m = false ->
   onMouseMove initialLevel curX curY stroked (c, drawing, m) =
     Normal (c, drawing, m)) /\
  (isMouseDown m = true ->
   exists c',
     onMouseMove initialLevel curX curY stroked (c, drawing, m) =
       Normal (c', replicate (length stroked) 0, mkMouse curX curY true) /\
     wfCanvas c' /\
     (forall x y, onBorder c x y -> sameCell c c' x y) /\
     (forall x y,
        inGrid c x y ->
        x < Z.min (lastMouseX m) curX - lineWidth \/
        Z.max (lastMouseX m) curX + lineWidth <= x \/
        y < Z.min (lastMouseY m) curY - lineWidth \/
        Z.max (lastMouseY m) curY + lineWidth <= y ->
        sameCell c c' x y) /\
     (forall x y, inGrid c x y -> isPixelBlank c stroked x y = Some true ->
                  sameCell c c' x y)).
Proof.
  intros Hwf Hlen HlastX HlastY HcurX HcurY. split.
  - intros Hup. unfold onMouseMove. by rewrite Hup.
  - by apply onMouseMove_spec.
Qed.

Lemma drawing_spares_border_witness :
  let c := newCanvas 4 4 in
  let stroked := replicate 64%nat 255 in
  exists c',
    onMouseMove 30 2 2 stroked
      (c, replicate 64%nat 0, onMouseDown 1 1 (mkMouse 0 0 false)) =
      Normal (c', replicate (length stroked) 0, mkMouse 2 2 true) /\
    sameCell c c' 0 2.
Proof.
  intros c stroked.
  destruct (drawing_spares_border 30 2 2 stroked c (replicate 64%nat 0)
              (onMouseDown 1 1 (mkMouse 0 0 false)))
    as [_ Hdown]; try (simpl; lia).
  - apply newCanvas_wf; lia.
  - destruct Hdown as (c' & Hrun & _ & Hborder & _); [reflexivity|].
    exists c'. split; [exact Hrun|].
    apply Hborder. unfold onBorder, inGrid. simpl. lia.
Defined.

(** ** Seeding: [paintRandomPoints] *)

(** Writing one colour byte and the level of one cell. *)
Lemma cell_writeByte c0 c buffer x y (d : draw3) level c' F :
  sizedLike c0 (c, buffer) -> inGrid c0 x y ->
  setLevelAtCoord c x y level = Some c' ->
  (forall r g b l, cellState c buffer x y = Some (r, g, b, l) ->
     F x y (r, g, b, l) =
     (match d with
      | Draw0 => (255, g, b)
      | Draw1 => (r, 255, b)
      | Draw2 => (r, g, 255)
      end, level)) ->
  cellsMapped c0 [(y, x)] F (c, buffer)
    (c', storeByte buffer (canvasCoordToDataIndex c x y + draw3_Z d) 255).
Proof.
  intros Hs Hin Hset HF.
  destruct (inGrid_sized c0 _ x y Hs Hin) as (Hi & Hl & Hd0 & Hd).
  destruct Hs as (Hw & Hh & Hlen & Hblen). simpl in *.
  pose proof (setLevelAtCoord_width _ _ _ _ _ Hset) as Hw'.
  pose proof (setLevelAtCoord_height _ _ _ _ _ Hset) as Hh'.
  pose proof (setLevelAtCoord_context _ _ _ _ _ Hset) as Hc'.
  pose proof (setLevelAtCoord_length _ _ _ _ _ Hset) as Hl'.
  set (i := canvasCoordToDataIndex c x y) in *.
  assert (Hdz : 0 <= draw3_Z d <= 2) by (destruct d; simpl; lia).
  split; [|split; [done|split]].
  - unfold sizedLike. simpl. rewrite Hw', Hh', Hl', length_storeByte. done.
  - intros x' y' Hin'. simpl. split.
    + intros [= -> ->]%list_elem_of_singleton.
      destruct (cellState_is_Some c0 (c, buffer) x y)
        as [[[[r g] b] l] Hst]; [done|done|]. simpl in Hst.
      rewrite Hst. simpl. rewrite (HF r g b l Hst).
      apply cellState_Some. split; [|by apply (getLevel_setLevel_eq c)].
      rewrite (getRGB_width c c') by done.
      apply cellState_Some in Hst as [Hrgb _].
      unfold getRGB in *. fold i in Hrgb |- *.
      destruct (nth_cell buffer (i + 0)) as [r0|] eqn:H0; [|done].
      destruct (nth_cell buffer (i + 1)) as [g0|] eqn:H1; [|done].
      destruct (nth_cell buffer (i + 2)) as [b0|] eqn:H2; [|done].
      simpl in Hrgb. injection Hrgb as -> -> ->.
      destruct d; simpl draw3_Z.
      * rewrite nth_cell_storeByte_eq by lia.
        rewrite !nth_cell_storeByte_ne by lia. by rewrite H1, H2.
      * rewrite (nth_cell_storeByte_eq _ (i + 1)) by lia.
        rewrite !nth_cell_storeByte_ne by lia. by rewrite H0, H2.
      * rewrite (nth_cell_storeByte_eq _ (i + 2)) by lia.
        rewrite !nth_cell_storeByte_ne by lia. by rewrite H0, H1.
    + intros Hne%not_elem_of_cons. destruct Hne as [Hne _].
      assert (canvasCoordToLevelIndex c x' y' <> canvasCoordToLevelIndex c x y)
        as Hidx.
      { unfold canvasCoordToLevelIndex. rewrite Hw.
        intros Heq. apply Hne.
        destruct (inGrid_index_inj c0 x' y' x y Hin' Hin Heq) as [-> ->].
        done. }
      apply cellState_frame; [done| |].
      * intros d' Hd'. apply nth_cell_storeByte_ne.
        unfold i, canvasCoordToDataIndex, canvasCoordToLevelIndex in *. lia.
      * pose proof (getLevel_setLevel_ne c x y level c' x' y' Hset Hidx) as H.
        unfold getLevelAtCoord in H.
        unfold canvasCoordToLevelIndex in *. by rewrite Hw' in H.
  - intros j. simpl. apply nth_cell_storeByte_ne.
    unfold i, canvasCoordToDataIndex. lia.
Qed.

Lemma bytes_blank c buffer x y r g b :
  bytes buffer -> getRGB c buffer x y = Some (r, g, b) -> r + g + b = 0 ->
  r = 0 /\ g = 0 /\ b = 0.
Proof.
  intros Hbytes Hrgb Hsum. unfold getRGB in Hrgb.
  destruct (nth_cell buffer (canvasCoordToDataIndex c x y + 0)) as [r0|] eqn:H0;
    [|done].
  destruct (nth_cell buffer (canvasCoordToDataIndex c x y + 1)) as [g0|] eqn:H1;
    [|done].
  destruct (nth_cell buffer (canvasCoordToDataIndex c x y + 2)) as [b0|] eqn:H2;
    [|done].
  simpl in Hrgb. injection Hrgb as -> -> ->.
  pose proof (nth_cell_Forall _ _ _ _ Hbytes H0).
  pose proof (nth_cell_Forall _ _ _ _ Hbytes H1).
  pose proof (nth_cell_Forall _ _ _ _ Hbytes H2).
  simpl in *. lia.
Qed.

(** One iteration of [paintRandomPoints] keeps the state of its loop. *)
Lemma paintRandomPoint_holds initialLevel points howMany c i st :
  wfCanvas c -> bytes (context c) ->
  (i < howMany)%nat ->
  0 <= (points i).1.1 < width c - 2 ->
  0 <= (points i).1.2 < height c - 2 ->
  pointsInv initialLevel points howMany c st ->
  holds (pointsInv initialLevel points howMany c)
    (paintRandomPoint initialLevel (points i) st).
Proof.
  intros Hwf Hbytes Hi Hrx Hry (Hs & Hctx & Halpha & Hcells).
  destruct st as [c1 buffer]. destruct (points i) as [[rx ry] d] eqn:Hp.
  simpl in Hrx, Hry, Hctx, Halpha.
  unfold paintRandomPoint.
  set (x := 1 + rx). set (y := 1 + ry).
  assert (Hint : interior c x y) by (unfold interior, x, y; lia).
  pose proof (interior_inGrid c x y Hint) as Hin.
  destruct (cellState_is_Some c (c1, buffer) x y Hs Hin)
    as [[[[r g] b] l] Hst]. simpl in Hst.
  pose proof Hst as [Hrgb Hl]%cellState_Some.
  rewrite (isPixelBlank_rgb _ _ _ _ _ _ _ Hrgb).
  destruct (Z.eqb_spec (r + g + b) 0) as [Hsum|Hsum];
    [|exact (conj Hs (conj Hctx (conj Halpha Hcells)))].
  destruct (setLevelThen_Some c1 x y initialLevel
              (fun this =>
                 Normal (this,
                         storeByte buffer
                           (canvasCoordToDataIndex c1 x y + draw3_Z d) 255)))
    as (c' & Hset & ->); [by eexists|].
  simpl.
  (* the cell is as it was before the loop, and black *)
  assert (Horig : cellState c (context c) x y = Some (0, 0, 0, l)).
  { destruct (Hcells x y Hin) as [Hsame|(_ & _ & (k & _ & _ & _ & Hk) & _)].
    - simpl in Hsame. rewrite Hst in Hsame. symmetry in Hsame.
      pose proof Hsame as [Hrgb0 _]%cellState_Some.
      destruct (bytes_blank c (context c) x y r g b Hbytes Hrgb0 Hsum)
        as (-> & -> & ->). done.
    - exfalso. simpl in Hk. rewrite Hrgb in Hk.
      destruct (points k).2; simpl in Hk; injection Hk as -> -> ->; lia. }
  assert (r = 0 /\ g = 0 /\ b = 0) as (-> & -> & ->).
  { destruct (Hcells x y Hin) as [Hsame|(_ & _ & (k & _ & _ & _ & Hk) & _)].
    - simpl in Hsame. rewrite Hst, Horig in Hsame. by injection Hsame.
    - exfalso. simpl in Hk. rewrite Hrgb in Hk.
      destruct (points k).2; simpl in Hk; injection Hk as -> -> ->; lia. }
  pose proof (cell_writeByte c c1 buffer x y d initialLevel c'
                (fun _ _ cell => (pureColour d, initialLevel)) Hs Hin Hset)
    as Hmap.
  destruct Hmap as (Hs' & Hctx' & Hcells' & Halpha').
  { intros r g b l' Hcell. rewrite Hst in Hcell. injection Hcell as <- <- <- <-.
    by destruct d. }
  simpl in Hctx', Hcells', Halpha'.
  split; [done|]. split; [simpl; congruence|]. split.
  { intros j. simpl. by rewrite Halpha', Halpha. }
  intros x' y' Hin'. simpl.
  destruct (Hcells' x' y' Hin') as [Hhere Hother].
  destruct (decide ((y', x') = (y, x))) as [[= -> ->]|Hne].
  - right. specialize (Hhere (list_elem_of_here _ _)).
    rewrite Hst in Hhere. simpl in Hhere.
    apply cellState_Some in Hhere as [Hrgb' Hl'].
    apply cellState_Some in Horig as [Hrgb0 _].
    split; [done|]. split; [done|]. split; [|done].
    exists i. rewrite Hp. simpl. done.
  - rewrite Hother by by intros ?%list_elem_of_singleton.
    destruct (Hcells x' y' Hin')
      as [Hsame|(? & ? & (k & ? & ? & ? & Hk) & Hlk)];
      [by left|].
    right. simpl in Hk, Hlk.
    assert (cellState c' (storeByte buffer
                            (canvasCoordToDataIndex c1 x y + draw3_Z d) 255)
              x' y' = cellState c1 buffer x' y') as Heq.
    { apply Hother. by intros ?%list_elem_of_singleton. }
    destruct (cellState_is_Some c (c1, buffer) x' y' Hs Hin')
      as [[rgb1 l1] Hst1]. simpl in Hst1. rewrite Hst1 in Heq.
    apply cellState_Some in Hst1 as [Hrgb1 Hl1].
    apply cellState_Some in Heq as [Hrgb2 Hl2].
    split; [done|]. split; [done|]. split; [|congruence].
    exists k. repeat split; try done. congruence.
Qed.

Lemma forOf_normal {T S} (I : S -> Prop) (items : list T)
    (body : T -> S -> completion S) s :
  I s ->
  (forall i s, i ∈ items -> I s -> exists s', body i s = Normal s' /\ I s') ->
  exists s', forOf items body s = Normal s' /\ I s'.
Proof.
  revert s. induction items as [|i items IH]; intros s Hs Hbody.
  - by exists s.
  - destruct (Hbody i s) as (s1 & Hrun & Hs1); [apply list_elem_of_here|done|].
    simpl. rewrite Hrun. apply IH; [done|].
    intros j s' Hj. apply Hbody. by apply list_elem_of_further.
Qed.

Lemma paintRandomPoint_no_throw initialLevel point st e s :
  paintRandomPoint initialLevel point st <> Throw e s.
Proof.
  destruct st as [c buffer]. destruct point as [[rx ry] d].
  unfold paintRandomPoint, setLevelThen.
  destruct (isPixelBlank c buffer (1 + rx) (1 + ry)) as [[|]|]; try done.
  by destruct (setLevelAtCoord c (1 + rx) (1 + ry) initialLevel).
Qed.

(** What [paintRandomPoints] does to a well-formed canvas when every draw
    is inside its range. *)
Lemma paintRandomPoints_spec initialLevel points howMany c :
  wfCanvas c -> bytes (context c) ->
  (forall i, (i < howMany)%nat ->
     0 <= (points i).1.1 < width c - 2 /\
     0 <= (points i).1.2 < height c - 2) ->
  exists c',
    paintRandomPoints initialLevel points howMany c = Normal c' /\
    wfCanvas c' /\ width c' = width c /\ height c' = height c /\
    (forall x y, inGrid c x y ->
       sameCell c c' x y \/
       (interior c x y /\
        getRGB c (context c) x y = Some (0, 0, 0) /\
        (exists i, (i < howMany)%nat /\
           x = 1 + (points i).1.1 /\ y = 1 + (points i).1.2 /\
           getRGB c' (context c') x y = Some (pureColour (points i).2)) /\
        getLevelAtCoord c' x y = Some initialLevel)) /\
    (forall j, nth_cell (context c') (4 * j + 3) =
               nth_cell (context c) (4 * j + 3)) /\
    (initialLevel <> 0 -> emptyIffLevelZero c = true ->
     emptyIffLevelZero c' = true).
Proof.
  intros Hwf Hbytes Hpoints.
  destruct (forOf_normal (pointsInv initialLevel points howMany c)
              (seq 0 howMany)
              (fun i => paintRandomPoint initialLevel (points i))
              (c, context c))
    as ([c1 buffer1] & Hrun & Hs & _ & Halpha & Hcells).
  { split; [by apply wfCanvas_sized|]. split; [done|]. split; [done|].
    intros x y _. by left. }
  { intros i st Hi%elem_of_seq Hst.
    destruct (Hpoints i) as [Hrx Hry]; [lia|].
    pose proof (paintRandomPoint_holds initialLevel points howMany c i st
                  Hwf Hbytes ltac:(lia) Hrx Hry Hst) as Hstep.
    destruct (paintRandomPoint initialLevel (points i) st) as [s'|e s'|]
      eqn:Hres; [by exists s'| |done].
    by apply paintRandomPoint_no_throw in Hres. }
  unfold paintRandomPoints, getUnderlyingBufferCopy. rewrite Hrun.
  eexists. split; [done|].
  pose proof Hs as (Hw1 & Hh1 & _). simpl in Hw1, Hh1, Halpha, Hcells.
  split; [by apply (sized_wfCanvas c)|]. split; [done|]. split; [done|].
  assert (Hcell : forall x y, inGrid c x y ->
             sameCell c (putImageData c1 buffer1) x y \/
             (interior c x y /\
              getRGB c (context c) x y = Some (0, 0, 0) /\
              (exists i, (i < howMany)%nat /\
                 x = 1 + (points i).1.1 /\ y = 1 + (points i).1.2 /\
                 getRGB (putImageData c1 buffer1)
                   (context (putImageData c1 buffer1)) x y =
                   Some (pureColour (points i).2)) /\
              getLevelAtCoord (putImageData c1 buffer1) x y =
                Some initialLevel)).
  { intros x y Hin. destruct (Hcells x y Hin) as [Hsame|Hpainted].
    - left. apply sameCell_cellState; [done|].
      by apply (cellState_is_Some c (c, context c)); [apply wfCanvas_sized|].
    - by right. }
  split; [done|]. split; [done|].
  intros Hnz Hiff. apply emptyIffLevelZero_intro.
  intros x y Hin'.
  assert (inGrid c x y) as Hin by (unfold inGrid in *; simpl in *; lia).
  destruct (Hcell x y Hin)
    as [[Hrgb Hl]|(_ & _ & (i & _ & _ & _ & Hrgb) & Hl)].
  - destruct (emptyIffLevelZero_spec c x y Hiff Hin)
      as (blank & level & Hblank & Hlevel & Hbl).
    exists blank, level. rewrite Hl. split; [|done].
    unfold isPixelBlank in *.
    rewrite (getRGB_width c) in Hrgb by done.
    rewrite (getRGB_width c) by done. by rewrite Hrgb.
  - exists false, initialLevel. split; [|done].
    rewrite (isPixelBlank_rgb _ _ _ _
               (pureColour (points i).2).1.1 (pureColour (points i).2).1.2
               (pureColour (points i).2).2).
    + by destruct (points i).2.
    + rewrite Hrgb. by destruct (pureColour (points i).2) as [[? ?] ?].
Qed.

(** X16. [paintRandomPoints] on a well-formed canvas whose pixel data are
    bytes, when every draw is inside its range: it completes, and each cell
    either keeps its pixel and its level, or was black, lies in the interior
    and now has the pure colour of the channel drawn for it in some iteration
    and the level [initialLevel].  So border cells and painted cells are
    never painted over, no alpha byte changes, and if every cell was blank
    exactly when its level was 0, this still holds when [initialLevel] is
    not 0. *)
Theorem paintRandomPoints_paints initialLevel points howMany c :
  wfCanvas c -> bytes (context c) ->
  (forall i, (i < howMany)%nat ->
     0 <= (points i).1.1 < width c - 2 /\
     0 <= (points i).1.2 < height c - 2) ->
  exists c',
    paintRandomPoints initialLevel points howMany c = Normal c' /\
    wfCanvas c' /\ width c' = width c /\ height c' = height c /\
    (forall x y, inGrid c x y ->
       sameCell c c' x y \/
       (interior c x y /\
        getRGB c (context c) x y = Some (0, 0, 0) /\
        (exists i, (i < howMany)%nat /\
           x = 1 + (points i).1.1 /\ y = 1 + (points i).1.2 /\
           getRGB c' (context c') x y = Some (pureColour (points i).2)) /\
        getLevelAtCoord c' x y = Some initialLevel)) /\
    (forall j, nth_cell (context c') (4 * j + 3) =
               nth_cell (context c) (4 * j + 3)) /\
    (initialLevel <> 0 -> emptyIffLevelZero c = true ->
     emptyIffLevelZero c' = true).
Proof. apply paintRandomPoints_spec. Qed.

Lemma newCanvas_lookup (n k : nat) :
  (k < 4 * n)%nat ->
  concat (replicate n [0; 0; 0; 255]) !! k =
    Some (if (k mod 4 =? 3)%nat then 255 else 0).
Proof.
  revert k. induction n as [|n IH]; intros k Hk; [lia|].
  destruct k as [|[|[|[|k]]]]; try done.
  change (concat (replicate (S n) [0; 0; 0; 255]) !! S (S (S (S k))))
    with (concat (replicate n [0; 0; 0; 255]) !! k).
  rewrite IH by lia.
  replace (S (S (S (S k)))) with (k + 1 * 4)%nat by lia.
  by rewrite Nat.Div0.mod_add.
Qed.

Lemma newCanvas_bytes w h : bytes (context (newCanvas w h)).
Proof.
  unfold bytes. simpl. apply Forall_concat, Forall_replicate.
  repeat constructor; lia.
Qed.

Lemma newCanvas_rgb w h x y :
  inGrid (newCanvas w h) x y ->
  getRGB (newCanvas w h) (context (newCanvas w h)) x y = Some (0, 0, 0).
Proof.
  intros Hin. pose proof (inGrid_level_index _ x y Hin) as Hi.
  unfold getRGB, canvasCoordToDataIndex, canvasCoordToLevelIndex in *.
  simpl in *.
  assert (Hbyte : forall d, 0 <= d <= 2 ->
             nth_cell (concat (replicate (Z.to_nat (w * h)) [0; 0; 0; 255]))
               (4 * (y * w + x) + d) = Some 0).
  { intros d Hd. unfold nth_cell.
    destruct (Z.ltb_spec (4 * (y * w + x) + d) 0); [lia|].
    rewrite newCanvas_lookup by lia.
    replace (Z.to_nat (4 * (y * w + x) + d))
      with (Z.to_nat d + Z.to_nat (y * w + x) * 4)%nat by lia.
    rewrite Nat.Div0.mod_add.
    assert (Z.to_nat d = 0 \/ Z.to_nat d = 1 \/ Z.to_nat d = 2)%nat
      as [->|[->| ->]] by lia; done. }
  by rewrite !Hbyte by lia.
Qed.

Lemma newCanvas_empty w h x y :
  inGrid (newCanvas w h) x y -> emptyCell (newCanvas w h) x y.
Proof.
  intros Hin. split; [by apply newCanvas_rgb|by apply newCanvas_level].
Qed.

Lemma reset_newCanvas w h : reset (newCanvas w h) = newCanvas w h.
Proof.
  unfold reset, putImageData, getUnderlyingBufferCopy, newCanvas. simpl.
  f_equal. unfold resetBuffer. apply list_eq. intros k.
  rewrite list_lookup_imap.
  destruct (decide (k < 4 * Z.to_nat (w * h))%nat) as [Hk|Hk].
  - by rewrite newCanvas_lookup.
  - rewrite lookup_ge_None_2; [done|].
    rewrite length_concat_replicate. simpl. lia.
Qed.

Lemma emptyCells_iff c :
  (forall x y, inGrid c x y -> emptyCell c x y) -> emptyIffLevelZero c = true.
Proof.
  intros H. apply emptyIffLevelZero_intro. intros x y Hin.
  destruct (H x y Hin) as [Hrgb Hl]. exists true, 0.
  by rewrite (isPixelBlank_rgb _ _ _ _ _ _ _ Hrgb), Hl.
Qed.

(** What [loadInitialCanvas] leaves, whatever the setup. *)
Lemma loadInitialCanvas_spec setup w h sectors points s :
  3 <= w -> 3 <= h ->
  Z.of_nat (length sectors) = 4 * (w * h) ->
  (forall i, (i < 100)%nat ->
     0 <= (points i).1.1 < w - 2 /\ 0 <= (points i).1.2 < h - 2) ->
  initialLevel s <> 0 ->
  exists c',
    loadInitialCanvas setup w h sectors points s =
      Normal (set_uiCanvas c' s) /\
    wfCanvas c' /\ width c' = w /\ height c' = h /\
    (forall x y, onBorder c' x y -> emptyCell c' x y) /\
    emptyIffLevelZero c' = true /\
    (forall x y, inGrid c' x y ->
       getLevelAtCoord c' x y = Some 0 \/
       getLevelAtCoord c' x y = Some (initialLevel s)) /\
    (setup <> "sectors" -> setup <> "points" -> c' = newCanvas w h).
Proof.
  intros Hw Hh Hlen Hpoints Hnz.
  assert (Hnew : wfCanvas (newCanvas w h)) by (apply newCanvas_wf; lia).
  assert (Hfresh :
            wfCanvas (newCanvas w h) /\
            width (newCanvas w h) = w /\ height (newCanvas w h) = h /\
            (forall x y, onBorder (newCanvas w h) x y ->
                         emptyCell (newCanvas w h) x y) /\
            emptyIffLevelZero (newCanvas w h) = true /\
            (forall x y, inGrid (newCanvas w h) x y ->
               getLevelAtCoord (newCanvas w h) x y = Some 0 \/
               getLevelAtCoord (newCanvas w h) x y = Some (initialLevel s)) /\
            (setup <> "sectors" -> setup <> "points" ->
             newCanvas w h = newCanvas w h)).
  { split; [done|]. split; [done|]. split; [done|]. split; [|split; [|split]].
    - intros x y [Hin _]. by apply newCanvas_empty.
    - apply emptyCells_iff. intros x y. apply newCanvas_empty.
    - intros x y Hin. left. by apply newCanvas_level.
    - done. }
  unfold loadInitialCanvas.
  destruct (String.eqb_spec setup "clear") as [->|Hclear].
  { exists (newCanvas w h). by rewrite reset_newCanvas. }
  destruct (String.eqb_spec setup "sectors") as [->|Hsectors].
  { destruct (paintSectors_spec w h sectors (initialLevel s))
      as (c' & -> & Hwf & Hw' & Hh' & Hborder & Hinner & Hiff);
      [lia|lia|done|].
    exists c'. split; [done|]. split; [done|]. split; [done|]. split; [done|].
    split; [done|]. split; [by apply Hiff|]. split; [|done].
    intros x y Hin. destruct (decide (onBorder c' x y)) as [Hb|Hb].
    - left. by destruct (Hborder x y Hb).
    - destruct (inGrid_rgb c' sectors x y) as [[[r g] b] Hrgb];
        [done|by rewrite Hw', Hh'|done|].
      pose proof (Hinner x y r g b Hin Hb Hrgb) as Hc.
      destruct (r + g + b =? 0); destruct Hc as [_ Hl]; [by left|by right]. }
  destruct (String.eqb_spec setup "points") as [->|Hpts].
  { destruct (paintRandomPoints_spec (initialLevel s) points 100
                (newCanvas w h) Hnew (newCanvas_bytes w h))
      as (c' & -> & Hwf & Hw' & Hh' & Hcells & _ & Hiff); [done|].
    simpl in Hw', Hh'.
    assert (Hgrid : forall x y, inGrid c' x y -> inGrid (newCanvas w h) x y).
    { unfold inGrid. rewrite Hw', Hh'. done. }
    exists c'. split; [done|]. split; [done|]. split; [done|]. split; [done|].
    split; [|split; [|split; [|done]]].
    - intros x y [Hin Hedge].
      destruct (Hcells x y (Hgrid x y Hin)) as [[Hrgb Hl]|(Hint & _)].
      + destruct (newCanvas_empty w h x y (Hgrid x y Hin)) as [Hrgb0 Hl0].
        unfold emptyCell. by rewrite Hrgb, Hl.
      + exfalso. unfold interior in Hint. simpl in Hint.
        rewrite Hw', Hh' in Hedge. lia.
    - apply Hiff; [done|]. apply emptyCells_iff.
      intros x y. apply newCanvas_empty.
    - intros x y Hin.
      destruct (Hcells x y (Hgrid x y Hin)) as [[_ Hl]|(_ & _ & _ & Hl)].
      + left. rewrite Hl. by apply newCanvas_level, Hgrid.
      + by right. }
  exists (newCanvas w h). done.
Qed.

(** X17. [loadInitialCanvas], whatever the setup ("clear", "sectors",
    "points" or any other string), whatever the arcs put in the pixel data
    and whatever the points drawn inside their range: on a canvas at least 3
    wide and 3 high and with an [initialLevel] other than 0 it completes and
    replaces the canvas of the simulation, changing no other field; the new
    canvas is well formed, its border cells are black at level 0, each of its
    cells is blank exactly when its level is 0, and every level is 0 or
    [initialLevel].  A setup other than "sectors" and "points" gives the
    canvas as constructed, all black at level 0. *)
Theorem loadInitialCanvas_seeds setup w h sectors points s :
  3 <= w -> 3 <= h ->
  Z.of_nat (length sectors) = 4 * (w * h) ->
  (forall i, (i < 100)%nat ->
     0 <= (points i).1.1 < w - 2 /\ 0 <= (points i).1.2 < h - 2) ->
  initialLevel s <> 0 ->
  exists c',
    loadInitialCanvas setup w h sectors points s =
      Normal (set_uiCanvas c' s) /\
    wfCanvas c' /\ width c' = w /\ height c' = h /\
    (forall x y, onBorder c' x y -> emptyCell c' x y) /\
    emptyIffLevelZero c' = true /\
    (forall x y, inGrid c' x y ->
       getLevelAtCoord c' x y = Some 0 \/
       getLevelAtCoord c' x y = Some (initialLevel s)) /\
    (setup <> "sectors" -> setup <> "points" -> c' = newCanvas w h).
Proof. apply loadInitialCanvas_spec. Qed.

Lemma paintRandomPoints_paints_witness :
  exists c',
    paintRandomPoints 30 (fun _ => (0, 1, Draw1)) 3 (newCanvas 4 4) =
      Normal c' /\
    emptyIffLevelZero c' = true.
Proof.
  destruct (paintRandomPoints_paints 30 (fun _ => (0, 1, Draw1)) 3
              (newCanvas 4 4))
    as (c' & Hrun & _ & _ & _ & _ & _ & Hiff).
  - apply newCanvas_wf; lia.
  - apply newCanvas_bytes.
  - intros i _. simpl. lia.
  - exists c'. split; [exact Hrun|]. apply Hiff; [discriminate|reflexivity].
Defined.

Lemma loadInitialCanvas_seeds_witness :
  let s := defaultSim (newCanvas 3 3) in
  exists c',
    loadInitialCanvas "points" 4 4 (replicate 64%nat 0)
      (fun _ => (0, 1, Draw1)) s = Normal (set_uiCanvas c' s) /\
    emptyIffLevelZero c' = true.
Proof.
  intros s.
  destruct (loadInitialCanvas_seeds "points" 4 4 (replicate 64%nat 0)
              (fun _ => (0, 1, Draw1)) s)
    as (c' & Hrun & _ & _ & _ & _ & Hiff & _).
  - lia.
  - lia.
  - reflexivity.
  - intros i _. simpl. lia.
  - discriminate.
  - exists c'. split; [exact Hrun|exact Hiff].
Defined.

(** ** class Timing *)

Section TimingProofs.
Context {Num Callback S : Type}.
Variable zero : Num.
Variable add : Num -> Num -> Num.
Variable divide : Num -> nat -> Num.
Variable fn : S -> completion S.
Hypothesis fn_completes : forall s, exists s', fn s = Normal s'.

(** Samples are collected while there are fewer than [samplesPerAverage]. *)
Lemma measures_collect label (callbacks : gmap string Callback)
    (measurements : gmap string (list Num)) n es :
  forall pre s calls,
  (length (pre ++ es) < n)%nat ->
  exists s',
    forOf es (fun e => measure zero add divide e label fn)
      (s, mkTiming callbacks (<[label := pre]> measurements) n, calls) =
    Normal (s', mkTiming callbacks (<[label := pre ++ es]> measurements) n,
            calls).
Proof.
  induction es as [|e es IH]; intros pre s calls Hlen.
  - exists s. simpl. by rewrite app_nil_r.
  - simpl. destruct (fn_completes s) as [s1 ->]. simpl.
    rewrite lookup_insert_eq.
    rewrite length_app in *. simpl in *.
    destruct (Nat.leb_spec n (length pre + 1)); [lia|].
    rewrite insert_insert_eq.
    destruct (IH (pre ++ [e]) s1 calls) as [s' ->].
    { rewrite length_app, length_app. simpl. lia. }
    exists s'. by rewrite <- app_assoc.
Qed.

(** The sample that fills the window triggers the callback and empties the
    list. *)
Lemma measure_fills label (callbacks : gmap string Callback)
    (measurements : gmap string (list Num)) n pre e callback s calls :
  callbacks !! label = Some callback ->
  (n <= length pre + 1)%nat ->
  exists s',
    measure zero add divide e label fn
      (s, mkTiming callbacks (<[label := pre]> measurements) n, calls) =
    Normal (s', mkTiming callbacks (<[label := []]> measurements) n,
            calls ++ [(callback, average zero add divide (pre ++ [e]))]).
Proof.
  intros Hcb Hn. unfold measure. destruct (fn_completes s) as [s1 ->].
  simpl. rewrite lookup_insert_eq.
  rewrite length_app. simpl.
  destruct (Nat.leb_spec n (length pre + 1)); [|lia].
  rewrite !insert_insert_eq, Hcb. by exists s1.
Qed.

Lemma timing_window_spec label callback (this : @Timing Num Callback) es s
    calls :
  samplesPerAverage this = length es -> es <> [] ->
  (exists s',
     forOf es (fun e => measure zero add divide e label fn)
       (s, on label callback this, calls) =
     Normal (s', on label callback this,
             calls ++ [(callback, average zero add divide es)])) /\
  (forall k, (k < length es)%nat ->
     exists s' this',
       forOf (take k es) (fun e => measure zero add divide e label fn)
         (s, on label callback this, calls) = Normal (s', this', calls) /\
       measurementsByLabel this' !! label = Some (take k es)) /\
  (forall s1 label',
     fn s = Normal s1 -> measurementsByLabel this !! label' = None ->
     measure zero add divide (average zero add divide es) label' fn
       (s, this, calls) = Throw TypeError (s1, this, calls)).
Proof.
  intros Hn Hne. split; [|split].
  - destruct (exists_last Hne) as (front & e & ->).
    rewrite forOf_app. unfold on.
    destruct (measures_collect label
                (<[label := callback]> (callbackByLabel this))
                (measurementsByLabel this) (samplesPerAverage this)
                front [] s calls) as [s1 ->].
    { simpl. rewrite Hn, length_app. simpl. lia. }
    cbn [forOf app].
    destruct (measure_fills label
                (<[label := callback]> (callbackByLabel this))
                (measurementsByLabel this) (samplesPerAverage this)
                front e callback s1 calls) as [s' ->].
    { apply lookup_insert_eq. }
    { rewrite Hn, length_app. simpl. lia. }
    by exists s'.
  - intros k Hk. unfold on.
    destruct (measures_collect label
                (<[label := callback]> (callbackByLabel this))
                (measurementsByLabel this) (samplesPerAverage this)
                (take k es) [] s calls) as [s1 ->].
    { simpl. rewrite length_take. lia. }
    eexists _, _. split; [done|]. simpl. apply lookup_insert_eq.
  - intros s1 label' Hfn Hnone. unfold measure. by rewrite Hfn, Hnone.
Qed.

End TimingProofs.

(** X18. The averaging window of [Timing].  After [on(label, callback)],
    when the measured function completes each time: the first
    [samplesPerAverage - 1] calls of [measure(label, fn)] call nothing and
    keep their durations, in order; the call that brings the number of
    samples to [samplesPerAverage] calls the callback once, with the sum of
    the durations from 0 divided by their number, and leaves the timing as it
    was right after [on], so the next window starts empty.  [measure] with a
    label that has no list of measurements throws a [TypeError] after the
    function has run, and records nothing. *)
Theorem timing_window {Num Callback S : Type} (zero : Num)
    (add : Num -> Num -> Num) (divide : Num -> nat -> Num)
    (fn : S -> completion S) label callback (this : @Timing Num Callback)
    es s calls :
  (forall s, exists s', fn s = Normal s') ->
  samplesPerAverage this = length es -> es <> [] ->
  (exists s',
     forOf es (fun e => measure zero add divide e label fn)
       (s, on label callback this, calls) =
     Normal (s', on label callback this,
             calls ++ [(callback, average zero add divide es)])) /\
  (forall k, (k < length es)%nat ->
     exists s' this',
       forOf (take k es) (fun e => measure zero add divide e label fn)
         (s, on label callback this, calls) = Normal (s', this', calls) /\
       measurementsByLabel this' !! label = Some (take k es)) /\
  (forall s1 label',
     fn s = Normal s1 -> measurementsByLabel this !! label' = None ->
     measure zero add divide (average zero add divide es) label' fn
       (s, this, calls) = Throw TypeError (s1, this, calls)).
Proof. intros Hfn. by apply timing_window_spec. Qed.

Lemma timing_window_witness :
  let fn := fun n : nat => Normal (Datatypes.S n) in
  let divide := fun (a : Z) (n : nat) => a / Z.of_nat n in
  let es := seqZ 1 30 in
  let this : @Timing Z string := on "do-work" "show" newTiming in
  exists s',
    forOf es (fun e => measure 0 Z.add divide e "do-work" fn) (O, this, []) =
      Normal (s', this, [("show", average 0 Z.add divide es)]).
Proof.
  intros fn divide es this.
  destruct (timing_window 0 Z.add divide fn "do-work" "show" newTiming es O [])
    as [Hfull _].
  - intros n. by eexists.
  - reflexivity.
  - discriminate.
  - exact Hfull.
Defined.

(** ** What a pass paints *)

Lemma paintedInside_step c0 c x y paint workingBuffer :
  width c = width c0 -> interior c0 x y ->
  paintedInside c0 workingBuffer ->
  paintedInside c0 (paintWith c x y paint workingBuffer).
Proof.
  intros Hw Hxy Hq k Hk. rewrite <- (Hq k Hk).
  destruct paint as [[[r g] b]|]; simpl; [|done].
  apply nth_cell_setRGB_ne; unfold canvasCoordToDataIndex; rewrite Hw;
    intros ->; apply Hk.
  - exists x, y, 0. unfold canvasCoordToDataIndex. split; [done|]. lia.
  - exists x, y, 1. unfold canvasCoordToDataIndex. split; [done|]. lia.
  - exists x, y, 2. unfold canvasCoordToDataIndex. split; [done|]. lia.
Qed.

Lemma updateWith_paintedInside random thisArg w :
  wfSim (self w) ->
  holds (fun w' =>
           width (uiCanvas (self w')) = width (uiCanvas (self w)) /\
           height (uiCanvas (self w')) = height (uiCanvas (self w)) /\
           length (context (uiCanvas (self w'))) =
             length (context (uiCanvas (self w))) /\
           paintedInside (uiCanvas (self w)) (context (uiCanvas (self w'))))
    (updateWith random thisArg w).
Proof.
  intros Hwf. set (c0 := uiCanvas (self w)).
  assert (Hstep : forall x y c workingBuffer nx ny,
      interior c0 x y -> wfCanvas c ->
      width c = width c0 -> height c = height c0 -> context c = context c0 ->
      length workingBuffer = length (context c0) ->
      inGrid c nx ny -> paintedInside c0 workingBuffer ->
      reaches (fun r => paintedInside c0 r.2)
        (selectAlgorithm (self w) thisArg x y nx ny c (context c0)
           workingBuffer)).
  { intros x y c wb nx ny Hxy Hwfc Hw Hh Hctx Hlen Hn HQ.
    destruct (selectAlgorithm_shape (self w) thisArg x y nx ny c
                (context c0)) as (res & Heq & _ & _).
    rewrite Heq.
    destruct res as [[c' paint]|e' [c' paint]|]; simpl; try done;
      by apply paintedInside_step. }
  pose proof (updateWith_holds random thisArg
                (fun _ wb => paintedInside c0 wb) w Hwf
                (fun k _ => eq_refl) Hstep) as Hup.
  destruct (updateWith random thisArg w) as [w'|e w'|]; simpl; [| |done].
  - destruct Hup as (Hwf' & _ & Hw & Hh & HQ).
    split; [done|]. split; [done|]. split; [|done].
    destruct Hwf' as [[_ _ _ Hc'] _ _ _ _ _ _ _].
    destruct Hwf as [[_ _ _ Hc] _ _ _ _ _ _ _].
    fold c0 in Hc, Hw, Hh. rewrite Hw, Hh, <- Hc in Hc'. lia.
  - destruct Hup as (_ & _ & Hw & Hh & Hctx & _).
    split; [done|]. split; [done|]. rewrite Hctx. split; [done|].
    by intros k _.
Qed.

(** X19. A call of [update] on a well-formed simulation, whether it
    completes or throws, for both rules, every selection mode, every receiver
    and all random draws, writes only colour bytes of interior cells: every
    alpha byte and the pixel of every cell outside the interior stay as they
    were, whatever the level of that cell, and the pixel data keep their
    length. *)
Theorem pass_paints_interior_only random thisArg w :
  wfSim (self w) ->
  holds (fun w' =>
           length (context (uiCanvas (self w'))) =
             length (context (uiCanvas (self w))) /\
           (forall j,
              nth_cell (context (uiCanvas (self w'))) (4 * j + 3) =
              nth_cell (context (uiCanvas (self w))) (4 * j + 3)) /\
           (forall x y,
              inGrid (uiCanvas (self w)) x y ->
              ~ interior (uiCanvas (self w)) x y ->
              getRGB (uiCanvas (self w')) (context (uiCanvas (self w'))) x y =
              getRGB (uiCanvas (self w)) (context (uiCanvas (self w))) x y))
    (updateWith random thisArg w).
Proof.
  intros Hwf.
  pose proof (updateWith_paintedInside random thisArg w Hwf) as Hup.
  set (c0 := uiCanvas (self w)) in *.
  assert (Hgoal : forall w',
             width (uiCanvas (self w')) = width c0 /\
             height (uiCanvas (self w')) = height c0 /\
             length (context (uiCanvas (self w'))) = length (context c0) /\
             paintedInside c0 (context (uiCanvas (self w'))) ->
             length (context (uiCanvas (self w'))) = length (context c0) /\
             (forall j,
                nth_cell (context (uiCanvas (self w'))) (4 * j + 3) =
                nth_cell (context c0) (4 * j + 3)) /\
             (forall x y,
                inGrid c0 x y -> ~ interior c0 x y ->
                getRGB (uiCanvas (self w')) (context (uiCanvas (self w'))) x y =
                getRGB c0 (context c0) x y)).
  { intros w' (Hw & Hh & Hlen & HQ). split; [done|]. split.
    - intros j. apply HQ. intros (x & y & d & _ & Hd & Hk).
      unfold canvasCoordToDataIndex in Hk. lia.
    - intros x y Hin Hnot. rewrite (getRGB_width c0) by done.
      unfold getRGB.
      assert (Hbyte : forall d, 0 <= d <= 2 ->
                 nth_cell (context (uiCanvas (self w')))
                   (canvasCoordToDataIndex c0 x y + d) =
                 nth_cell (context c0) (canvasCoordToDataIndex c0 x y + d)).
      { intros d Hd. apply HQ. intros (x' & y' & d' & Hxy' & Hd' & Hk).
        apply Hnot.
        destruct (inGrid_index_inj c0 x y x' y' Hin
                    (interior_inGrid _ _ _ Hxy')) as [-> ->]; [|done].
        unfold canvasCoordToDataIndex, canvasCoordToLevelIndex in *. lia. }
      by rewrite !Hbyte by lia. }
  destruct (updateWith random thisArg w) as [w'|e w'|]; simpl in *;
    [by apply Hgoal|by apply Hgoal|done].
Qed.

Lemma pass_paints_interior_only_witness :
  holds (fun w' =>
           length (context (uiCanvas (self w'))) =
             length (context (uiCanvas (self chainWorld))) /\
           (forall j,
              nth_cell (context (uiCanvas (self w'))) (4 * j + 3) =
              nth_cell (context (uiCanvas (self chainWorld))) (4 * j + 3)) /\
           (forall x y,
              inGrid (uiCanvas (self chainWorld)) x y ->
              ~ interior (uiCanvas (self chainWorld)) x y ->
              getRGB (uiCanvas (self w')) (context (uiCanvas (self w'))) x y =
              getRGB (uiCanvas (self chainWorld))
                (context (uiCanvas (self chainWorld))) x y))
    (updateWith (alwaysDraw Draw0) None chainWorld).
Proof.
  apply (pass_paints_interior_only (alwaysDraw Draw0) None chainWorld).
  apply chainWorld_wf.
Defined.

(** ** From seeding to the passes *)

(** X20. Seeding and passes together: after [loadInitialCanvas], whatever
    the setup, on a canvas at least 3 wide and 3 high and with an
    [initialLevel] other than 0, any number of frames of [update] run inside
    the arrays and every border cell stays black at level 0, for both rules,
    every selection mode, every receiver of the rule and all random
    draws. *)
Theorem border_stays_empty setup w h sectors points random thisArg n s
    (from : nat) :
  wfSim s ->
  3 <= w -> 3 <= h ->
  Z.of_nat (length sectors) = 4 * (w * h) ->
  (forall i, (i < 100)%nat ->
     0 <= (points i).1.1 < w - 2 /\ 0 <= (points i).1.2 < h - 2) ->
  initialLevel s <> 0 ->
  exists s1 w',
    loadInitialCanvas setup w h sectors points s = Normal s1 /\
    framesWith random thisArg n (mkWorld s1 from) = Some w' /\
    forall x y, onBorder (uiCanvas s1) x y -> emptyCell (uiCanvas (self w')) x y.
Proof.
  intros Hwf Hw Hh Hlen Hpoints Hnz.
  destruct (loadInitialCanvas_spec setup w h sectors points s)
    as (c' & Hload & Hwfc & Hw' & Hh' & Hborder & _); try done.
  set (s1 := set_uiCanvas c' s) in *.
  assert (Hwf1 : wfSim (self (mkWorld s1 from)))
    by by apply wfSim_set_uiCanvas.
  assert (Hcorner : onBorder c' 0 0) by (unfold onBorder, inGrid; lia).
  destruct (border_cell_frames random thisArg n (mkWorld s1 from) 0 0 Hwf1)
    as (w' & Hrun & _); [done|by destruct (Hborder 0 0 Hcorner)|].
  exists s1, w'. split; [done|]. split; [done|].
  intros x y Hb. destruct (Hborder x y Hb) as [Hrgb Hl].
  destruct (border_cell_frames random thisArg n (mkWorld s1 from) x y Hwf1)
    as (w'' & Hrun' & _ & Hl' & Hrgb'); [done|done|].
  rewrite Hrun in Hrun'. injection Hrun' as <-.
  split; [|done]. simpl in Hrgb'. by rewrite Hrgb'.
Qed.

Lemma border_stays_empty_witness :
  let s := defaultSim (newCanvas 3 3) in
  exists s1 w',
    loadInitialCanvas "points" 4 4 (replicate 64%nat 0)
      (fun _ => (0, 1, Draw1)) s = Normal s1 /\
    framesWith (alwaysDraw Draw2) boundThis 2 (mkWorld s1 0) = Some w' /\
    forall x y, onBorder (uiCanvas s1) x y -> emptyCell (uiCanvas (self w')) x y.
Proof.
  intros s.
  apply (border_stays_empty "points" 4 4 (replicate 64%nat 0)
           (fun _ => (0, 1, Draw1)) (alwaysDraw Draw2) boundThis 2 s 0%nat).
  - apply construct_wf, newCanvas_wf; lia.
  - lia.
  - lia.
  - reflexivity.
  - intros i _. simpl. lia.
  - discriminate.
Defined.
